(** * Sea-ice drift pattern matching: a shallow embedding of pmlib.py and lib.py

    The development follows the Python sources function by function.
    numpy's float64 values are IEEE binary64 numbers, taken from the
    Standard Library's executable specification [SpecFloat]; 1-D arrays
    are lists, 2-D arrays are lists of rows, Python exceptions are an
    error result, and the calls that leave the process (the template
    matcher, the progress print, the drift-vector conversion) are
    recorded in a log so that "was never attempted" can be stated.

    Python 3 is assumed: [/] is true division and [round] rounds ties
    to even.  Images are numpy arrays of uint8, correlation surfaces
    are held in float64 (every float32 that OpenCV returns is one), and
    the numpy and scipy routines that the sources call are parameters
    of the model, gathered in the class [Numerics]. *)

From Stdlib Require Import ZArith Bool Lia.
From Stdlib Require Import Floats.SpecFloat.
From stdpp Require Import base option list gmap.

(** ** float64 *)

Abbreviation float := spec_float.

Definition prec : Z := 53.
Definition emax : Z := 1024.

Definition fadd : float -> float -> float := SFadd prec emax.
Definition fsub : float -> float -> float := SFsub prec emax.
Definition fmul : float -> float -> float := SFmul prec emax.
Definition fdiv : float -> float -> float := SFdiv prec emax.
Definition fsqrt : float -> float := SFsqrt prec emax.
Definition fabs : float -> float := SFabs.

(** Comparisons are the IEEE ones: every comparison with NaN is false. *)
Definition flt (x y : float) : bool := SFltb x y.
Definition fle (x y : float) : bool := SFleb x y.
Definition fgt (x y : float) : bool := flt y x.
Definition fge (x y : float) : bool := fle y x.

Definition fisnan (x : float) : bool :=
  match x with S754_nan => true | _ => false end.

Definition np_nan : float := S754_nan.
Definition neg_inf : float := S754_infinity true.

(** Conversion of a Python int (correctly rounded). *)
Definition of_Z (z : Z) : float := binary_normalize prec emax z 0 false.

Definition f0 : float := S754_zero false.
Definition f1 : float := Eval cbv in of_Z 1.
Definition f2 : float := Eval cbv in of_Z 2.

(** ** Python exceptions *)

Inductive exn : Set :=
| ValueError
| IndexError
| OverflowError
| TypeError
| UnboundLocalError
| ExternalError.

Inductive result (A : Type) : Type :=
| Ok (a : A)
| Raise (e : exn).
Arguments Ok {A} a.
Arguments Raise {A} e.

Definition rbind {A B} (m : result A) (f : A -> result B) : result B :=
  match m with
  | Ok a => f a
  | Raise e => Raise e
  end.

Definition is_ok {A} (m : result A) : bool :=
  match m with Ok _ => true | Raise _ => false end.

(** What the caller gets back when nothing was raised. *)
Definition returned {A} (m : result A) : option A :=
  match m with Ok a => Some a | Raise _ => None end.

#[global] Instance result_ret : MRet result := fun A a => Ok a.
#[global] Instance result_bind : MBind result := fun A B f m => rbind m f.
#[global] Instance result_fmap : FMap result :=
  fun A B f m => rbind m (fun a => Ok (f a)).

(** ** Float to integer conversions *)

(** The magnitude [m * 2^e] split into integer part and a comparison of
    the fractional part with one half. *)
Definition split_mag (m : positive) (e : Z) : Z * comparison :=
  match e with
  | Zneg p =>
      let d := Z.shiftl 1 (Zpos p) in
      let q := Z.shiftr (Zpos m) (Zpos p) in
      let r := (Zpos m - Z.shiftl q (Zpos p))%Z in
      (q, if (r =? 0)%Z then Lt else (2 * r ?= d)%Z)
  | _ => (Z.shiftl (Zpos m) e, Lt)
  end.

Definition is_whole (m : positive) (e : Z) : bool :=
  match e with
  | Zneg p => (Zpos m =? Z.shiftl (Z.shiftr (Zpos m) (Zpos p)) (Zpos p))%Z
  | _ => true
  end.

(** [int(x)]: truncation toward zero; NaN and the infinities raise. *)
Definition py_int (x : float) : result Z :=
  match x with
  | S754_nan => Raise ValueError
  | S754_infinity _ => Raise OverflowError
  | S754_zero _ => Ok 0%Z
  | S754_finite s m e => Ok (cond_Zopp s (fst (split_mag m e)))
  end.

(** [round(x)] of Python 3: to the nearest integer, ties to even. *)
Definition py_round (x : float) : result Z :=
  match x with
  | S754_nan => Raise ValueError
  | S754_infinity _ => Raise OverflowError
  | S754_zero _ => Ok 0%Z
  | S754_finite s m e =>
      let '(q, c) := split_mag m e in
      let q' := match c with
                | Lt => q
                | Gt => (q + 1)%Z
                | Eq => if Z.even q then q else (q + 1)%Z
                end in
      Ok (cond_Zopp s q')
  end.

(** [np.ceil]: stays a float; NaN, infinities and zeros are fixed points. *)
Definition np_ceil (x : float) : float :=
  match x with
  | S754_finite s m e =>
      if is_whole m e then x
      else
        let q := fst (split_mag m e) in
        let z := if s then (- q)%Z else (q + 1)%Z in
        binary_normalize prec emax z 0 s
  | _ => x
  end.

(** C casts behind [np.uint16(a)] and [a.astype(np.int16)], as numpy's
    compiled loops perform them on x86-64: the double is converted to a
    32-bit integer by truncation toward zero and the low 16 bits are
    kept.  Where the truncated value does not fit 32 bits, and for NaN
    and the infinities, the conversion yields the integer indefinite
    value -2^31, whose low bits are zero.  (The C standard leaves these
    cases open.) *)
Definition int32_indefinite : Z := (-2147483648)%Z.

Definition to_int32 (x : float) : Z :=
  match py_int x with
  | Ok z => if ((-2147483648 <=? z) && (z <=? 2147483647))%Z then z else int32_indefinite
  | Raise _ => int32_indefinite
  end.

Definition np_uint16 (x : float) : Z := (to_int32 x mod 65536)%Z.

Definition np_int16 (x : float) : Z :=
  ((to_int32 x + 32768) mod 65536 - 32768)%Z.

(** ** numpy arrays

    A 1-D array is a list; a 2-D array is the list of its rows.  (An
    array without rows is reported with zero columns.) *)

Abbreviation vec := (list float).
Abbreviation image := (list (list Z)).
Abbreviation surface := (list (list float)).

Definition shape0 {A} (m : list (list A)) : Z := Z.of_nat (length m).
Definition shape1 {A} (m : list (list A)) : Z :=
  match m with
  | [] => 0%Z
  | r :: _ => Z.of_nat (length r)
  end.

(** Bounds of a Python slice [a:b] over a sequence of length [n]. *)
Definition slice_index (n i : Z) : Z :=
  if (i <? 0)%Z then Z.max 0 (i + n) else Z.min i n.

Definition py_slice {A} (a b : Z) (l : list A) : list A :=
  let n := Z.of_nat (length l) in
  let s := slice_index n a in
  let e := slice_index n b in
  take (Z.to_nat (e - s)) (drop (Z.to_nat s) l).

(** [m[a:b, c:d]] *)
Definition slice2 {A} (a b c d : Z) (m : list (list A)) : list (list A) :=
  map (py_slice c d) (py_slice a b m).

(** [l[i]] with Python's negative indices. *)
Definition py_index {A} (l : list A) (i : Z) : result A :=
  let n := Z.of_nat (length l) in
  let j := if (i <? 0)%Z then (i + n)%Z else i in
  if (j <? 0)%Z then Raise IndexError
  else match l !! Z.to_nat j with
       | Some x => Ok x
       | None => Raise IndexError
       end.

(** [m[r, c]] *)
Definition py_index2 {A} (m : list (list A)) (r c : Z) : result A :=
  row ← py_index m r; py_index row c.

Definition count_true (gpi : list bool) : nat := length (filter (fun b => b = true) gpi).

(** [x[gpi]] for a boolean mask. *)
Fixpoint select {A} (gpi : list bool) (xs : list A) : list A :=
  match gpi, xs with
  | g :: gs, x :: xs' => if g then x :: select gs xs' else select gs xs'
  | _, _ => []
  end.

Definition mask_select {A} (gpi : list bool) (xs : list A) : result (list A) :=
  if decide (length gpi = length xs) then Ok (select gpi xs) else Raise IndexError.

(** [y[gpi] = data] for a boolean mask and an array of values. *)
Fixpoint scatter {A} (gpi : list bool) (y data : list A) : list A :=
  match gpi, y with
  | true :: gs, y0 :: ys =>
      match data with
      | d :: ds => d :: scatter gs ys ds
      | [] => y0 :: scatter gs ys []
      end
  | false :: gs, y0 :: ys => y0 :: scatter gs ys data
  | _, _ => y
  end.

Definition mask_assign {A} (gpi : list bool) (y data : list A) : result (list A) :=
  if decide (length gpi = length y) then
    if decide (length data = count_true gpi) then Ok (scatter gpi y data)
    else match data with
         | [d] => Ok (scatter gpi y (replicate (count_true gpi) d))
         | _ => Raise ValueError
         end
  else Raise IndexError.

(** [y[mask] = v] for a scalar [v]. *)
Definition mask_fill {A} (mask : list bool) (y : list A) (v : A) : list A :=
  zip_with (fun (g : bool) x => if g then v else x) mask y.

(** [np.zeros(n) + v] *)
Definition zeros_plus (n : nat) (v : float) : vec := replicate n (fadd f0 v).

(** Index arrays of unequal length are broadcast when one has length 1. *)
Definition broadcast2 {A B} (xs : list A) (ys : list B) : result (list (A * B)) :=
  if decide (length xs = length ys) then Ok (zip xs ys)
  else match xs, ys with
       | [x], _ => Ok (map (fun y => (x, y)) ys)
       | _, [y] => Ok (map (fun x => (x, y)) xs)
       | _, _ => Raise IndexError
       end.

(** [np.max] and [np.argmax] over a flattened array: a NaN wins, and the
    first occurrence of the winner is reported. *)
Definition np_better (x best : float) : bool :=
  negb (fisnan best) && (fisnan x || fgt x best).

Fixpoint argmax_from (l : vec) (i : nat) (bi : nat) (bv : float) : nat * float :=
  match l with
  | [] => (bi, bv)
  | x :: l' =>
      if np_better x bv then argmax_from l' (S i) i x
      else argmax_from l' (S i) bi bv
  end.

Definition np_argmax (s : surface) : result nat :=
  match concat s with
  | [] => Raise ValueError
  | x :: l => Ok (fst (argmax_from l 1 0 x))
  end.

Definition np_max (s : surface) : result float :=
  match concat s with
  | [] => Raise ValueError
  | x :: l => Ok (snd (argmax_from l 1 0 x))
  end.

(** [np.unravel_index(k, result.shape)] *)
Definition np_unravel_index {A} (k : nat) (s : list (list A)) : nat * nat :=
  let cols := Z.to_nat (shape1 s) in
  (k `div` cols, k `mod` cols).

(** [template.astype(np.uint8)] *)
Definition astype_uint8 (m : image) : image := map (map (fun v => (v mod 256)%Z)) m.

(** A 2-D grid of floats with its shape, as [dest_lon] and the outputs are. *)
Record grid : Type := Grid { gshape : nat * nat; gdata : vec }.

Definition grid_size (sh : nat * nat) : nat := fst sh * snd sh.
Definition wf_grid (g : grid) : Prop := length (gdata g) = grid_size (gshape g).

(** [np.zeros(shape) + np.nan] *)
Definition nan_grid (sh : nat * nat) : grid := Grid sh (zeros_plus (grid_size sh) np_nan).

(** ** Collaborators

    A Nansat object is used through its first band, its shape and its
    two point transforms; [get_corners] yields the four corner
    coordinates. *)

Record Nansat : Type := {
  band1 : image;                                (* n[1] *)
  nshape : nat * nat;                           (* n.shape() = (rows, columns) *)
  pix2geo : float -> float -> float * float;    (* transform_points(x, y) *)
  geo2pix : float -> float -> float * float;    (* transform_points(lon, lat, 1) *)
  get_corners : (float * float * float * float) * (float * float * float * float)
}.

(** [n.transform_points] applied to two coordinate arrays. *)
Definition transform_points (f : float -> float -> float * float)
    (xs ys : vec) : vec * vec :=
  let pts := zip_with f xs ys in (map fst pts, map snd pts).

(** The keyword arguments that [pattern_matching] hands down.  The two
    border bounds are held as the float64 values numpy compares and
    stores; the template matcher is a function argument in the source
    as well. *)
Record options : Type := {
  min_fg_pts : Z;
  min_border : float;
  max_border : float;
  old_border : bool;
  angles : list float;
  mtype : Z;
  template_matcher : image -> image -> Z -> result surface;
  mcc_norm : bool;
  rot_order : Z;
  hes_norm : bool;
  hes_smth : bool;
  nsr_geo2pix : float -> float -> float * float  (* Domain(nsr, ...).transform_points(lon, lat, 1) *)
}.

(** numpy and scipy routines whose values are not determined here.
    Interpolators are given the correspondences and return the fitted
    map, which is then evaluated at each query point; they may raise.
    pmlib imports them from lib as [x2y2_interpolation_poly] and
    [x2y2_interpolation_near]; lib.py defines them as
    [interpolation_poly] (least squares) and [interpolation_near]
    (scipy's griddata). *)
Class Numerics : Type := {
  np_radians : float -> float;
  np_cos : float -> float;
  np_sin : float -> float;
  np_degrees : float -> float;
  np_arctan2 : float -> float -> float;
  np_hypot : float -> float -> float;
  np_median : surface -> float;
  np_std : surface -> float;
  np_gradient : surface -> result (surface * surface);
  nd_gaussian_filter : surface -> surface;
  nd_rotate : image -> float -> Z -> image;
  x2y2_interpolation_poly :
    vec -> vec -> vec -> vec -> result (float -> float -> float * float);
  x2y2_interpolation_near :
    vec -> vec -> vec -> vec -> result (float -> float -> float * float)
}.

(** ** Observable calls *)

Inductive event : Type :=
| EvMatchTemplate (angle : float)   (* template_matcher(image, template, mtype) *)
| EvPrint (i : nat)                 (* progress line of use_mcc_mp *)
| EvDriftVectors (npoints : nat).   (* get_drift_vectors(...) *)

(** A computation that logs events and may raise. *)
Definition M (A : Type) : Type := list event * result A.

#[global] Instance M_ret : MRet M := fun A a => ([], Ok a).
#[global] Instance M_bind : MBind M := fun A B f m =>
  match m with
  | (l, Ok a) => let '(l', r) := f a in (l ++ l', r)
  | (l, Raise e) => (l, Raise e)
  end.

Definition emit (e : event) : M unit := ([e], Ok ()).
Definition lift {A} (r : result A) : M A := ([], r).

(** A Python value held in a returned tuple. *)
Inductive pyval : Type :=
| PyFloat (x : float)
| PyImage (t : image)
| PySurface (s : surface).

Definition as_float (v : pyval) : result float :=
  match v with
  | PyFloat x => Ok x
  | _ => Raise TypeError
  end.

(** The locals that the angle loop of [rotate_and_match] may leave
    unbound: the four [best_*] names are bound together. *)
Record best_match : Type := {
  best_a : float;
  best_result : surface;
  best_template : image;
  best_ij : nat * nat
}.

(** The five scalars of one matched point. *)
Record match_result : Type := {
  res_x2 : float; res_y2 : float; res_a : float; res_r : float; res_h : float
}.

(** The module-level globals set by [_init_pool]. *)
Record shared_args : Type := {
  sh_x1 : vec; sh_y1 : vec; sh_x2fg : vec; sh_y2fg : vec; sh_border : vec;
  sh_img1 : image; sh_img2 : image; sh_img_size : Z; sh_alpha0 : float;
  sh_kwargs : options
}.

Record outputs : Type := {
  out_u : grid; out_v : grid; out_a : grid; out_r : grid; out_h : grid;
  out_lon2 : grid; out_lat2 : grid
}.

Definition grids_of (o : outputs) : list grid :=
  [out_u o; out_v o; out_a o; out_r o; out_h o; out_lon2 o; out_lat2 o].

(** ** The two ways of running the tasks *)

(** [[use_mcc_mp(i) for i in range(n)]]: ascending, stops at the first
    exception. *)
Fixpoint run_in_order {A} (task : nat -> M A) (todo : list nat) : M (list A) :=
  match todo with
  | [] => mret []
  | i :: rest => a ← task i; k ← run_in_order task rest; mret (a :: k)
  end.

(** [Pool(threads).map(use_mcc_mp, range(n))]: the tasks complete in an
    order chosen by the scheduler, [sched]; each outcome is filed under
    the index of its task; when all tasks are done the outcomes are
    read out by ascending index, unless some task failed, in which case
    the exception that arrived first is raised in the caller. *)
Record pool_state (A : Type) : Type := {
  slots : gmap nat A;
  failure : option exn;
  plog : list event
}.
Arguments slots {A} _.
Arguments failure {A} _.
Arguments plog {A} _.

Definition pool_step {A} (task : nat -> M A) (st : pool_state A) (i : nat)
    : pool_state A :=
  let out := task i in
  match out.2 with
  | Ok a => {| slots := <[i := a]> (slots st); failure := failure st;
               plog := plog st ++ out.1 |}
  | Raise e => {| slots := slots st;
                  failure := match failure st with Some e0 => Some e0 | None => Some e end;
                  plog := plog st ++ out.1 |}
  end.

Fixpoint gather {A} (store : gmap nat A) (todo : list nat) : result (list A) :=
  match todo with
  | [] => Ok []
  | i :: rest =>
      match store !! i with
      | Some a => k ← gather store rest; Ok (a :: k)
      | None => Raise ExternalError
      end
  end.

Definition pool_map {A} (task : nat -> M A) (n : nat) (sched : list nat) : M (list A) :=
  let st := foldl (pool_step task) {| slots := ∅; failure := None; plog := [] |} sched in
  match failure st with
  | Some e => (plog st, Raise e)
  | None => (plog st, gather (slots st) (seq 0 n))
  end.

Section Model.
Context {numerics : Numerics}.

(** ** pmlib.get_hessian *)

Definition get_hessian (ccm : surface) (kw : options) : result surface :=
  let ccm2 := if hes_smth kw then nd_gaussian_filter ccm else ccm in
  (* Jacobian components *)
  '(dcc_dy, dcc_dx) ← np_gradient ccm2;
  (* Hessian components *)
  gx ← np_gradient dcc_dx;
  gy ← np_gradient dcc_dy;
  let d2cc_dx2 := gx.2 in
  let d2cc_dy2 := gy.1 in
  let hes := zip_with (zip_with np_hypot) d2cc_dx2 d2cc_dy2 in
  if hes_norm kw then
    let med := np_median hes in
    let sd := np_std hes in
    Ok (map (map (fun h => fdiv (fsub h med) sd)) hes)
  else Ok hes.

(** ** pmlib.get_rotated_template (the ndarray branch) *)

Definition get_rotated_template (img : image) (r c : float) (size : Z)
    (angle : float) (kw : options) : result image :=
  let hws := fdiv (of_Z size) f2 in
  let angle_rad := np_radians angle in
  let spread h :=
    np_ceil (fadd (fmul h (fabs (np_cos angle_rad)))
                  (fmul h (fabs (np_sin angle_rad)))) in
  let hwsrot := spread hws in
  let hwsrot2 := spread hwsrot in
  rotBorder1 ← py_int (fsub hwsrot2 hws);
  rotBorder2 ← py_int (fadd (fadd (of_Z rotBorder1) hws) hws);
  (* read large subimage *)
  r0 ← py_int (fsub r hwsrot);
  r1 ← py_int (fadd (fadd r hwsrot) f1);
  c0 ← py_int (fsub c hwsrot);
  c1 ← py_int (fadd (fadd c hwsrot) f1);
  let template := slice2 r0 r1 c0 c1 img in
  let templateRot := nd_rotate template angle (rot_order kw) in
  Ok (slice2 rotBorder1 rotBorder2 rotBorder1 rotBorder2 templateRot).

(** ** pmlib.get_distance_to_nearest_keypoint

    [distance_transform_edt(~seed)] is the distance from each pixel to
    the nearest seeded pixel, computed by scipy as the float64 square
    root of the integer squared distance to the nearest feature.  With
    no seed at all scipy reports the feature index (-1, 0). *)

Definition sq_dist (r c : Z) (p : Z * Z) : Z :=
  ((r - p.1) * (r - p.1) + (c - p.2) * (c - p.2))%Z.

Definition nearest_sq (seeds : list (Z * Z)) (r c : Z) : Z :=
  match seeds with
  | [] => sq_dist r c (-1, 0)%Z
  | p :: ps => foldr (fun q acc => Z.min (sq_dist r c q) acc) (sq_dist r c p) ps
  end.

Definition distance_transform_edt (shape : nat * nat) (seeds : list (Z * Z)) : surface :=
  map (fun r => map (fun c => fsqrt (of_Z (nearest_sq seeds (Z.of_nat r) (Z.of_nat c))))
                    (seq 0 shape.2))
      (seq 0 shape.1).

(** [seed[np.uint16(y1), np.uint16(x1)] = True] on a [shape] array. *)
Definition seed_index (shape : nat * nat) (p : Z * Z) : result (Z * Z) :=
  if (p.1 <? Z.of_nat shape.1)%Z && (p.2 <? Z.of_nat shape.2)%Z
  then Ok p else Raise IndexError.

Fixpoint collect {A} (l : list (result A)) : result (list A) :=
  match l with
  | [] => Ok []
  | x :: l' => a ← x; k ← collect l'; Ok (a :: k)
  end.

Definition get_distance_to_nearest_keypoint (x1 y1 : vec) (shape : nat * nat)
    : result surface :=
  idx ← broadcast2 (map np_uint16 y1) (map np_uint16 x1);
  seeds ← collect (map (seed_index shape) idx);
  Ok (distance_transform_edt shape seeds).

(** ** pmlib.get_initial_rotation *)

Definition get_initial_rotation (n1 n2 : Nansat) : float :=
  let '(lons, lats) := get_corners n2 in
  let '(lon0, lon1, _, _) := lons in
  let '(lat0, lat1, _, _) := lats in
  let '(corner0_n2_x1, corner0_n2_y1) := geo2pix n1 lon0 lat0 in
  let '(corner1_n2_x1, corner1_n2_y1) := geo2pix n1 lon1 lat1 in
  let b := fsub corner1_n2_x1 corner0_n2_x1 in
  let a := fsub corner1_n2_y1 corner0_n2_y1 in
  np_degrees (np_arctan2 b a).

(** ** pmlib.rotate_and_match *)

(** The locals after the loop has run over some of the angles. *)
Record loop_state : Type := {
  ls_best_r : float;
  ls_best : option best_match;
  ls_template : option image
}.

(** What the [for] loop does: [inl] is the early [return] of six NaN,
    [inr] the locals at normal exit. *)
Definition nan_tuple : list pyval :=
  [PyFloat np_nan; PyFloat np_nan; PyFloat np_nan;
   PyFloat np_nan; PyFloat np_nan; PyFloat np_nan].

(** The body of [if result.max() > best_r:] together with the rebinding
    of [template] by the loop. *)
Definition update_best (st : loop_state) (angle : float) (template : image)
    (result : surface) (ij : nat * nat) (mx : float) : loop_state :=
  if fgt mx (ls_best_r st) then
    {| ls_best_r := mx;
       ls_best := Some {| best_a := angle; best_result := result;
                          best_template := template; best_ij := ij |};
       ls_template := Some template |}
  else
    {| ls_best_r := ls_best_r st; ls_best := ls_best st;
       ls_template := Some template |}.

Fixpoint angle_loop (img1 : image) (x y : float) (img_size : Z) (image2 : image)
    (alpha0 : float) (kw : options) (todo : list float) (st : loop_state)
    : M (list pyval + loop_state) :=
  match todo with
  | [] => mret (inr st)
  | angle :: rest =>
      template ← lift (get_rotated_template img1 y x img_size (fsub angle alpha0) kw);
      if (shape0 template <? img_size)%Z || (shape1 template <? img_size)%Z
      then mret (inl nan_tuple)
      else
        _ ← emit (EvMatchTemplate angle);
        result ← lift (template_matcher kw image2 (astype_uint8 template) (mtype kw));
        k ← lift (np_argmax result);
        let ij := np_unravel_index k result in
        mx ← lift (np_max result);
        angle_loop img1 x y img_size image2 alpha0 kw rest
          (update_best st angle template result ij mx)
  end.

Definition unbound {A} (v : option A) : result A :=
  match v with
  | Some a => Ok a
  | None => Raise UnboundLocalError
  end.

Definition rotate_and_match (img1 : image) (x y : float) (img_size : Z)
    (image2 : image) (alpha0 : float) (kw : options) : M (list pyval) :=
  out ← angle_loop img1 x y img_size image2 alpha0 kw (angles kw)
         {| ls_best_r := neg_inf; ls_best := None; ls_template := None |};
  match out with
  | inl early => mret early
  | inr st =>
      lift (
        b ← unbound (ls_best st);
        hes ← get_hessian (best_result b) kw;
        best_h ← py_index2 hes (Z.of_nat (best_ij b).1) (Z.of_nat (best_ij b).2);
        template ← unbound (ls_template st);
        let dy := fsub (of_Z (Z.of_nat (best_ij b).1))
                       (fdiv (of_Z (shape0 image2 - shape0 template)) f2) in
        let dx := fsub (of_Z (Z.of_nat (best_ij b).2))
                       (fdiv (of_Z (shape1 image2 - shape1 template)) f2) in
        let best_r :=
          if mcc_norm kw then
            fdiv (fsub (ls_best_r st) (np_median (best_result b))) (np_std (best_result b))
          else ls_best_r st in
        Ok [PyFloat dx; PyFloat dy; PyFloat (best_a b); PyFloat best_r;
            PyFloat best_h; PySurface (best_result b); PyImage (best_template b)])
  end.

(** ** pmlib.use_mcc *)

Definition use_mcc (x1p y1p x2p y2p border : float) (img1 img2 : image)
    (img_size : Z) (alpha0 : float) (kw : options) : M match_result :=
  x2p ← lift (py_round x2p);
  y2p ← lift (py_round y2p);
  hws ← lift (py_int (fdiv (of_Z img_size) f2));
  r0 ← lift (py_int (fsub (of_Z (y2p - hws)) border));
  r1 ← lift (py_int (fadd (fadd (of_Z (y2p + hws)) border) f1));
  c0 ← lift (py_int (fsub (of_Z (x2p - hws)) border));
  c1 ← lift (py_int (fadd (fadd (of_Z (x2p + hws)) border) f1));
  let image2 := slice2 r0 r1 c0 c1 img2 in
  t ← rotate_and_match img1 x1p y1p img_size image2 alpha0 kw;
  match t with
  | [dx; dy; a; r; h; bestr; bestt] =>
      lift (
        dx ← as_float dx;
        dy ← as_float dy;
        a ← as_float a;
        r ← as_float r;
        h ← as_float h;
        Ok {| res_x2 := fadd (of_Z x2p) dx; res_y2 := fadd (of_Z y2p) dy;
              res_a := a; res_r := r; res_h := h |})
  | _ => lift (Raise ValueError)   (* wrong number of values to unpack *)
  end.

(** ** pmlib.use_mcc_mp *)

(** The five per-point arguments read from the globals by index. *)
Definition task_args (globals : option shared_args) (i : nat)
    : result (float * float * float * float * float) :=
  match globals with
  | None => Raise TypeError
  | Some sh =>
      x1p ← py_index (sh_x1 sh) (Z.of_nat i);
      y1p ← py_index (sh_y1 sh) (Z.of_nat i);
      x2p ← py_index (sh_x2fg sh) (Z.of_nat i);
      y2p ← py_index (sh_y2fg sh) (Z.of_nat i);
      border ← py_index (sh_border sh) (Z.of_nat i);
      Ok (x1p, y1p, x2p, y2p, border)
  end.

Definition use_mcc_mp (globals : option shared_args) (i : nat) : M match_result :=
  '(x1p, y1p, x2p, y2p, border) ← lift (task_args globals i);
  match globals with
  | None => lift (Raise TypeError)
  | Some sh =>
      res ← use_mcc x1p y1p x2p y2p border (sh_img1 sh) (sh_img2 sh)
              (sh_img_size sh) (sh_alpha0 sh) (sh_kwargs sh);
      _ ← (if decide (i `mod` 100 = 0) then emit (EvPrint i) else mret ());
      mret res
  end.

(** ** pmlib.prepare_first_guess *)

(** Element-wise helpers in numpy's notation. *)
Definition vsub (a b : vec) : vec := zip_with fsub a b.
Definition vadd (a b : vec) : vec := zip_with fadd a b.
Definition vsub_s (a : vec) (s : float) : vec := map (fun x => fsub x s) a.
Definition vadd_s (a : vec) (s : float) : vec := map (fun x => fadd x s) a.
Definition vgt_s (a : vec) (s : float) : list bool := map (fun x => fgt x s) a.
Definition vlt_s (a : vec) (s : float) : list bool := map (fun x => flt x s) a.
Definition vge_s (a : vec) (s : float) : list bool := map (fun x => fge x s) a.
Definition vand (a b : list bool) : list bool := zip_with andb a b.
Definition visnan (a : vec) : list bool := map fisnan a.

(** [a[m] = b[m]] for arrays of one length. *)
Definition mask_copy (m : list bool) (a b : vec) : vec :=
  zip_with (fun (g : bool) (xy : float * float) => if g then xy.2 else xy.1) m (zip a b).

(** Lines 299-304: the distance border before clamping.  [to_pixel] is
    the conversion of a coordinate to a pixel index, [astype(np.int16)]
    in the source. *)
Definition border_distance_with (to_pixel : float -> Z)
    (x1_dst y1_dst x1 y1 : vec) (shape1 : nat * nat) (kw : options) : result vec :=
  (* find distance to nearest neigbour and create border matrix *)
  border_img ← get_distance_to_nearest_keypoint x1 y1 shape1;
  let border := zeros_plus (length x1_dst) (max_border kw) in
  let gpi := vand (vand (vand (vge_s x1_dst f0) (vlt_s x1_dst (of_Z (Z.of_nat shape1.2))))
                        (vge_s y1_dst f0))
                  (vlt_s y1_dst (of_Z (Z.of_nat shape1.1))) in
  rows ← mask_select gpi (map to_pixel y1_dst);
  cols ← mask_select gpi (map to_pixel x1_dst);
  vals ← collect (zip_with (py_index2 border_img) rows cols);
  mask_assign gpi border vals.

Definition border_distance : vec -> vec -> vec -> vec -> nat * nat -> options -> result vec :=
  border_distance_with np_int16.

(** Lines 306-312: the error border before clamping. *)
Definition border_error (x1_dst y1_dst x1 y1 x2 y2 : vec) : result vec :=
  tst ← x2y2_interpolation_poly x1 y1 x2 y2;
  let '(x2tst, y2tst) := transform_points tst x1 y1 in
  dif ← x2y2_interpolation_near x1 y1 (vsub x2 x2tst) (vsub y2 y2tst);
  let '(x2dif, y2dif) := transform_points dif x1_dst y1_dst in
  Ok (zip_with np_hypot x2dif y2dif).

(** Lines 315-317: define searching distance. *)
Definition clamp_border (border y2fg : vec) (kw : options) : vec :=
  let border := mask_fill (vlt_s border (min_border kw)) border (min_border kw) in
  let border := mask_fill (vgt_s border (max_border kw)) border (max_border kw) in
  mask_fill (visnan y2fg) border (max_border kw).

Definition prepare_first_guess (x1_dst y1_dst : vec) (n1 : Nansat) (x1 y1 : vec)
    (n2 : Nansat) (x2 y2 : vec) (img_size : Z) (kw : options)
    : result (vec * vec * vec) :=
  let shape1 := nshape n1 in
  if (Z.of_nat (length x1) >? min_fg_pts kw)%Z then
    (* interpolate 1st guess using 2nd order polynomial *)
    poly ← x2y2_interpolation_poly x1 y1 x2 y2;
    let '(x2p2, y2p2) := transform_points poly x1_dst y1_dst in
    (* interpolate 1st guess using griddata *)
    near ← x2y2_interpolation_near x1 y1 x2 y2;
    let '(x2fg, y2fg) := transform_points near x1_dst y1_dst in
    border ← (if old_border kw
              then border_distance x1_dst y1_dst x1 y1 shape1 kw
              else border_error x1_dst y1_dst x1 y1 x2 y2);
    (* define searching distance *)
    let border := clamp_border border y2fg kw in
    (* define FG based on P2 and GD *)
    let x2fg := mask_copy (visnan x2fg) x2fg x2p2 in
    let y2fg := mask_copy (visnan y2fg) y2fg y2p2 in
    Ok (x2fg, y2fg, border)
  else
    let '(lon_dst, lat_dst) := transform_points (pix2geo n1) x1_dst y1_dst in
    let '(x2fg, y2fg) := transform_points (geo2pix n2) lon_dst lat_dst in
    let border := zeros_plus (length x1_dst) (fmul (max_border kw) f2) in
    Ok (x2fg, y2fg, border).

(** ** lib.get_drift_vectors and lib._fill_gpi *)

Definition get_drift_vectors (n1 : Nansat) (x1 y1 : vec) (n2 : Nansat) (x2 y2 : vec)
    (kw : options) : vec * vec * vec * vec * vec * vec :=
  (* convert x,y to lon, lat *)
  let '(lon1, lat1) := transform_points (pix2geo n1) x1 y1 in
  let '(lon2, lat2) := transform_points (pix2geo n2) x2 y2 in
  (* find displacement in needed units *)
  let '(x1', y1') := transform_points (nsr_geo2pix kw) lon1 lat1 in
  let '(x2', y2') := transform_points (nsr_geo2pix kw) lon2 lat2 in
  (vsub x2' x1', vsub y1' y2', lon1, lat1, lon2, lat2).

Definition _fill_gpi (shape : nat * nat) (gpi : list bool) (data : vec) : result grid :=
  let y := zeros_plus (grid_size shape) np_nan in
  y ← mask_assign gpi y data;
  Ok (Grid shape y).

(** ** pmlib.pattern_matching *)

(** Lines 388-397: find good input points ([/] is Python 3's). *)
Definition good_points (x1_dst y1_dst x2fg y2fg border : vec) (n1 n2 : Nansat)
    (margin img_size : Z) : list bool :=
  let hws := fdiv (of_Z img_size) f2 in
  let hws_hypot := np_hypot hws hws in
  let m := of_Z margin in
  let lo (c : vec) (pad : vec) := vgt_s (vsub_s (vsub_s (vsub c pad) hws) m) f0 in
  let hi (c : vec) (pad : vec) (n : nat) :=
    vlt_s (vadd_s (vadd_s (vadd c pad) hws) m) (of_Z (Z.of_nat n)) in
  let lo1 (c : vec) := vgt_s (vsub_s (vsub_s c hws_hypot) m) f0 in
  let hi1 (c : vec) (n : nat) :=
    vlt_s (vadd_s (vadd_s c hws_hypot) m) (of_Z (Z.of_nat n)) in
  vand (vand (vand (vand (vand (vand (vand
    (lo x2fg border)
    (lo y2fg border))
    (hi x2fg border (nshape n2).2))
    (hi y2fg border (nshape n2).1))
    (lo1 x1_dst))
    (lo1 y1_dst))
    (hi1 x1_dst (nshape n1).2))
    (hi1 y1_dst (nshape n1).1).

(** Everything up to and including the mask. *)
Definition first_guess_and_mask (lon1_dst lat1_dst : grid) (n1 : Nansat) (x1 y1 : vec)
    (n2 : Nansat) (x2 y2 : vec) (margin img_size : Z) (kw : options)
    : result (vec * vec * vec * vec * vec * list bool) :=
  (* convert lon/lat to pixe/line of the first image *)
  let '(x1_dst, y1_dst) := transform_points (geo2pix n1) (gdata lon1_dst) (gdata lat1_dst) in
  '(x2fg, y2fg, border) ← prepare_first_guess x1_dst y1_dst n1 x1 y1 n2 x2 y2 img_size kw;
  let gpi := good_points x1_dst y1_dst x2fg y2fg border n1 n2 margin img_size in
  Ok (x1_dst, y1_dst, x2fg, y2fg, border, gpi).

Definition column {A} (f : match_result -> A) (results : list match_result) : list A :=
  map f results.

(** [_init_pool]: the masked arrays and the shared inputs become the
    globals. *)
Definition _init_pool (gpi : list bool) (x1_dst y1_dst x2fg y2fg border : vec)
    (img1 img2 : image) (img_size : Z) (alpha0 : float) (kw : options)
    : result (option shared_args) :=
  x1g ← mask_select gpi x1_dst;
  y1g ← mask_select gpi y1_dst;
  x2g ← mask_select gpi x2fg;
  y2g ← mask_select gpi y2fg;
  bg ← mask_select gpi border;
  Ok (Some {| sh_x1 := x1g; sh_y1 := y1g; sh_x2fg := x2g; sh_y2fg := y2g;
              sh_border := bg; sh_img1 := img1; sh_img2 := img2;
              sh_img_size := img_size; sh_alpha0 := alpha0; sh_kwargs := kw |}).

Definition pattern_matching (lon1_dst lat1_dst : grid) (n1 : Nansat) (x1 y1 : vec)
    (n2 : Nansat) (x2 y2 : vec) (margin img_size threads : Z) (kw : options)
    (scheduler : nat -> list nat) : M outputs :=
  let img1 := band1 n1 in
  let img2 := band1 n2 in
  let dst_shape := gshape lon1_dst in
  '(x1_dst, y1_dst, x2fg, y2fg, border, gpi) ←
    lift (first_guess_and_mask lon1_dst lat1_dst n1 x1 y1 n2 x2 y2 margin img_size kw);
  let alpha0 := get_initial_rotation n1 n2 in
  globals ← lift (_init_pool gpi x1_dst y1_dst x2fg y2fg border
                    img1 img2 img_size alpha0 kw);
  let ntasks := count_true gpi in
  results ← (if (threads =? 0)%Z then
               (* run MCC without threads *)
               run_in_order (use_mcc_mp globals) (seq 0 ntasks)
             else if (threads <? 0)%Z then
               (* Pool refuses a negative number of processes *)
               lift (Raise ValueError)
             else
               (* run MCC in multiple threads *)
               pool_map (use_mcc_mp globals) ntasks (scheduler ntasks));
  match results with
  | [] =>
      let g := nan_grid dst_shape in
      mret {| out_u := g; out_v := g; out_a := g; out_r := g; out_h := g;
              out_lon2 := g; out_lat2 := g |}
  | _ =>
      let x2_dst := column res_x2 results in
      let y2_dst := column res_y2 results in
      let a := column res_a results in
      let r := column res_r results in
      let h := column res_h results in
      x1g ← lift (mask_select gpi x1_dst);
      y1g ← lift (mask_select gpi y1_dst);
      _ ← emit (EvDriftVectors (length x1g));
      let '(u, v, lon1, lat1, lon2, lat2) :=
        get_drift_vectors n1 x1g y1g n2 x2_dst y2_dst kw in
      lift (
        lon2_dst ← _fill_gpi dst_shape gpi lon2;
        lat2_dst ← _fill_gpi dst_shape gpi lat2;
        u ← _fill_gpi dst_shape gpi u;
        v ← _fill_gpi dst_shape gpi v;
        a ← _fill_gpi dst_shape gpi a;
        r ← _fill_gpi dst_shape gpi r;
        h ← _fill_gpi dst_shape gpi h;
        Ok {| out_u := u; out_v := v; out_a := a; out_r := r; out_h := h;
              out_lon2 := lon2_dst; out_lat2 := lat2_dst |})
  end.

End Model.

(** ** Per-point readings of the vectorised code *)

(** The indices at which a mask is true, ascending. *)
Definition valid_indices (gpi : list bool) : list nat :=
  filter (fun i => gpi !! i = Some true) (seq 0 (length gpi)).

(** The test of line 155: the rotated crop is smaller than the edge. *)
Definition too_small (img_size : Z) (t : image) : bool :=
  (shape0 t <? img_size)%Z || (shape1 t <? img_size)%Z.

(** The eight comparisons of lines 390-397 at one query point. *)
Definition point_ok `{Numerics} (x1d y1d x2 y2 b : float) (n1 n2 : Nansat)
    (margin img_size : Z) : bool :=
  let hws := fdiv (of_Z img_size) f2 in
  let hws_hypot := np_hypot hws hws in
  let m := of_Z margin in
  fgt (fsub (fsub (fsub x2 b) hws) m) f0 &&
  fgt (fsub (fsub (fsub y2 b) hws) m) f0 &&
  flt (fadd (fadd (fadd x2 b) hws) m) (of_Z (Z.of_nat (nshape n2).2)) &&
  flt (fadd (fadd (fadd y2 b) hws) m) (of_Z (Z.of_nat (nshape n2).1)) &&
  fgt (fsub (fsub x1d hws_hypot) m) f0 &&
  fgt (fsub (fsub y1d hws_hypot) m) f0 &&
  flt (fadd (fadd x1d hws_hypot) m) (of_Z (Z.of_nat (nshape n1).2)) &&
  flt (fadd (fadd y1d hws_hypot) m) (of_Z (Z.of_nat (nshape n1).1)).

(** What one candidate angle scores when taken alone: the maximum of its
    correlation surface. *)
Definition angle_score `{Numerics} (img1 : image) (x y : float) (img_size : Z)
    (image2 : image) (alpha0 : float) (kw : options) (angle : float) : result float :=
  template ← get_rotated_template img1 y x img_size (fsub angle alpha0) kw;
  result ← template_matcher kw image2 (astype_uint8 template) (mtype kw);
  _ ← np_argmax result;
  np_max result.

(** An iteration of the angle loop that does not raise: the crop can be
    taken and, if it is large enough, the matcher returns a non-empty
    surface. *)
Definition angle_runs `{Numerics} (img1 : image) (x y : float) (img_size : Z)
    (image2 : image) (alpha0 : float) (kw : options) (angle : float) : Prop :=
  exists t, get_rotated_template img1 y x img_size (fsub angle alpha0) kw = Ok t /\
    (too_small img_size t = true \/
     exists res, template_matcher kw image2 (astype_uint8 t) (mtype kw) = Ok res /\
                 concat res <> []).

(** What holds of the locals of the angle loop after the angles [done]:
    nothing scored above the best so far, and nothing before the best
    angle scored as much. *)
Definition loop_invariant `{Numerics} (img1 : image) (x y : float) (img_size : Z)
    (image2 : image) (alpha0 : float) (kw : options)
    (done : list float) (st : loop_state) : Prop :=
  let score := angle_score img1 x y img_size image2 alpha0 kw in
  (forall j a' s', done !! j = Some a' -> score a' = Ok s' ->
     fgt s' (ls_best_r st) = false) /\
  match ls_best st with
  | None => True
  | Some b =>
      exists k, done !! k = Some (best_a b) /\ score (best_a b) = Ok (ls_best_r st) /\
        forall j a' s', j < k -> done !! j = Some a' -> score a' = Ok s' ->
          fge s' (ls_best_r st) = false
  end.

(** The outputs of lines 424-430: seven grids of NaN. *)
Definition nan_outputs (shape : nat * nat) : outputs :=
  let g := nan_grid shape in
  {| out_u := g; out_v := g; out_a := g; out_r := g; out_h := g;
     out_lon2 := g; out_lat2 := g |}.

(** The rank of cell [i] among the valid cells: the index of its task. *)
Definition task_of_cell (gpi : list bool) (i : nat) : nat := count_true (take i gpi).

(** The bounds check of lines 301-302 at one query point. *)
Definition in_image (x y : float) (shape1 : nat * nat) : bool :=
  fge x f0 && flt x (of_Z (Z.of_nat shape1.2)) &&
  fge y f0 && flt y (of_Z (Z.of_nat shape1.1)).

(** The value of the distance transform at pixel [(r, c)]. *)
Definition edt_value (seeds : list (Z * Z)) (r c : Z) : float :=
  fsqrt (of_Z (nearest_sq seeds r c)).

(** Clamping of one border value, lines 315-317. *)
Definition clamp1 (kw : options) (b y2 : float) : float :=
  let b1 := if flt b (min_border kw) then min_border kw else b in
  let b2 := if fgt b1 (max_border kw) then max_border kw else b1 in
  if fisnan y2 then max_border kw else b2.

(** The distance border as the specification words it: sampled at the
    rounded pixel location. *)
Definition round_to_pixel (x : float) : Z :=
  match py_round x with Ok z => z | Raise _ => 0%Z end.

Definition border_distance_as_specified
    : vec -> vec -> vec -> vec -> nat * nat -> options -> result vec :=
  border_distance_with round_to_pixel.

(** IEEE equality. *)
Definition feq (x y : float) : bool := SFeqb x y.

(** A float64 as numpy holds it: canonical mantissa and exponent. *)
Definition is_float64 (x : float) : Prop := valid_binary prec emax x = true.

(** Greatest image edge for which [astype(np.int16)] keeps every
    in-bounds pixel index. *)
Definition int16_max : Z := 32767.

(** ** Devices of the proofs *)

(** Sign, exponent and mantissa as one lexicographic key. *)
Definition rank (x : float) : Z * Z * Z :=
  match x with
  | S754_nan => (0, 0, 0)
  | S754_infinity true => (-2, 0, 0)
  | S754_infinity false => (2, 0, 0)
  | S754_zero _ => (0, 0, 0)
  | S754_finite true m e => (-1, - e, - Zpos m)
  | S754_finite false m e => (1, e, Zpos m)
  end%Z.

Definition lex_lt (a b : Z * Z * Z) : Prop :=
  (a.1.1 < b.1.1 \/ (a.1.1 = b.1.1 /\ (a.1.2 < b.1.2 \/ (a.1.2 = b.1.2 /\ a.2 < b.2))))%Z.

(** Not NaN, and of the given sign. *)
Definition signed_as (sx : bool) (x : float) : Prop :=
  match x with
  | S754_nan => False
  | S754_zero s | S754_infinity s | S754_finite s _ _ => s = sx
  end.

(** ** Concrete data for the examples

    A numerics instance for small rotation angles: degrees to radians by
    a float64 multiplication, cosine and sine by their Taylor
    polynomials (exact at 0, good to six digits for a few degrees),
    hypot as the rounded square root of the sum of squares, and
    numpy's gradient.  The rotation itself is a stand-in that returns
    the crop unchanged, the interpolators return the identity
    displacement field, and the two statistics of the optional
    normalisations are fixed to median 0 and deviation 1. *)

Definition radians_per_degree : float :=
  Eval vm_compute in fdiv (of_Z 3141592653589793) (of_Z 180000000000000000).

Definition taylor_cos (x : float) : float :=
  let x2 := fmul x x in
  fadd (fsub f1 (fdiv x2 f2)) (fdiv (fmul x2 x2) (of_Z 24)).

Definition taylor_sin (x : float) : float :=
  fsub x (fdiv (fmul (fmul x x) x) (of_Z 6)).

Definition grad1 (l : vec) : result vec :=
  match l with
  | a :: b :: _ =>
      let n := length l in
      Ok (map (fun i =>
                 let el j := nth j l np_nan in
                 if decide (i = 0) then fsub (el 1) (el 0)
                 else if decide (S i = n) then fsub (el i) (el (i - 1))
                 else fdiv (fsub (el (S i)) (el (i - 1))) f2)
              (seq 0 n))
  | _ => Raise ValueError
  end.

Fixpoint transpose {A} (m : list (list A)) : list (list A) :=
  match m with
  | [] => []
  | [r] => map (fun x => [x]) r
  | r :: m' => zip_with cons r (transpose m')
  end.

Definition gradient2 (s : surface) : result (surface * surface) :=
  d0 ← collect (map grad1 (transpose s));
  d1 ← collect (map grad1 s);
  Ok (transpose d0, d1).

#[global] Instance sample_numerics : Numerics := {|
  np_radians := fun a => fmul a radians_per_degree;
  np_cos := taylor_cos;
  np_sin := taylor_sin;
  np_degrees := fun a => fdiv a radians_per_degree;
  np_arctan2 := fun _ _ => f0;
  np_hypot := fun a b => fsqrt (fadd (fmul a a) (fmul b b));
  np_median := fun _ => f0;
  np_std := fun _ => f1;
  np_gradient := gradient2;
  nd_gaussian_filter := fun s => s;
  nd_rotate := fun t _ _ => t;
  x2y2_interpolation_poly := fun _ _ _ _ => Ok (fun x y => (x, y));
  x2y2_interpolation_near := fun _ _ _ _ => Ok (fun x y => (x, y))
|}.

(** A second instance whose local interpolation is by nearest neighbour
    (griddata's method 'nearest'): a query point takes the values of the
    correspondence closest to it, the first of them on a tie, so that a
    NaN among the values reaches the query points around it. *)
Definition sq_distance (x y xk yk : float) : float :=
  fadd (fmul (fsub x xk) (fsub x xk)) (fmul (fsub y yk) (fsub y yk)).

Definition nearest_of (pts : list (float * float * (float * float))) (x y : float)
    : float * float :=
  (foldl (fun (best : float * (float * float)) (p : float * float * (float * float)) =>
            let d := sq_distance x y p.1.1 p.1.2 in
            if flt d best.1 then (d, p.2) else best)
         (S754_infinity false, (np_nan, np_nan)) pts).2.

Definition interpolation_nearest (x1 y1 x2 y2 : vec)
    : result (float -> float -> float * float) :=
  Ok (nearest_of (zip (zip x1 y1) (zip x2 y2))).

Definition nearest_numerics : Numerics := {|
  np_radians := @np_radians sample_numerics;
  np_cos := @np_cos sample_numerics;
  np_sin := @np_sin sample_numerics;
  np_degrees := @np_degrees sample_numerics;
  np_arctan2 := @np_arctan2 sample_numerics;
  np_hypot := @np_hypot sample_numerics;
  np_median := @np_median sample_numerics;
  np_std := @np_std sample_numerics;
  np_gradient := @np_gradient sample_numerics;
  nd_gaussian_filter := @nd_gaussian_filter sample_numerics;
  nd_rotate := @nd_rotate sample_numerics;
  x2y2_interpolation_poly := @x2y2_interpolation_poly sample_numerics;
  x2y2_interpolation_near := interpolation_nearest
|}.

(** A template matcher in the style of TM_SQDIFF, negated so that the
    best match has the greatest score. *)
Definition window_score (im t : image) (i j : nat) : Z :=
  let rows := zip (drop i im) t in
  foldr (fun (p : list Z * list Z) acc =>
           foldr (fun (q : Z * Z) acc' => (acc' - (q.1 - q.2) * (q.1 - q.2))%Z)
                 acc (zip (drop j p.1) p.2))
        0%Z rows.

Definition sqdiff_matcher (im t : image) (mt : Z) : result surface :=
  let h := Z.to_nat (shape0 im - shape0 t + 1) in
  let w := Z.to_nat (shape1 im - shape1 t + 1) in
  if (shape0 im <? shape0 t)%Z || (shape1 im <? shape1 t)%Z then Raise ExternalError
  else Ok (map (fun i => map (fun j => of_Z (window_score im t i j)) (seq 0 w)) (seq 0 h)).

Definition sample_image : image :=
  map (fun r => map (fun c => ((r * r * 7 + c * c * 3 + r * c * 5) mod 251)%Z)
                    (map Z.of_nat (seq 0 16)))
      (map Z.of_nat (seq 0 16)).

Definition sample_nansat : Nansat := {|
  band1 := sample_image;
  nshape := (16, 16);
  pix2geo := fun x y => (x, y);
  geo2pix := fun lon lat => (lon, lat);
  get_corners := ((f0, of_Z 15, of_Z 15, f0), (f0, f0, of_Z 15, of_Z 15))
|}.

Definition sample_options : options := {|
  min_fg_pts := 2; min_border := of_Z 1; max_border := of_Z 2; old_border := true;
  angles := [f0]; mtype := 5; template_matcher := sqdiff_matcher;
  mcc_norm := false; rot_order := 1; hes_norm := false; hes_smth := false;
  nsr_geo2pix := fun lon lat => (lon, lat)
|}.

(** A 2 x 3 query grid: four cells well inside the images, two on the edge. *)
Definition sample_lon : grid := Grid (2, 3) (map of_Z [6; 8; 15; 6; 8; 0]%Z).
Definition sample_lat : grid := Grid (2, 3) (map of_Z [6; 6; 6; 9; 9; 9]%Z).
Definition sample_x1 : vec := map of_Z [2; 12; 7; 3]%Z.
Definition sample_y1 : vec := map of_Z [3; 4; 11; 9]%Z.

(** Positions on image2 of the four correspondences, one with an
    undefined x and one with an undefined y. *)
Definition sample_x2_nan : vec := [of_Z 2; of_Z 12; of_Z 7; np_nan].
Definition sample_y2_nan : vec := [of_Z 3; np_nan; of_Z 11; of_Z 9].

(** The same options with the default threshold of five correspondences,
    and with the error policy for the border. *)
Definition sample_options_few : options := {|
  min_fg_pts := 5; min_border := of_Z 1; max_border := of_Z 2; old_border := true;
  angles := [f0]; mtype := 5; template_matcher := sqdiff_matcher;
  mcc_norm := false; rot_order := 1; hes_norm := false; hes_smth := false;
  nsr_geo2pix := fun lon lat => (lon, lat)
|}.

Definition sample_options_error : options := {|
  min_fg_pts := 2; min_border := of_Z 1; max_border := of_Z 2; old_border := false;
  angles := [f0]; mtype := 5; template_matcher := sqdiff_matcher;
  mcc_norm := false; rot_order := 1; hes_norm := false; hes_smth := false;
  nsr_geo2pix := fun lon lat => (lon, lat)
|}.

(** The two border bounds out of order. *)
Definition sample_options_swapped : options := {|
  min_fg_pts := 2; min_border := of_Z 3; max_border := of_Z 2; old_border := true;
  angles := [f0]; mtype := 5; template_matcher := sqdiff_matcher;
  mcc_norm := false; rot_order := 1; hes_norm := false; hes_smth := false;
  nsr_geo2pix := fun lon lat => (lon, lat)
|}.

(** Three candidate angles, and a matcher that cannot tell them apart. *)
Definition blind_matcher (im t : image) (mt : Z) : result surface :=
  Ok [[f0; f1; f0]; [f0; f0; f0]].

Definition sample_options_angles : options := {|
  min_fg_pts := 2; min_border := of_Z 1; max_border := of_Z 2; old_border := true;
  angles := [of_Z (-3); f0; of_Z 3]; mtype := 5; template_matcher := blind_matcher;
  mcc_norm := false; rot_order := 1; hes_norm := false; hes_smth := false;
  nsr_geo2pix := fun lon lat => (lon, lat)
|}.

(** Two candidate angles on a larger image, with the default template
    size in mind. *)
Definition wide_image : image :=
  map (fun r => map (fun c => ((r * r * 7 + c * c * 3 + r * c * 5) mod 251)%Z)
                    (map Z.of_nat (seq 0 48)))
      (map Z.of_nat (seq 0 48)).

Definition sample_options_two : options := {|
  min_fg_pts := 2; min_border := of_Z 1; max_border := of_Z 2; old_border := true;
  angles := [f0; of_Z 3]; mtype := 5; template_matcher := sqdiff_matcher;
  mcc_norm := false; rot_order := 1; hes_norm := false; hes_smth := false;
  nsr_geo2pix := fun lon lat => (lon, lat)
|}.

(** A query grid with a cell in the last column of image1. *)
Definition edge_lon : grid := Grid (1, 2) (map of_Z [15; 8]%Z).
Definition edge_lat : grid := Grid (1, 2) (map of_Z [8; 8]%Z).

(** A scheduler that completes the tasks in descending order. *)
Definition backwards (n : nat) : list nat := reverse (seq 0 n).

(** ** Further readings of the angle search and of the dispatch *)

(** What the locals of the angle loop hold besides the score, after the
    angles [done]: [template] is the crop of the angle tried last, the
    best template and surface are those of the best angle, the best
    correlation is a number, and the peak is where [np.argmax] finds the
    maximum of that surface. *)
Definition best_consistent `{Numerics} (img1 : image) (x y : float) (img_size : Z)
    (image2 : image) (alpha0 : float) (kw : options)
    (done : list float) (st : loop_state) : Prop :=
  ls_template st =
    (last done ≫= fun a =>
       returned (get_rotated_template img1 y x img_size (fsub a alpha0) kw)) /\
  match ls_best st with
  | None => True
  | Some b =>
      best_a b ∈ done /\
      get_rotated_template img1 y x img_size (fsub (best_a b) alpha0) kw
        = Ok (best_template b) /\
      template_matcher kw image2 (astype_uint8 (best_template b)) (mtype kw)
        = Ok (best_result b) /\
      np_max (best_result b) = Ok (ls_best_r st) /\
      fisnan (ls_best_r st) = false /\
      exists k, np_argmax (best_result b) = Ok k /\
                best_ij b = np_unravel_index k (best_result b)
  end.

(** The calls that one returning task leaves in the log: the matcher once
    per candidate angle, then the progress line of every hundredth task. *)
Definition task_log (kw : options) (j : nat) : list event :=
  map EvMatchTemplate (angles kw) ++
  (if decide (j `mod` 100 = 0) then [EvPrint j] else []).

(** A matcher whose correlation is undefined everywhere, as a normalised
    correlation is over a featureless window. *)
Definition nan_matcher (im t : image) (mt : Z) : result surface := Ok [[np_nan]].

Definition sample_options_nan : options := {|
  min_fg_pts := 2; min_border := of_Z 1; max_border := of_Z 2; old_border := true;
  angles := [f0; of_Z 3]; mtype := 5; template_matcher := nan_matcher;
  mcc_norm := false; rot_order := 1; hes_norm := false; hes_smth := false;
  nsr_geo2pix := fun lon lat => (lon, lat)
|}.

(** The number of calls of the template matcher recorded in a log. *)
Definition is_match_call (ev : event) : bool :=
  match ev with EvMatchTemplate _ => true | _ => false end.

Definition matcher_calls (log : list event) : nat :=
  length (filter (fun ev => is_match_call ev = true) log).

(** [np.isfinite] *)
Definition np_isfinite (x : float) : bool :=
  match x with
  | S754_zero _ | S754_finite _ _ _ => true
  | _ => false
  end.

(** The globals of the run over the edge grid with margin -4. *)
Definition edge_globals : option shared_args :=
  Some {| sh_x1 := gdata edge_lon; sh_y1 := gdata edge_lat;
          sh_x2fg := gdata edge_lon; sh_y2fg := gdata edge_lat; sh_border := [f2; f2];
          sh_img1 := sample_image; sh_img2 := sample_image; sh_img_size := 5;
          sh_alpha0 := get_initial_rotation sample_nansat sample_nansat;
          sh_kwargs := sample_options |}.

(** Three query points for the distance border: one on the pixel of the
    first correspondence, one to the right of the image, one elsewhere. *)
Definition probe_x : vec := map of_Z [2; 20; 6]%Z.
Definition probe_y : vec := map of_Z [3; 3; 6]%Z.

(** ** lib.get_uint8_image

    The image is taken as a float64 array, and [vmin] and [vmax], when
    given, as floats. *)

(** [a.astype('uint8')] on a float array: the same C cast, keeping the
    low eight bits of the 32-bit conversion. *)
Definition np_uint8 (x : float) : Z := (to_int32 x mod 256)%Z.

(** [y[mask] = v] for 2-D arrays of one shape. *)
Definition mask_fill2 {A} (mask : list (list bool)) (y : list (list A)) (v : A)
    : list (list A) :=
  zip_with (fun m row => mask_fill m row v) mask y.

(** The literal [99.9]. *)
Definition f99_9 : float := Eval vm_compute in fdiv (of_Z 999) (of_Z 10).
Definition f254 : float := Eval vm_compute in of_Z 254.
Definition f255 : float := Eval vm_compute in of_Z 255.

Section Scaling.
(** [np.nanpercentile(image, q)] *)
Variable np_nanpercentile : surface -> list float -> list float.

Definition get_uint8_image (img : surface) (vmin vmax : option float) : result image :=
  '(vmin, vmax) ← match vmin, vmax with
                   | Some lo, Some hi => Ok (lo, hi)
                   | _, _ =>
                       match np_nanpercentile img [of_Z 10; f99_9] with
                       | [lo; hi] => Ok (lo, hi)
                       | _ => Raise ValueError
                       end
                   end;
  (* redistribute into range [1,255]
     0 is reserved for invalid pixels *)
  let uint8Image :=
    map (map (fun x => fadd f1 (fdiv (fmul f254 (fsub x vmin)) (fsub vmax vmin)))) img in
  let uint8Image := mask_fill2 (map (map (fun v => flt v f1)) uint8Image) uint8Image f1 in
  let uint8Image :=
    mask_fill2 (map (map (fun v => fgt v f255)) uint8Image) uint8Image f255 in
  let uint8Image :=
    mask_fill2 (map (map (fun x => negb (np_isfinite x))) img) uint8Image f0 in
  Ok (map (map np_uint8) uint8Image).

(** The bounds that the scaling uses. *)
Definition scale_bounds (img : surface) (vmin vmax : option float) : result (float * float) :=
  match vmin, vmax with
  | Some lo, Some hi => Ok (lo, hi)
  | _, _ =>
      match np_nanpercentile img [of_Z 10; f99_9] with
      | [lo; hi] => Ok (lo, hi)
      | _ => Raise ValueError
      end
  end.

End Scaling.

(** One pixel through lines 42-47. *)
Definition scale_pixel (lo hi x : float) : float :=
  fadd f1 (fdiv (fmul f254 (fsub x lo)) (fsub hi lo)).

Definition pixel_to_uint8 (lo hi x : float) : Z :=
  let s := scale_pixel lo hi x in
  let s := if flt s f1 then f1 else s in
  let s := if fgt s f255 then f255 else s in
  np_uint8 (if negb (np_isfinite x) then f0 else s).

(** A number other than zero, the infinities and NaN. *)
Definition nonzero_finite (x : float) : bool :=
  match x with S754_finite _ _ _ => true | _ => false end.

(** Percentiles of a sample image, fixed for the examples. *)
Definition sample_percentiles (img : surface) (q : list float) : list float :=
  [of_Z (-30); of_Z (-5)].

Definition sample_band : surface :=
  [[of_Z (-30); of_Z (-5); of_Z (-17); fdiv (of_Z (-35)) f2];
   [np_nan; neg_inf; of_Z 40; of_Z (-100)]].

(** ** lib.get_displacement_pix *)

(** [a - b] for two 1-D arrays: of one length, or one of them of length 1. *)
Definition np_subtract (a b : vec) : result vec :=
  if decide (length a = length b) then Ok (zip_with fsub a b)
  else match a, b with
       | [x], _ => Ok (map (fun y => fsub x y) b)
       | _, [y] => Ok (map (fun x => fsub x y) a)
       | _, _ => Raise ValueError
       end.

Definition get_displacement_pix (n1 : Nansat) (x1 y1 : vec) (n2 : Nansat) (x2 y2 : vec)
    : result (vec * vec) :=
  let '(lon2, lat2) := transform_points (pix2geo n2) x2 y2 in
  let '(x2n1, y2n1) := transform_points (geo2pix n1) lon2 lat2 in
  dx ← np_subtract x2n1 x1;
  dy ← np_subtract y2n1 y1;
  Ok (dx, dy).

(** * Properties *)

(** ** Order of float64 values

    [SFcompare] is the lexicographic order of a rank built from sign,
    exponent and mantissa. *)

Lemma pos_cont_compare m n : Pos.compare_cont Eq m n = (Zpos m ?= Zpos n)%Z.
Proof. reflexivity. Qed.

Lemma SFcompare_rank x y :
  SFcompare x y =
    if fisnan x || fisnan y then None
    else Some (match (rank x).1.1 ?= (rank y).1.1 with
               | Eq => match (rank x).1.2 ?= (rank y).1.2 with
                       | Eq => (rank x).2 ?= (rank y).2
                       | c => c
                       end
               | c => c
               end)%Z.
Proof.
  destruct x as [[]|[]| |[] m e], y as [[]|[]| |[] m' e']; try reflexivity;
    cbn [SFcompare fisnan orb rank fst snd].
  - rewrite !Z.compare_opp, pos_cont_compare.
    rewrite (Z.compare_antisym e e'), (Z.compare_antisym (Z.pos m) (Z.pos m')).
    destruct (e ?= e')%Z, (Z.pos m ?= Z.pos m')%Z; reflexivity.
Qed.

Lemma flt_rank x y :
  flt x y = true <-> fisnan x = false /\ fisnan y = false /\ lex_lt (rank x) (rank y).
Proof.
  unfold flt, SFltb, lex_lt. rewrite SFcompare_rank.
  destruct (fisnan x), (fisnan y); cbn [orb]; try (split; [discriminate | intros (? & ? & ?); discriminate]).
  destruct (Z.compare_spec (rank x).1.1 (rank y).1.1),
           (Z.compare_spec (rank x).1.2 (rank y).1.2),
           (Z.compare_spec (rank x).2 (rank y).2);
    split; try discriminate; try (intros (_ & _ & ?); lia); intros _; repeat split; lia.
Qed.

Lemma fle_rank x y :
  fle x y = true <->
  fisnan x = false /\ fisnan y = false /\ (lex_lt (rank x) (rank y) \/ rank x = rank y).
Proof.
  unfold fle, SFleb, lex_lt. rewrite SFcompare_rank.
  destruct (fisnan x), (fisnan y); cbn [orb]; try (split; [discriminate | intros (? & ? & ?); discriminate]).
  destruct (rank x) as [[a b] c], (rank y) as [[a' b'] c']; cbn [fst snd].
  destruct (Z.compare_spec a a'), (Z.compare_spec b b'), (Z.compare_spec c c');
    (split; [intros HH | intros (_ & _ & HH)]);
    first [ reflexivity | discriminate
          | repeat split; first [left; lia | right; congruence]
          | exfalso; destruct HH as [HH|HH]; [lia | injection HH; lia] ].
Qed.

Lemma flt_le_trans c a b : flt c a = true -> fle a b = true -> flt c b = true.
Proof.
  rewrite !flt_rank, fle_rank. unfold lex_lt.
  intros (? & ? & ?) (? & ? & [?|E]); repeat split; try assumption; [lia | rewrite <- E; assumption].
Qed.

Lemma flt_fle x y : flt x y = true -> fle x y = true.
Proof. rewrite flt_rank, fle_rank. intros (? & ? & ?). auto. Qed.

Lemma fle_total x y : fisnan x = false -> fisnan y = false -> flt y x = false -> fle x y = true.
Proof.
  intros Hx Hy H. apply fle_rank. repeat split; try assumption.
  destruct (rank x) as [[a b] c] eqn:Ex, (rank y) as [[a' b'] c'] eqn:Ey.
  assert (~ lex_lt (rank y) (rank x)) as N.
  { intros L. rewrite (proj2 (flt_rank y x)) in H; [discriminate | auto]. }
  rewrite Ex, Ey in N. unfold lex_lt in *. cbn [fst snd] in *.
  destruct (decide (a = a')) as [->|]; [destruct (decide (b = b')) as [->|]; [destruct (decide (c = c')) as [->|] |] |];
    try (right; reflexivity); left; lia.
Qed.

Lemma fle_trans a b c : fle a b = true -> fle b c = true -> fle a c = true.
Proof.
  rewrite !fle_rank. unfold lex_lt.
  intros (? & ? & [?|E]) (? & ? & [?|E']); repeat split; try assumption.
  - left; lia.
  - left. rewrite <- E'. assumption.
  - left. rewrite E. assumption.
  - right. congruence.
Qed.

Lemma fle_refl x : fisnan x = false -> fle x x = true.
Proof. intros. apply fle_rank. auto. Qed.

(** ** Results that are never NaN *)

Lemma iter_pos_invariant {A} (P : A -> Prop) (f : A -> A) :
  (forall x, P x -> P (f x)) -> forall p x, P x -> P (SpecFloat.iter_pos f p x).
Proof.
  intros Hf p. induction p as [p IH|p IH|]; intros x Hx; cbn; auto.
Qed.

Lemma shr_1_nonneg mrs : (0 <= shr_m mrs)%Z -> (0 <= shr_m (shr_1 mrs))%Z.
Proof.
  destruct mrs as [m r s]. cbn. destruct m as [|[p|p|]|p]; cbn; lia.
Qed.

Lemma shr_fexp_nonneg m e l :
  (0 <= m)%Z -> (0 <= shr_m (shr_fexp prec emax m e l).1)%Z.
Proof.
  intros Hm. unfold shr_fexp, shr.
  assert (0 <= shr_m (shr_record_of_loc m l))%Z as H0.
  { destruct l as [|[]]; exact Hm. }
  destruct (fexp prec emax (Zdigits2 m + e) - e)%Z; cbn [fst]; try exact H0.
  apply (iter_pos_invariant (fun r => 0 <= shr_m r)%Z); auto using shr_1_nonneg.
Qed.

Lemma binary_round_aux_signed sx mx ex lx :
  (0 <= mx)%Z -> signed_as sx (binary_round_aux prec emax sx mx ex lx).
Proof.
  intros Hm. unfold binary_round_aux.
  pose proof (shr_fexp_nonneg mx ex lx Hm) as H1.
  destruct (shr_fexp prec emax mx ex lx) as [mrs' e'] eqn:E1. cbn [fst] in H1.
  assert (0 <= round_nearest_even (shr_m mrs') (loc_of_shr_record mrs'))%Z as H2.
  { unfold round_nearest_even. destruct (loc_of_shr_record mrs') as [|[]];
      try destruct (Z.even _); lia. }
  pose proof (shr_fexp_nonneg _ e' loc_Exact H2) as H3.
  destruct (shr_fexp prec emax _ e' loc_Exact) as [mrs'' e''] eqn:E2. cbn [fst] in H3.
  destruct (shr_m mrs'') eqn:E3; cbn; try reflexivity; try lia.
  destruct (_ <=? _)%Z; reflexivity.
Qed.

Lemma signed_as_not_nan sx x : signed_as sx x -> fisnan x = false.
Proof. destruct x; cbn; tauto. Qed.

Lemma of_Z_nonneg z : (0 <= z)%Z -> signed_as false (of_Z z).
Proof.
  intros Hz. unfold of_Z, binary_normalize. destruct z as [|p|p]; try reflexivity; try lia.
  unfold binary_round. destruct (shl_align _ _ _) as [mz ez].
  apply binary_round_aux_signed. lia.
Qed.

Lemma fsqrt_nonneg x : signed_as false x -> fisnan (fsqrt x) = false.
Proof.
  destruct x as [s|s| |s m e]; cbn; try tauto.
  - intros ->. reflexivity.
  - intros ->. unfold fsqrt, SFsqrt.
    destruct (SFsqrt_core_binary prec emax (Z.pos m) e) as [[mz ez] lz] eqn:E.
    apply (signed_as_not_nan false), binary_round_aux_signed.
    unfold SFsqrt_core_binary in E.
    set (m' := match (e - 2 * _)%Z with Z.pos _ => _ | Z0 => _ | Z.neg _ => _ end) in E.
    assert (0 <= m')%Z as Hm'.
    { subst m'. destruct (e - 2 * _)%Z; try lia. apply Z.shiftl_nonneg. lia. }
    pose proof (Z.sqrtrem_spec m' Hm') as S.
    destruct (Z.sqrtrem m') as [q r]. injection E as <- _ _. lia.
Qed.

Lemma fadd_f0_not_nan x : fisnan x = false -> fisnan (fadd f0 x) = false.
Proof. destruct x as [[]|[]| |]; cbn; auto. Qed.

Lemma fmul_f2_not_nan x : fisnan x = false -> fisnan (fmul x f2) = false.
Proof.
  destruct x as [s|s| |s m e]; cbn; auto. intros _.
  apply (signed_as_not_nan (xorb s false)). unfold fmul, SFmul, f2.
  apply binary_round_aux_signed. lia.
Qed.

Lemma feq_refl x : fisnan x = false -> feq x x = true.
Proof.
  destruct x as [[]|[]| |[] m e]; cbn; try reflexivity; try discriminate; intros _;
    unfold feq, SFeqb, SFcompare; rewrite Z.compare_refl, Pos.compare_cont_refl; reflexivity.
Qed.

Lemma feq_fadd_f0 x : fisnan x = false -> feq (fadd f0 x) x = true.
Proof.
  destruct x as [[]|[]| |[] m e]; try reflexivity; try discriminate; intros _;
    apply (feq_refl (S754_finite _ m e)); reflexivity.
Qed.

(** ** The logging monad *)

Lemma bind_lift_ok {A B} (a : A) (f : A -> M B) : (lift (Ok a) ≫= f) = f a.
Proof. unfold lift, mbind, M_bind. destruct (f a); reflexivity. Qed.

Lemma bind_lift_raise {A B} (e : exn) (f : A -> M B) :
  (lift (Raise e) ≫= f) = ([], Raise e).
Proof. reflexivity. Qed.

Lemma bind_ret {A B} (a : A) (f : A -> M B) : (mret a ≫= f) = f a.
Proof. apply bind_lift_ok. Qed.

Lemma bind_emit {B} (ev : event) (f : unit -> M B) :
  (emit ev ≫= f) = (ev :: (f ()).1, (f ()).2).
Proof. unfold emit, mbind, M_bind. destruct (f ()); reflexivity. Qed.

Lemma bind_ok_inv {A B} (m : M A) (f : A -> M B) l b :
  (m ≫= f) = (l, Ok b) ->
  exists l1 a l2, m = (l1, Ok a) /\ f a = (l2, Ok b) /\ l = l1 ++ l2.
Proof.
  unfold mbind, M_bind. destruct m as [l1 [a|e]]; [|discriminate].
  destruct (f a) as [l2 r] eqn:E. intros [= <- ->]. eauto 6.
Qed.

Lemma returned_bind {A B} (m : M A) (f : A -> M B) :
  returned (m ≫= f).2 = returned m.2 ≫= (fun a => returned (f a).2).
Proof.
  unfold mbind at 1, M_bind. destruct m as [l [a|e]]; cbn; [|reflexivity].
  destruct (f a); reflexivity.
Qed.

Lemma lift_ok_inv {A} (r : result A) l a : lift r = (l, Ok a) -> r = Ok a /\ l = [].
Proof. unfold lift. intros [= <- ->]. auto. Qed.

Lemma ok_bind {A B} (a : A) (f : A -> result B) : (Ok a ≫= f) = f a.
Proof. reflexivity. Qed.

Lemma raise_bind {A B} (e : exn) (f : A -> result B) : (Raise e ≫= f) = Raise e.
Proof. reflexivity. Qed.

Section AngleSearch.
Context {numerics : Numerics}.
Variables (img1 : image) (x y : float) (img_size : Z) (image2 : image)
          (alpha0 : float) (kw : options).

Local Abbreviation loop := (angle_loop img1 x y img_size image2 alpha0 kw).
Local Abbreviation score := (angle_score img1 x y img_size image2 alpha0 kw).
Local Abbreviation runs := (angle_runs img1 x y img_size image2 alpha0 kw).
Local Abbreviation crop a := (get_rotated_template img1 y x img_size (fsub a alpha0) kw).
Local Abbreviation loop_inv := (loop_invariant img1 x y img_size image2 alpha0 kw).

(** One iteration, case by case. *)
Lemma angle_loop_short a rest st t :
  crop a = Ok t -> too_small img_size t = true ->
  loop (a :: rest) st = ([], Ok (inl nan_tuple)).
Proof.
  intros Ht Hs. cbn [angle_loop]. rewrite Ht, bind_lift_ok.
  unfold too_small in Hs. rewrite Hs. reflexivity.
Qed.

Lemma angle_loop_full a rest st t res :
  crop a = Ok t -> too_small img_size t = false ->
  template_matcher kw image2 (astype_uint8 t) (mtype kw) = Ok res ->
  concat res <> [] ->
  exists k mx, np_argmax res = Ok k /\ np_max res = Ok mx /\ score a = Ok mx /\
    loop (a :: rest) st =
      (EvMatchTemplate a :: (loop rest (update_best st a t res (np_unravel_index k res) mx)).1,
       (loop rest (update_best st a t res (np_unravel_index k res) mx)).2).
Proof.
  intros Ht Hs Hm Hne.
  destruct (np_argmax res) as [k|e] eqn:Hk.
  2: { unfold np_argmax in Hk. destruct (concat res); [congruence|discriminate]. }
  destruct (np_max res) as [mx|e] eqn:Hx.
  2: { unfold np_max in Hx. destruct (concat res); [congruence|discriminate]. }
  exists k, mx. split; [reflexivity|]. split; [reflexivity|]. split.
  - unfold angle_score. rewrite Ht, ok_bind, Hm, ok_bind, Hk, ok_bind. exact Hx.
  - cbn [angle_loop]. rewrite Ht, bind_lift_ok.
    unfold too_small in Hs. rewrite Hs, bind_emit. cbn [fst snd].
    rewrite Hm, bind_lift_ok, Hk, bind_lift_ok, Hx, bind_lift_ok. reflexivity.
Qed.

(** An iteration that reaches the next one has a score. *)
Lemma angle_loop_cons_inv a rest st l st' :
  loop (a :: rest) st = (l, Ok (inr st')) ->
  exists t res k mx l',
    crop a = Ok t /\
    template_matcher kw image2 (astype_uint8 t) (mtype kw) = Ok res /\
    np_argmax res = Ok k /\ score a = Ok mx /\
    loop rest (update_best st a t res (np_unravel_index k res) mx) = (l', Ok (inr st')).
Proof.
  cbn [angle_loop]. intros H.
  destruct (crop a) as [t|e] eqn:Ht; [|discriminate].
  rewrite bind_lift_ok in H.
  destruct (_ || _) eqn:Hs; [discriminate|].
  rewrite bind_emit in H. cbn [fst snd] in H.
  destruct (template_matcher kw image2 (astype_uint8 t) (mtype kw)) as [res|e] eqn:Hm;
    [|discriminate].
  rewrite bind_lift_ok in H.
  destruct (np_argmax res) as [k|e] eqn:Hk; [|discriminate].
  rewrite bind_lift_ok in H.
  destruct (np_max res) as [mx|e] eqn:Hx; [|discriminate].
  rewrite bind_lift_ok in H.
  destruct (loop rest _) as [l' r'] eqn:Hl. cbn [fst snd] in H.
  injection H as <- ->.
  exists t, res, k, mx, l'. repeat split; try assumption.
  unfold angle_score. rewrite Ht, ok_bind, Hm, ok_bind, Hk, ok_bind. exact Hx.
Qed.

(** *** Early return *)

Lemma angle_loop_early pre : forall a post st t,
  crop a = Ok t -> too_small img_size t = true ->
  Forall runs pre ->
  exists log, loop (pre ++ a :: post) st = (log, Ok (inl nan_tuple)) /\
    forall a', EvMatchTemplate a' ∈ log -> a' ∈ pre.
Proof.
  induction pre as [|p pre IH]; intros a post st t Ht Hs Hpre.
  - exists []. split; [eapply angle_loop_short; eassumption|].
    intros a' Hin. inversion Hin.
  - inversion Hpre as [|? ? Hp Hrest]; subst.
    destruct Hp as (tp & Htp & [Hsp | (res & Hres & Hne)]).
    + exists []. split; [eapply angle_loop_short; eassumption|].
      intros a' Hin. inversion Hin.
    + destruct (too_small img_size tp) eqn:Hsp.
      * exists []. split; [eapply angle_loop_short; eassumption|].
        intros a' Hin. inversion Hin.
      * destruct (angle_loop_full p (pre ++ a :: post) st tp res Htp Hsp Hres Hne)
          as (k & mx & _ & _ & _ & Heq).
        destruct (IH a post (update_best st p tp res (np_unravel_index k res) mx) t Ht Hs Hrest)
          as (log & Hlog & Hev).
        exists (EvMatchTemplate p :: log). cbn [app]. rewrite Heq, Hlog. split; [reflexivity|].
        intros a' Hin. apply elem_of_cons in Hin as [[= ->]|Hin].
        -- left.
        -- right. auto.
Qed.

(** *** The best angle *)

Lemma flt_irrefl v : flt v v = false.
Proof.
  destruct (flt v v) eqn:E; [|reflexivity].
  apply flt_rank in E as (_ & _ & L). unfold lex_lt in L. lia.
Qed.

Lemma flt_trans a b c : flt a b = true -> flt b c = true -> flt a c = true.
Proof. intros H1 H2. eapply flt_le_trans; [exact H1|]. apply flt_fle, H2. Qed.

Lemma update_best_inv done st a t res ij mx :
  score a = Ok mx -> loop_inv done st ->
  loop_inv (done ++ [a]) (update_best st a t res ij mx).
Proof.
  intros Hsc [Hall Hbest]. unfold update_best, fgt.
  destruct (flt (ls_best_r st) mx) eqn:Hgt; unfold loop_invariant; cbn [ls_best_r ls_best].
  - split.
    + intros j a' s' Hj Hs'. apply lookup_app_Some in Hj as [Hj|[_ Hj]].
      * specialize (Hall j a' s' Hj Hs'). unfold fgt in *.
        destruct (flt mx s') eqn:E; [|reflexivity].
        rewrite (flt_trans _ _ _ Hgt E) in Hall. discriminate.
      * apply list_lookup_singleton_Some in Hj as [_ <-].
        rewrite Hsc in Hs'. injection Hs' as <-. apply flt_irrefl.
    + exists (length done). cbn [best_a]. split; [|split].
      * rewrite lookup_app_r, Nat.sub_diag by lia. reflexivity.
      * exact Hsc.
      * intros j a' s' Hlt Hj Hs'. rewrite lookup_app_l in Hj by exact Hlt.
        specialize (Hall j a' s' Hj Hs'). unfold fge, fgt in *.
        destruct (fle mx s') eqn:E; [|reflexivity].
        rewrite (flt_le_trans _ _ _ Hgt E) in Hall. discriminate.
  - split.
    + intros j a' s' Hj Hs'. apply lookup_app_Some in Hj as [Hj|[_ Hj]].
      * eauto.
      * apply list_lookup_singleton_Some in Hj as [_ <-].
        rewrite Hsc in Hs'. injection Hs' as <-. exact Hgt.
    + destruct (ls_best st) as [b|]; [|exact I].
      destruct Hbest as (k & Hk & Hs & Hlt). exists k. split; [|split].
      * apply lookup_app_l_Some. exact Hk.
      * exact Hs.
      * intros j a' s' Hj Hl Hs'. apply (Hlt j a' s' Hj); [|exact Hs'].
        apply lookup_lt_Some in Hk. rewrite lookup_app_l in Hl by lia. exact Hl.
Qed.

Lemma angle_loop_inv todo : forall done st l st',
  loop todo st = (l, Ok (inr st')) -> loop_inv done st -> loop_inv (done ++ todo) st'.
Proof.
  induction todo as [|a rest IH]; intros done st l st' Hrun Hinv.
  - cbn in Hrun. injection Hrun as _ <-. rewrite app_nil_r. exact Hinv.
  - apply angle_loop_cons_inv in Hrun as (t & res & k & mx & l' & _ & _ & _ & Hsc & Hrest).
    replace (done ++ a :: rest) with ((done ++ [a]) ++ rest) by (rewrite <- app_assoc; reflexivity).
    eapply IH; [exact Hrest|]. apply update_best_inv; assumption.
Qed.

Lemma angle_loop_inl todo : forall st l early,
  loop todo st = (l, Ok (inl early)) -> early = nan_tuple.
Proof.
  induction todo as [|a rest IH]; intros st l early H; [discriminate H|].
  cbn [angle_loop] in H.
  destruct (crop a) as [t|e]; [|discriminate].
  rewrite bind_lift_ok in H.
  destruct (_ || _); [injection H as _ <-; reflexivity|].
  rewrite bind_emit in H. cbn [fst snd] in H.
  destruct (template_matcher kw image2 (astype_uint8 t) (mtype kw)) as [res|e]; [|discriminate].
  rewrite bind_lift_ok in H.
  destruct (np_argmax res) as [k|e]; [|discriminate].
  rewrite bind_lift_ok in H.
  destruct (np_max res) as [mx|e]; [|discriminate].
  rewrite bind_lift_ok in H.
  destruct (loop rest _) as [l' r'] eqn:Hl. cbn [fst snd] in H.
  injection H as _ ->. eapply IH. exact Hl.
Qed.

Lemma loop_invariant_start : loop_inv [] {| ls_best_r := neg_inf; ls_best := None; ls_template := None |}.
Proof. split; [|exact I]. intros j a' s' Hj. inversion Hj. Qed.

(** The replacement test is strict: a score that is not greater than the
    best so far changes neither the best value nor the best angle. *)
Lemma update_best_keeps st a t res ij mx :
  fgt mx (ls_best_r st) = false ->
  ls_best_r (update_best st a t res ij mx) = ls_best_r st /\
  ls_best (update_best st a t res ij mx) = ls_best st.
Proof. intros H. unfold update_best. rewrite H. split; reflexivity. Qed.

(** C3. If some candidate angle yields a rotated crop smaller than the
    template edge in either dimension, [rotate_and_match] returns at
    once the tuple whose every component is NaN, whatever the other
    angles would give: the matcher is never called for that angle nor
    for any later one.  (The angles before it are only required not to
    raise; they may be short or full-size.) *)
Theorem rotate_and_match_short_template pre a post t :
  angles kw = pre ++ a :: post ->
  crop a = Ok t -> too_small img_size t = true ->
  Forall runs pre ->
  exists log,
    rotate_and_match img1 x y img_size image2 alpha0 kw = (log, Ok nan_tuple) /\
    Forall (fun v => v = PyFloat np_nan) nan_tuple /\
    forall a', EvMatchTemplate a' ∈ log -> a' ∈ pre.
Proof.
  intros Hang Ht Hs Hpre. unfold rotate_and_match. rewrite Hang.
  destruct (angle_loop_early pre a post
              {| ls_best_r := neg_inf; ls_best := None; ls_template := None |} t Ht Hs Hpre)
    as (log & Hlog & Hev).
  exists log. rewrite Hlog. split; [|split].
  - unfold mbind, M_bind. cbn. rewrite app_nil_r. reflexivity.
  - repeat constructor.
  - exact Hev.
Qed.

(** C7. When [rotate_and_match] returns a match, the reported angle is a
    candidate whose score no candidate exceeds and which every earlier
    candidate fails to reach: among angles of equal maximal score the
    first in iteration order is reported.  The best is replaced only on
    a strictly greater score. *)
Theorem rotate_and_match_first_maximal log dx dy a r h res bt :
  rotate_and_match img1 x y img_size image2 alpha0 kw
    = (log, Ok [dx; dy; PyFloat a; r; h; PySurface res; bt]) ->
  (exists k s,
     angles kw !! k = Some a /\ score a = Ok s /\
     (mcc_norm kw = false -> r = PyFloat s) /\
     forall j a' s', angles kw !! j = Some a' -> score a' = Ok s' ->
       fgt s' s = false /\ (j < k -> fge s' s = false)) /\
  (forall st a' t' res' ij mx, fgt mx (ls_best_r st) = false ->
     ls_best (update_best st a' t' res' ij mx) = ls_best st).
Proof.
  intros Hrun. split; [|intros; eapply update_best_keeps; eassumption].
  unfold rotate_and_match in Hrun.
  apply bind_ok_inv in Hrun as (l1 & out & l2 & Hloop & Hk & _).
  destruct out as [early|st].
  { apply angle_loop_inl in Hloop as ->. unfold mret, M_ret, nan_tuple in Hk. discriminate Hk. }
  apply lift_ok_inv in Hk as [Hk _].
  pose proof (angle_loop_inv (angles kw) [] _ l1 st Hloop loop_invariant_start) as [Hall Hbest].
  cbn [app] in Hall, Hbest.
  destruct (ls_best st) as [b|]; cbn [unbound] in Hk;
    [rewrite ok_bind in Hk | rewrite raise_bind in Hk; discriminate Hk].
  destruct (get_hessian (best_result b) kw) as [hes|];
    [rewrite ok_bind in Hk | rewrite raise_bind in Hk; discriminate Hk].
  destruct (py_index2 hes _ _) as [bh|];
    [rewrite ok_bind in Hk | rewrite raise_bind in Hk; discriminate Hk].
  destruct (ls_template st) as [tl|]; cbn [unbound] in Hk;
    [rewrite ok_bind in Hk | rewrite raise_bind in Hk; discriminate Hk].
  injection Hk as _ _ <- Hr _ _ _.
  destruct Hbest as (k & Hka & Hsc & Hlt).
  exists k, (ls_best_r st). split; [exact Hka|]. split; [exact Hsc|]. split.
  - intros Hn. rewrite Hn in Hr. symmetry. exact Hr.
  - intros j a' s' Hj Hs'. split; [eapply Hall; eassumption|].
    intros Hjk. eapply Hlt; eassumption.
Qed.

End AngleSearch.

(** Whenever [rotate_and_match] takes its early return, [use_mcc] cannot
    unpack the six values into seven names. *)
Lemma use_mcc_cannot_unpack `{Numerics} x1p y1p x2p y2p border img1 img2 img_size alpha0 kw
    x2i y2i hws r0 r1 c0 c1 log :
  py_round x2p = Ok x2i -> py_round y2p = Ok y2i ->
  py_int (fdiv (of_Z img_size) f2) = Ok hws ->
  py_int (fsub (of_Z (y2i - hws)) border) = Ok r0 ->
  py_int (fadd (fadd (of_Z (y2i + hws)) border) f1) = Ok r1 ->
  py_int (fsub (of_Z (x2i - hws)) border) = Ok c0 ->
  py_int (fadd (fadd (of_Z (x2i + hws)) border) f1) = Ok c1 ->
  rotate_and_match img1 x1p y1p img_size (slice2 r0 r1 c0 c1 img2) alpha0 kw
    = (log, Ok nan_tuple) ->
  use_mcc x1p y1p x2p y2p border img1 img2 img_size alpha0 kw = (log, Raise ValueError).
Proof.
  intros Hx Hy Hh H0 H1 H2 H3 Hrm. unfold use_mcc.
  rewrite Hx, bind_lift_ok, Hy, bind_lift_ok, Hh, bind_lift_ok, H0, bind_lift_ok,
    H1, bind_lift_ok, H2, bind_lift_ok, H3, bind_lift_ok, Hrm.
  unfold mbind, M_bind. cbn. rewrite app_nil_r. reflexivity.
Qed.

(** ** Sequential run and worker pool *)

Section Pool.
Context {A : Type} (task : nat -> M A).

Local Abbreviation outcome i := (returned (task i).2).

Lemma run_in_order_returned l :
  returned (run_in_order task l).2 = mapM (fun i => outcome i) l.
Proof.
  induction l as [|i l IH]; [reflexivity|].
  cbn [run_in_order mapM]. rewrite returned_bind.
  destruct (returned (task i).2) as [a|]; [|reflexivity]. cbn.
  rewrite returned_bind, IH. destruct (mapM _ l); reflexivity.
Qed.

Lemma gather_returned (store : gmap nat A) l :
  (forall i, i ∈ l -> store !! i = outcome i) ->
  returned (gather store l) = mapM (fun i => outcome i) l.
Proof.
  induction l as [|i l IH]; intros H; [reflexivity|].
  cbn [gather mapM]. rewrite (H i) by left.
  destruct (outcome i) as [a|]; [|reflexivity]. cbn.
  rewrite <- IH by (intros; apply H; right; assumption).
  destruct (gather store l); reflexivity.
Qed.

Lemma pool_failure sched : forall st,
  failure (foldl (pool_step task) st sched) = None <->
  failure st = None /\ Forall (fun i => is_Some (outcome i)) sched.
Proof.
  induction sched as [|i sched IH]; intros st; cbn [foldl].
  - split; [intros H; split; [exact H | constructor] | intros [H _]; exact H].
  - rewrite IH, Forall_cons. unfold pool_step.
    destruct (task i) as [l [a|e]]; cbn [snd fst failure returned].
    + split; [intros [? ?]; repeat split; eauto | intros (? & ? & ?); auto].
    + split.
      * intros [H _]. destruct (failure st); discriminate H.
      * intros (_ & [? H] & _). discriminate H.
Qed.

Lemma pool_slots sched : forall st i a,
  outcome i = Some a ->
  i ∈ sched \/ slots st !! i = Some a ->
  slots (foldl (pool_step task) st sched) !! i = Some a.
Proof.
  induction sched as [|j sched IH]; intros st i a Hi Hin; cbn [foldl].
  - destruct Hin as [Hin|Hin]; [inversion Hin | exact Hin].
  - apply IH; [exact Hi|].
    destruct Hin as [Hin|Hin].
    + apply elem_of_cons in Hin as [->|Hin]; [|left; exact Hin].
      right. unfold pool_step. destruct (task j) as [l [b|e]]; cbn in *; [|discriminate].
      injection Hi as ->. apply lookup_insert_eq.
    + right. unfold pool_step. destruct (task j) as [l [b|e]] eqn:E; cbn; [|exact Hin].
      destruct (decide (j = i)) as [->|Hne].
      * rewrite E in Hi. cbn in Hi. injection Hi as ->. apply lookup_insert_eq.
      * rewrite lookup_insert_ne by exact Hne. exact Hin.
Qed.

(** Whatever order the tasks complete in, the pool hands back what the
    list comprehension does. *)
Lemma pool_map_returned n sched :
  sched ≡ₚ seq 0 n ->
  returned (pool_map task n sched).2 = returned (run_in_order task (seq 0 n)).2.
Proof.
  intros Hperm. rewrite run_in_order_returned. unfold pool_map.
  set (st0 := {| slots := ∅; failure := None; plog := [] |}).
  pose proof (pool_failure sched st0) as Hf.
  destruct (failure (foldl (pool_step task) st0 sched)) as [e|] eqn:Ef; cbn [snd returned].
  - symmetry. apply mapM_None.
    destruct (decide (Forall (fun i => is_Some (outcome i)) (seq 0 n))) as [Hall|Hnot].
    + assert (Some e = None) as X; [|discriminate X].
      apply Hf. split; [reflexivity|]. rewrite Hperm. exact Hall.
    + apply not_Forall_Exists in Hnot; [|intros ?; apply _].
      eapply Exists_impl; [exact Hnot|]. intros i Hi. cbn in Hi.
      destruct (outcome i); [destruct Hi; eauto | reflexivity].
  - destruct Hf as [Hf _]. destruct (Hf eq_refl) as [_ Hall].
    apply gather_returned. intros i Hi.
    rewrite <- Hperm in Hi.
    rewrite Forall_forall in Hall. destruct (Hall i Hi) as [a Ha].
    rewrite Ha. apply pool_slots; [exact Ha | left; exact Hi].
Qed.

End Pool.

Section Dispatch.
Context {numerics : Numerics}.

(** C2. For the same inputs, a run with [threads = N > 0], whatever the
    order in which the pool's tasks complete, hands back exactly what
    the sequential run with [threads = 0] hands back: the same seven
    grids, cell by cell, or no grids at all when some task raised. *)
Theorem pattern_matching_threads_equivalent lon1_dst lat1_dst n1 x1 y1 n2 x2 y2
    margin img_size N kw scheduler scheduler0 :
  (0 < N)%Z ->
  (forall n, scheduler n ≡ₚ seq 0 n) ->
  returned (pattern_matching lon1_dst lat1_dst n1 x1 y1 n2 x2 y2
              margin img_size N kw scheduler).2 =
  returned (pattern_matching lon1_dst lat1_dst n1 x1 y1 n2 x2 y2
              margin img_size 0 kw scheduler0).2.
Proof.
  intros HN Hfair. unfold pattern_matching.
  destruct (first_guess_and_mask _ _ _ _ _ _ _ _ _ _ _)
    as [[[[[[x1_dst y1_dst] x2fg] y2fg] border] gpi]|e]; [|reflexivity].
  rewrite !bind_lift_ok.
  destruct (_init_pool _ _ _ _ _ _ _ _ _ _ _) as [globals|e]; [|reflexivity].
  rewrite !bind_lift_ok.
  rewrite (returned_bind (if (N =? 0)%Z then _ else _)).
  rewrite (returned_bind (if (0 =? 0)%Z then _ else _)).
  replace (N =? 0)%Z with false by (symmetry; apply Z.eqb_neq; lia).
  replace (N <? 0)%Z with false by (symmetry; apply Z.ltb_ge; lia).
  cbn [Z.eqb]. rewrite pool_map_returned by apply Hfair. reflexivity.
Qed.

End Dispatch.

(** ** Boolean masks *)

Lemma map_fmap {A B} (f : A -> B) (l : list A) : map f l = f <$> l.
Proof. reflexivity. Qed.

Lemma count_true_cons g gs :
  count_true (g :: gs) = (if g then 1 else 0) + count_true gs.
Proof.
  unfold count_true. rewrite filter_cons. destruct g; cbn.
  - destruct (decide (true = true)); [reflexivity | congruence].
  - destruct (decide (false = true)); [discriminate | reflexivity].
Qed.

Lemma count_true_none gpi : Forall (fun b => b = false) gpi -> count_true gpi = 0.
Proof.
  induction 1 as [|g gs -> _ IH]; [reflexivity|]. rewrite count_true_cons, IH. reflexivity.
Qed.

Lemma length_select {A} gpi : forall xs : list A,
  length gpi = length xs -> length (select gpi xs) = count_true gpi.
Proof.
  induction gpi as [|g gs IH]; intros [|x xs] H; try discriminate; [reflexivity|].
  rewrite count_true_cons. cbn in *. destruct g; cbn; rewrite IH by lia; reflexivity.
Qed.

Lemma valid_indices_cons g gs :
  valid_indices (g :: gs) = (if g then [0] else []) ++ map S (valid_indices gs).
Proof.
  unfold valid_indices. cbn [length]. rewrite <- cons_seq, filter_cons, lookup_cons.
  rewrite <- fmap_S_seq.
  assert (filter (fun i => (g :: gs) !! i = Some true) (S <$> seq 0 (length gs))
          = map S (filter (fun i => gs !! i = Some true) (seq 0 (length gs)))) as ->.
  { induction (seq 0 (length gs)) as [|i l IH]; [reflexivity|].
    cbn [fmap list_fmap]. rewrite !filter_cons, lookup_cons.
    destruct (decide (gs !! i = Some true)); cbn; rewrite IH; reflexivity. }
  destruct g.
  - destruct (decide (Some true = Some true)); [reflexivity | congruence].
  - destruct (decide (Some false = Some true)); [discriminate | reflexivity].
Qed.

Lemma elem_of_valid_indices gpi i : i ∈ valid_indices gpi <-> gpi !! i = Some true.
Proof.
  unfold valid_indices. rewrite list_elem_of_filter, elem_of_seq. split; [tauto|].
  intros H. split; [exact H|]. apply lookup_lt_Some in H. lia.
Qed.

Lemma length_valid_indices gpi : length (valid_indices gpi) = count_true gpi.
Proof.
  induction gpi as [|g gs IH]; [reflexivity|].
  rewrite valid_indices_cons, count_true_cons, length_app, length_map, IH.
  destruct g; reflexivity.
Qed.

(** [x[gpi]] lists the entries of [x] at the valid indices, in order. *)
Lemma select_lookup {A} gpi : forall (xs : list A) j,
  length gpi = length xs ->
  select gpi xs !! j = valid_indices gpi !! j ≫= (fun i => xs !! i).
Proof.
  induction gpi as [|g gs IH]; intros [|x xs] j H; try discriminate; [reflexivity|].
  rewrite valid_indices_cons. cbn in H. destruct g; cbn [select app].
  - destruct j as [|j]; [reflexivity|]. rewrite !lookup_cons.
    rewrite IH by lia. rewrite map_fmap, list_lookup_fmap.
    destruct (valid_indices gs !! j); reflexivity.
  - rewrite IH by lia. rewrite map_fmap, list_lookup_fmap.
    destruct (valid_indices gs !! j); reflexivity.
Qed.

Lemma length_scatter {A} gpi : forall y data : list A,
  length (scatter gpi y data) = length y.
Proof.
  induction gpi as [|g gs IH]; intros [|y0 ys] data; try reflexivity.
  - destruct g; reflexivity.
  - destruct g; [destruct data|]; cbn; rewrite IH; reflexivity.
Qed.

(** [y[gpi] = data] leaves the cells outside the mask alone. *)
Lemma scatter_outside {A} gpi : forall (y data : list A) i,
  gpi !! i <> Some true -> scatter gpi y data !! i = y !! i.
Proof.
  induction gpi as [|g gs IH]; intros [|y0 ys] data i H; try reflexivity.
  - destruct g; reflexivity.
  - destruct i as [|i].
    + destruct g; [contradiction H; reflexivity | reflexivity].
    + destruct g; [destruct data|]; cbn; apply IH; exact H.
Qed.

Lemma mask_assign_ok {A} gpi (y data y' : list A) :
  mask_assign gpi y data = Ok y' ->
  length gpi = length y /\ length y' = length y /\
  forall i, gpi !! i <> Some true -> y' !! i = y !! i.
Proof.
  unfold mask_assign. destruct (decide (length gpi = length y)) as [Hl|]; [|discriminate].
  destruct (decide _).
  - intros [= <-]. auto using length_scatter, scatter_outside.
  - destruct data as [|d [|]]; try discriminate.
    intros [= <-]. auto using length_scatter, scatter_outside.
Qed.

Lemma lookup_zeros_plus n v i : i < n -> zeros_plus n v !! i = Some (fadd f0 v).
Proof. intros H. unfold zeros_plus. apply lookup_replicate_2. exact H. Qed.

Lemma fill_gpi_ok shape gpi data g :
  _fill_gpi shape gpi data = Ok g ->
  gshape g = shape /\ wf_grid g /\ length gpi = grid_size shape /\
  forall i, i < grid_size shape -> gpi !! i <> Some true -> gdata g !! i = Some np_nan.
Proof.
  unfold _fill_gpi. destruct (mask_assign _ _ _) as [y'|] eqn:E; [|discriminate].
  rewrite ok_bind. intros [= <-].
  apply mask_assign_ok in E as (Hl & Hl' & Hout).
  unfold zeros_plus in Hl, Hl'. rewrite length_replicate in Hl, Hl'.
  repeat split; try assumption.
  intros i Hi Hg. cbn [gdata]. rewrite Hout by exact Hg.
  apply lookup_zeros_plus. exact Hi.
Qed.

Lemma nan_grid_ok shape :
  gshape (nan_grid shape) = shape /\ wf_grid (nan_grid shape) /\
  forall i, i < grid_size shape -> gdata (nan_grid shape) !! i = Some np_nan.
Proof.
  unfold nan_grid, wf_grid. cbn. unfold zeros_plus at 1. rewrite length_replicate.
  repeat split. intros i Hi. apply lookup_zeros_plus. exact Hi.
Qed.

(** ** Lengths of the per-point arrays *)

Ltac lengths :=
  repeat first
    [ rewrite length_zip_with | rewrite length_map | rewrite length_fmap
    | rewrite length_replicate | rewrite length_zip ].

Lemma length_transform_points f xs ys a b :
  transform_points f xs ys = (a, b) ->
  length a = length xs `min` length ys /\ length b = length xs `min` length ys.
Proof. unfold transform_points. intros [= <- <-]. lengths. auto. Qed.

Lemma length_mask_fill {A} mask (y : list A) v :
  length (mask_fill mask y v) = length mask `min` length y.
Proof. unfold mask_fill. apply length_zip_with. Qed.

Lemma length_clamp_border border y2fg kw :
  length y2fg = length border -> length (clamp_border border y2fg kw) = length border.
Proof.
  intros H. unfold clamp_border, vlt_s, vgt_s, visnan.
  rewrite !length_mask_fill. lengths. rewrite !length_mask_fill. lengths. lia.
Qed.

Section Lengths.
Context {numerics : Numerics}.

Lemma length_border_distance x1_dst y1_dst x1 y1 shape1 kw b :
  border_distance x1_dst y1_dst x1 y1 shape1 kw = Ok b -> length b = length x1_dst.
Proof.
  unfold border_distance, border_distance_with.
  destruct (get_distance_to_nearest_keypoint _ _ _); [rewrite ok_bind | discriminate].
  destruct (mask_select _ (map np_int16 y1_dst)); [rewrite ok_bind | discriminate].
  destruct (mask_select _ (map np_int16 x1_dst)); [rewrite ok_bind | discriminate].
  destruct (collect _); [rewrite ok_bind | discriminate].
  intros H. apply mask_assign_ok in H as (_ & -> & _).
  unfold zeros_plus. apply length_replicate.
Qed.

Lemma length_border_error x1_dst y1_dst x1 y1 x2 y2 b :
  length y1_dst = length x1_dst ->
  border_error x1_dst y1_dst x1 y1 x2 y2 = Ok b -> length b = length x1_dst.
Proof.
  intros Hl. unfold border_error.
  destruct (x2y2_interpolation_poly _ _ _ _); [rewrite ok_bind | discriminate].
  destruct (transform_points _ x1 y1).
  destruct (x2y2_interpolation_near _ _ _ _); [rewrite ok_bind | discriminate].
  destruct (transform_points _ x1_dst y1_dst) as [xdif ydif] eqn:E.
  apply length_transform_points in E as [Ha Hc].
  intros [= <-]. lengths. lia.
Qed.

Lemma length_prepare_first_guess x1_dst y1_dst n1 x1 y1 n2 x2 y2 img_size kw x2fg y2fg border :
  length y1_dst = length x1_dst ->
  prepare_first_guess x1_dst y1_dst n1 x1 y1 n2 x2 y2 img_size kw = Ok (x2fg, y2fg, border) ->
  length x2fg = length x1_dst /\ length y2fg = length x1_dst /\
  length border = length x1_dst.
Proof.
  intros Hl. unfold prepare_first_guess.
  destruct (_ >? _)%Z.
  - destruct (x2y2_interpolation_poly _ _ _ _); [rewrite ok_bind | discriminate].
    destruct (transform_points _ x1_dst y1_dst) as [x2p2 y2p2] eqn:Ep.
    apply length_transform_points in Ep as [? ?].
    destruct (x2y2_interpolation_near _ _ _ _); [rewrite ok_bind | discriminate].
    destruct (transform_points _ x1_dst y1_dst) as [x2n y2n] eqn:En.
    apply length_transform_points in En as [? ?].
    destruct (if old_border kw then _ else _) as [b0|] eqn:Eb; [rewrite ok_bind | discriminate].
    assert (length b0 = length x1_dst) as Hb0.
    { destruct (old_border kw);
        [eapply length_border_distance | eapply length_border_error]; eassumption. }
    intros [= <- <- <-]. unfold mask_copy, visnan.
    rewrite length_clamp_border by lia. lengths. lia.
  - destruct (transform_points _ x1_dst y1_dst) as [lon lat] eqn:E1.
    apply length_transform_points in E1 as [? ?].
    destruct (transform_points _ lon lat) as [xa xb] eqn:E2.
    apply length_transform_points in E2 as [? ?].
    intros [= <- <- <-]. unfold zeros_plus. lengths. lia.
Qed.

Lemma length_good_points x1_dst y1_dst x2fg y2fg border n1 n2 margin img_size n :
  length x1_dst = n -> length y1_dst = n -> length x2fg = n -> length y2fg = n ->
  length border = n ->
  length (good_points x1_dst y1_dst x2fg y2fg border n1 n2 margin img_size) = n.
Proof.
  intros. unfold good_points, vand, vgt_s, vlt_s, vsub_s, vadd_s, vsub, vadd.
  lengths. lia.
Qed.

Lemma length_first_guess_and_mask lon1_dst lat1_dst n1 x1 y1 n2 x2 y2 margin img_size kw
    x1_dst y1_dst x2fg y2fg border gpi :
  first_guess_and_mask lon1_dst lat1_dst n1 x1 y1 n2 x2 y2 margin img_size kw
    = Ok (x1_dst, y1_dst, x2fg, y2fg, border, gpi) ->
  length x1_dst = length gpi /\ length y1_dst = length gpi /\ length x2fg = length gpi /\
  length y2fg = length gpi /\ length border = length gpi.
Proof.
  unfold first_guess_and_mask.
  destruct (transform_points _ _ _) as [xd yd] eqn:E.
  apply length_transform_points in E as [Hx Hy].
  destruct (prepare_first_guess _ _ _ _ _ _ _ _ _ _) as [[[xa xb] xc]|] eqn:Ep;
    [rewrite ok_bind | discriminate].
  apply length_prepare_first_guess in Ep as (? & ? & ?); [|lia].
  intros [= <- <- <- <- <- <-].
  rewrite (length_good_points xd yd xa xb xc n1 n2 margin img_size (length xd)) by lia.
  lia.
Qed.

Lemma mask_select_ok {A} gpi (xs : list A) :
  length xs = length gpi -> mask_select gpi xs = Ok (select gpi xs).
Proof.
  intros H. unfold mask_select.
  destruct (decide (length gpi = length xs)) as [_|N]; [reflexivity | congruence].
Qed.

Lemma init_pool_ok gpi x1_dst y1_dst x2fg y2fg border img1 img2 img_size alpha0 kw :
  length x1_dst = length gpi -> length y1_dst = length gpi -> length x2fg = length gpi ->
  length y2fg = length gpi -> length border = length gpi ->
  _init_pool gpi x1_dst y1_dst x2fg y2fg border img1 img2 img_size alpha0 kw =
    Ok (Some {| sh_x1 := select gpi x1_dst; sh_y1 := select gpi y1_dst;
                sh_x2fg := select gpi x2fg; sh_y2fg := select gpi y2fg;
                sh_border := select gpi border; sh_img1 := img1; sh_img2 := img2;
                sh_img_size := img_size; sh_alpha0 := alpha0; sh_kwargs := kw |}).
Proof.
  intros H1 H2 H3 H4 H5. unfold _init_pool.
  rewrite !mask_select_ok by assumption. reflexivity.
Qed.

Lemma bind_pure {A B} (a : A) (f : A -> M B) : (([], Ok a) : M A) ≫= f = f a.
Proof. apply bind_lift_ok. Qed.

Lemma pool_map_empty {A} (task : nat -> M A) : pool_map task 0 [] = ([], Ok []).
Proof. reflexivity. Qed.

(** C10. When the mask excludes every query point, [pattern_matching]
    returns normally with seven grids of the query shape filled with
    NaN, and its log is empty: neither the matcher nor the drift-vector
    conversion was called. *)
Theorem pattern_matching_nothing_valid lon1_dst lat1_dst n1 x1 y1 n2 x2 y2
    margin img_size threads kw scheduler x1_dst y1_dst x2fg y2fg border gpi :
  first_guess_and_mask lon1_dst lat1_dst n1 x1 y1 n2 x2 y2 margin img_size kw
    = Ok (x1_dst, y1_dst, x2fg, y2fg, border, gpi) ->
  Forall (fun b => b = false) gpi ->
  (0 <= threads)%Z ->
  (forall n, scheduler n ≡ₚ seq 0 n) ->
  pattern_matching lon1_dst lat1_dst n1 x1 y1 n2 x2 y2 margin img_size threads kw scheduler
    = ([], Ok (nan_outputs (gshape lon1_dst))) /\
  Forall (fun g => gshape g = gshape lon1_dst /\ wf_grid g /\
                   Forall (fun v => v = np_nan) (gdata g))
         (grids_of (nan_outputs (gshape lon1_dst))).
Proof.
  intros Hfg Hnone Hthreads Hfair. split.
  - unfold pattern_matching. rewrite Hfg, bind_lift_ok.
    pose proof (length_first_guess_and_mask _ _ _ _ _ _ _ _ _ _ _ _ _ _ _ _ _ Hfg)
      as (H1 & H2 & H3 & H4 & H5).
    rewrite init_pool_ok, bind_lift_ok by assumption.
    rewrite (count_true_none gpi Hnone).
    assert (scheduler 0 = []) as -> by (apply Permutation_nil_r, (Hfair 0)).
    rewrite pool_map_empty. cbn [seq run_in_order].
    replace (threads <? 0)%Z with false by (symmetry; apply Z.ltb_ge; lia).
    destruct (threads =? 0)%Z; unfold mret, M_ret; rewrite bind_pure; reflexivity.
  - destruct (nan_grid_ok (gshape lon1_dst)) as (Hs & Hw & _).
    unfold nan_outputs, grids_of. cbn.
    repeat constructor; try assumption;
      unfold zeros_plus; apply Forall_replicate; reflexivity.
Qed.

End Lengths.

(** ** Where the log of a run comes from *)

Lemma bind_log {A B} (m : M A) (f : A -> M B) ev :
  ev ∈ (m ≫= f).1 -> ev ∈ m.1 \/ exists a, m.2 = Ok a /\ ev ∈ (f a).1.
Proof.
  unfold mbind, M_bind. destruct m as [l [a|e]]; cbn [fst snd]; [|auto].
  destruct (f a) as [l' r] eqn:E. cbn [fst]. rewrite elem_of_app.
  intros [?|?]; [auto|]. right. exists a. rewrite E. auto.
Qed.

Lemma run_in_order_log {A} (task : nat -> M A) l ev :
  ev ∈ (run_in_order task l).1 -> exists i, i ∈ l /\ ev ∈ (task i).1.
Proof.
  induction l as [|i l IH]; cbn [run_in_order].
  - intros H. inversion H.
  - intros H. apply bind_log in H as [H|(a & _ & H)].
    + exists i. split; [left | exact H].
    + apply bind_log in H as [H|(k & _ & H)]; [|inversion H].
      destruct (IH H) as (j & Hj & Hev). exists j. split; [right; exact Hj | exact Hev].
Qed.

Lemma pool_log {A} (task : nat -> M A) sched : forall st ev,
  ev ∈ plog (foldl (pool_step task) st sched) ->
  ev ∈ plog st \/ exists i, i ∈ sched /\ ev ∈ (task i).1.
Proof.
  induction sched as [|i sched IH]; intros st ev H; cbn [foldl] in H; [auto|].
  apply IH in H as [H|(j & Hj & H)].
  - unfold pool_step in H. destruct (task i) as [l [a|e]] eqn:E; cbn [plog snd fst] in H;
      apply elem_of_app in H as [H|H]; auto;
      right; exists i; rewrite E; split; [left | exact H | left | exact H].
  - right. exists j. split; [right; exact Hj | exact H].
Qed.

Lemma pool_map_log {A} (task : nat -> M A) n sched ev :
  ev ∈ (pool_map task n sched).1 -> exists i, i ∈ sched /\ ev ∈ (task i).1.
Proof.
  unfold pool_map. intros H.
  assert (ev ∈ plog (foldl (pool_step task)
                       {| slots := ∅; failure := None; plog := [] |} sched)) as H'.
  { destruct (failure _); exact H. }
  apply pool_log in H' as [H'|H']; [inversion H' | exact H'].
Qed.

Lemma run_in_order_all_ok {A} (task : nat -> M A) l log rs :
  run_in_order task l = (log, Ok rs) ->
  forall i, i ∈ l -> is_ok (task i).2 = true.
Proof.
  intros H i Hi.
  assert (is_Some (mapM (fun i => returned (task i).2) l)) as Hs.
  { rewrite <- run_in_order_returned, H. eauto. }
  apply mapM_is_Some_1 in Hs. rewrite Forall_forall in Hs.
  destruct (Hs i Hi) as [a Ha]. cbn in Ha. destruct (task i).2; [reflexivity | discriminate].
Qed.

Lemma pool_map_all_ok {A} (task : nat -> M A) n sched log rs :
  sched ≡ₚ seq 0 n ->
  pool_map task n sched = (log, Ok rs) ->
  forall i, i < n -> is_ok (task i).2 = true.
Proof.
  intros Hperm H i Hi.
  assert (is_Some (mapM (fun i => returned (task i).2) (seq 0 n))) as Hs.
  { rewrite <- run_in_order_returned, <- (pool_map_returned task n sched Hperm), H. eauto. }
  apply mapM_is_Some_1 in Hs. rewrite Forall_forall in Hs.
  destruct (Hs i) as [a Ha]; [apply elem_of_seq; lia|].
  cbn in Ha. destruct (task i).2; [reflexivity | discriminate].
Qed.

Lemma task_of_cell_lt gpi : forall i,
  gpi !! i = Some true -> task_of_cell gpi i < count_true gpi.
Proof.
  unfold task_of_cell.
  induction gpi as [|g gs IH]; intros [|i] H; try discriminate.
  - injection H as ->. rewrite count_true_cons. cbn. lia.
  - rewrite lookup_cons in H. cbn [take]. rewrite !count_true_cons.
    specialize (IH i H). lia.
Qed.

Lemma py_index_nat {A} (l : list A) (j : nat) :
  py_index l (Z.of_nat j) = match l !! j with Some x => Ok x | None => Raise IndexError end.
Proof.
  assert ((Z.of_nat j <? 0)%Z = false) as E by (apply Z.ltb_ge; lia).
  unfold py_index. rewrite E. cbv zeta. rewrite E, Nat2Z.id. reflexivity.
Qed.

Section Grids.
Context {numerics : Numerics}.

(** The run of the tasks alone, as [pattern_matching] performs it. *)
Lemma dispatch_all_ok (task : nat -> M match_result) threads scheduler n log rs :
  (forall n, scheduler n ≡ₚ seq 0 n) ->
  (if (threads =? 0)%Z then run_in_order task (seq 0 n)
   else if (threads <? 0)%Z then lift (Raise ValueError)
   else pool_map task n (scheduler n)) = (log, Ok rs) ->
  forall j, j < n -> is_ok (task j).2 = true.
Proof.
  intros Hfair H j Hj. destruct (threads =? 0)%Z.
  - eapply run_in_order_all_ok; [exact H | apply elem_of_seq; lia].
  - destruct (threads <? 0)%Z; [discriminate H|].
    eapply pool_map_all_ok; [apply Hfair | exact H | exact Hj].
Qed.

Lemma dispatch_log (task : nat -> M match_result) threads scheduler n ev :
  (forall n, scheduler n ≡ₚ seq 0 n) ->
  ev ∈ (if (threads =? 0)%Z then run_in_order task (seq 0 n)
        else if (threads <? 0)%Z then lift (Raise ValueError)
        else pool_map task n (scheduler n)).1 ->
  exists j, j < n /\ ev ∈ (task j).1.
Proof.
  intros Hfair H. destruct (threads =? 0)%Z.
  - apply run_in_order_log in H as (j & Hj & H). apply elem_of_seq in Hj.
    exists j. split; [lia | exact H].
  - destruct (threads <? 0)%Z; [inversion H|].
    apply pool_map_log in H as (j & Hj & H). rewrite (Hfair n) in Hj.
    apply elem_of_seq in Hj. exists j. split; [lia | exact H].
Qed.

(** *** The mask point by point *)

Lemma good_points_lookup x1_dst y1_dst x2fg y2fg border n1 n2 margin img_size i a b c d e :
  x1_dst !! i = Some a -> y1_dst !! i = Some b -> x2fg !! i = Some c ->
  y2fg !! i = Some d -> border !! i = Some e ->
  good_points x1_dst y1_dst x2fg y2fg border n1 n2 margin img_size !! i
    = Some (point_ok a b c d e n1 n2 margin img_size).
Proof.
  intros Ha Hb Hc Hd He.
  unfold good_points, vand, vgt_s, vlt_s, vsub_s, vadd_s, vsub, vadd.
  repeat first [ rewrite lookup_zip_with | rewrite map_fmap | rewrite list_lookup_fmap ].
  rewrite Ha, Hb, Hc, Hd, He. reflexivity.
Qed.

(** C8. The tasks handed to the matcher are, in order, exactly the query
    points at which all eight strict comparisons hold, that is, whose
    search window on image2 padded by border, half template size and
    margin, and whose template window on image1 padded by the
    half-template diagonal and margin, lie strictly inside the images;
    no task exists for any other point, and every call of the template
    matcher made by [pattern_matching] belongs to one of these tasks. *)
Theorem only_good_points_dispatched lon1_dst lat1_dst n1 x1 y1 n2 x2 y2
    margin img_size kw x1_dst y1_dst x2fg y2fg border gpi :
  first_guess_and_mask lon1_dst lat1_dst n1 x1 y1 n2 x2 y2 margin img_size kw
    = Ok (x1_dst, y1_dst, x2fg, y2fg, border, gpi) ->
  exists globals,
    _init_pool gpi x1_dst y1_dst x2fg y2fg border (band1 n1) (band1 n2) img_size
      (get_initial_rotation n1 n2) kw = Ok globals /\
    (forall i, gpi !! i = Some true <->
       exists a b c d e,
         x1_dst !! i = Some a /\ y1_dst !! i = Some b /\ x2fg !! i = Some c /\
         y2fg !! i = Some d /\ border !! i = Some e /\
         point_ok a b c d e n1 n2 margin img_size = true) /\
    (forall j, j < count_true gpi ->
       exists i a b c d e,
         valid_indices gpi !! j = Some i /\ gpi !! i = Some true /\
         x1_dst !! i = Some a /\ y1_dst !! i = Some b /\ x2fg !! i = Some c /\
         y2fg !! i = Some d /\ border !! i = Some e /\
         task_args globals j = Ok (a, b, c, d, e)) /\
    (forall j, count_true gpi <= j -> task_args globals j = Raise IndexError) /\
    (forall threads scheduler a,
       (forall n, scheduler n ≡ₚ seq 0 n) ->
       EvMatchTemplate a ∈
         (pattern_matching lon1_dst lat1_dst n1 x1 y1 n2 x2 y2
            margin img_size threads kw scheduler).1 ->
       exists j, j < count_true gpi /\ EvMatchTemplate a ∈ (use_mcc_mp globals j).1).
Proof.
  intros Hfg.
  pose proof (length_first_guess_and_mask _ _ _ _ _ _ _ _ _ _ _ _ _ _ _ _ _ Hfg)
    as (H1 & H2 & H3 & H4 & H5).
  assert (forall i, i < length gpi ->
            exists a b c d e,
              x1_dst !! i = Some a /\ y1_dst !! i = Some b /\ x2fg !! i = Some c /\
              y2fg !! i = Some d /\ border !! i = Some e /\
              gpi !! i = Some (point_ok a b c d e n1 n2 margin img_size)) as Hat.
  { intros i Hi.
    destruct (lookup_lt_is_Some_2 x1_dst i) as [a Ha]; [lia|].
    destruct (lookup_lt_is_Some_2 y1_dst i) as [b Hb]; [lia|].
    destruct (lookup_lt_is_Some_2 x2fg i) as [c Hc]; [lia|].
    destruct (lookup_lt_is_Some_2 y2fg i) as [d Hd]; [lia|].
    destruct (lookup_lt_is_Some_2 border i) as [e He]; [lia|].
    exists a, b, c, d, e. repeat split; try assumption.
    unfold first_guess_and_mask in Hfg.
    destruct (transform_points _ _ _) as [xd yd].
    destruct (prepare_first_guess _ _ _ _ _ _ _ _ _ _) as [[[xa xb] xc]|];
      [rewrite ok_bind in Hfg | discriminate Hfg].
    injection Hfg as -> -> -> -> -> <-.
    apply good_points_lookup; assumption. }
  eexists. split; [apply init_pool_ok; assumption|].
  split; [|split; [|split]].
  - intros i. split.
    + intros Hi. destruct (Hat i) as (a & b & c & d & e & Ha & Hb & Hc & Hd & He & Hg).
      { apply lookup_lt_Some in Hi. exact Hi. }
      exists a, b, c, d, e. repeat split; try assumption. congruence.
    + intros (a & b & c & d & e & Ha & Hb & Hc & Hd & He & Hp).
      destruct (Hat i) as (a' & b' & c' & d' & e' & Ha' & Hb' & Hc' & Hd' & He' & Hg).
      { apply lookup_lt_Some in Ha. lia. }
      rewrite Hg. congruence.
  - intros j Hj.
    destruct (lookup_lt_is_Some_2 (valid_indices gpi) j) as [i Hi].
    { rewrite length_valid_indices. exact Hj. }
    assert (gpi !! i = Some true) as Hgi.
    { apply elem_of_valid_indices. eapply list_elem_of_lookup_2. exact Hi. }
    destruct (Hat i) as (a & b & c & d & e & Ha & Hb & Hc & Hd & He & _).
    { apply lookup_lt_Some in Hgi. exact Hgi. }
    exists i, a, b, c, d, e. repeat split; try assumption.
    unfold task_args. cbn [sh_x1 sh_y1 sh_x2fg sh_y2fg sh_border].
    rewrite !py_index_nat, !select_lookup by congruence.
    rewrite Hi. cbn [mbind option_bind]. rewrite Ha, Hb, Hc, Hd, He. reflexivity.
  - intros j Hj. unfold task_args. cbn [sh_x1].
    assert (py_index (select gpi x1_dst) (Z.of_nat j) = Raise IndexError) as ->; [|reflexivity].
    rewrite py_index_nat, lookup_ge_None_2; [reflexivity|].
    rewrite length_select by congruence. exact Hj.
  - intros threads scheduler a Hfair Hev. unfold pattern_matching in Hev.
    rewrite Hfg, bind_lift_ok, init_pool_ok, bind_lift_ok in Hev by assumption.
    apply bind_log in Hev as [Hev|(results & _ & Hev)].
    + eapply dispatch_log; eassumption.
    + exfalso. destruct results as [|r0 results].
      * inversion Hev.
      * rewrite !mask_select_ok, !bind_lift_ok, bind_emit in Hev by assumption.
        cbn [fst] in Hev.
        destruct (get_drift_vectors _ _ _ _ _ _ _) as [[[[[u v] lon1] lat1] lon2] lat2].
        cbn [lift fst] in Hev. apply elem_of_cons in Hev as [Hev|Hev]; [discriminate Hev|].
        inversion Hev.
Qed.

End Grids.

(** ** The first guess *)

Lemma fle_not_nan x y : fle x y = true -> fisnan x = false /\ fisnan y = false.
Proof. intros H. apply fle_rank in H as (? & ? & _). auto. Qed.

Lemma mask_fill_map {A} (p : A -> bool) (y : list A) v :
  mask_fill (map p y) y v = map (fun x => if p x then v else x) y.
Proof.
  unfold mask_fill. induction y as [|x y IH]; [reflexivity|]. cbn. rewrite IH. reflexivity.
Qed.

(** The three assignments of lines 315-317 act on each entry alone. *)
Lemma clamp_border_lookup border y2fg kw i b y :
  border !! i = Some b -> y2fg !! i = Some y ->
  clamp_border border y2fg kw !! i = Some (clamp1 kw b y).
Proof.
  intros Hb Hy. unfold clamp_border, vlt_s, vgt_s, visnan.
  rewrite !mask_fill_map. unfold mask_fill.
  rewrite lookup_zip_with, !map_fmap, !list_lookup_fmap, Hb, Hy. reflexivity.
Qed.

Lemma clamp1_in_range kw b y :
  fle (min_border kw) (max_border kw) = true ->
  (fisnan y = false -> fisnan b = false) ->
  fle (min_border kw) (clamp1 kw b y) = true /\ fle (clamp1 kw b y) (max_border kw) = true.
Proof.
  intros Hmm Hb. destruct (fle_not_nan _ _ Hmm) as [Hmin Hmax].
  unfold clamp1. destruct (fisnan y).
  - split; [exact Hmm | apply fle_refl; exact Hmax].
  - specialize (Hb eq_refl).
    set (b1 := if flt b (min_border kw) then min_border kw else b).
    assert (fisnan b1 = false) as Hb1n by (subst b1; destruct (flt _ _); assumption).
    assert (fle (min_border kw) b1 = true) as Hb1.
    { subst b1. destruct (flt b (min_border kw)) eqn:E;
        [apply fle_refl; exact Hmin | apply fle_total; assumption]. }
    unfold fgt. destruct (flt (max_border kw) b1) eqn:E.
    + split; [exact Hmm | apply fle_refl; exact Hmax].
    + split; [exact Hb1 | apply fle_total; assumption].
Qed.

Lemma lookup_transform_points f xs ys a b i x y :
  transform_points f xs ys = (a, b) -> xs !! i = Some x -> ys !! i = Some y ->
  a !! i = Some (f x y).1 /\ b !! i = Some (f x y).2.
Proof.
  unfold transform_points. intros [= <- <-] Hx Hy.
  rewrite !map_fmap, !list_lookup_fmap, lookup_zip_with, Hx, Hy. auto.
Qed.

Lemma lookup_transform_points_inv f xs ys a b i v :
  transform_points f xs ys = (a, b) -> b !! i = Some v ->
  exists x y, xs !! i = Some x /\ ys !! i = Some y /\ v = (f x y).2.
Proof.
  unfold transform_points. intros [= <- <-].
  rewrite map_fmap, list_lookup_fmap, lookup_zip_with.
  destruct (xs !! i) as [x|]; [|discriminate]. destruct (ys !! i) as [y|]; [|discriminate].
  intros [= <-]. eauto.
Qed.

Lemma clamp_border_lookup_inv border y2fg kw i z :
  clamp_border border y2fg kw !! i = Some z ->
  exists b y, border !! i = Some b /\ y2fg !! i = Some y /\ z = clamp1 kw b y.
Proof.
  unfold clamp_border, vlt_s, vgt_s, visnan.
  rewrite !mask_fill_map. unfold mask_fill.
  rewrite lookup_zip_with, !map_fmap, !list_lookup_fmap.
  destruct (y2fg !! i) as [y|]; [|discriminate].
  destruct (border !! i) as [b|]; [|discriminate].
  intros [= <-]. eauto.
Qed.

Lemma py_index_elem {A} (l : list A) i x : py_index l i = Ok x -> x ∈ l.
Proof.
  unfold py_index. destruct (_ <? 0)%Z; [discriminate|].
  destruct (l !! _) eqn:E; [|discriminate]. intros [= <-].
  eapply list_elem_of_lookup_2. exact E.
Qed.

Lemma collect_elem {A} (l : list (result A)) vs v :
  collect l = Ok vs -> v ∈ vs -> Ok v ∈ l.
Proof.
  revert vs. induction l as [|r l IH]; intros vs H Hv; cbn [collect] in H.
  - injection H as <-. inversion Hv.
  - destruct r as [a|]; [rewrite ok_bind in H | discriminate H].
    destruct (collect l) as [k|]; [rewrite ok_bind in H | discriminate H].
    injection H as <-. apply elem_of_cons in Hv as [->|Hv]; [left | right; eauto].
Qed.

Lemma scatter_Forall {A} (P : A -> Prop) gpi : forall y data,
  Forall P y -> Forall P data -> Forall P (scatter gpi y data).
Proof.
  induction gpi as [|g gs IH]; intros y data Hy Hd; [destruct y; exact Hy|].
  destruct y as [|y0 ys]; [destruct g; constructor|].
  inversion Hy; subst. destruct g; cbn.
  - destruct data as [|d ds]; [|inversion Hd; subst]; constructor; auto.
  - constructor; auto.
Qed.

Lemma mask_assign_Forall {A} (P : A -> Prop) gpi y data y' :
  mask_assign gpi y data = Ok y' -> Forall P y -> Forall P data -> Forall P y'.
Proof.
  unfold mask_assign. destruct (decide _); [|discriminate].
  destruct (decide _).
  - intros [= <-]. apply scatter_Forall.
  - destruct data as [|d [|]]; try discriminate. intros [= <-] Hy Hd.
    apply scatter_Forall; [exact Hy|]. apply Forall_replicate. inversion Hd; assumption.
Qed.

Lemma sq_dist_nonneg r c p : (0 <= sq_dist r c p)%Z.
Proof.
  unfold sq_dist.
  pose proof (Z.square_nonneg (r - p.1)). pose proof (Z.square_nonneg (c - p.2)). lia.
Qed.

Lemma nearest_sq_nonneg seeds r c : (0 <= nearest_sq seeds r c)%Z.
Proof.
  unfold nearest_sq. destruct seeds as [|p ps]; [apply sq_dist_nonneg|].
  induction ps as [|q ps IH]; cbn [foldr]; [apply sq_dist_nonneg|].
  pose proof (sq_dist_nonneg r c q). lia.
Qed.

Lemma edt_value_not_nan seeds r c : fisnan (edt_value seeds r c) = false.
Proof. apply fsqrt_nonneg, of_Z_nonneg, nearest_sq_nonneg. Qed.

Lemma edt_entries shape seeds r c v :
  py_index2 (distance_transform_edt shape seeds) r c = Ok v ->
  exists r' c', v = edt_value seeds r' c'.
Proof.
  unfold py_index2. destruct (py_index _ r) as [row|] eqn:Er; [rewrite ok_bind | discriminate].
  intros Hc. apply py_index_elem in Er, Hc. unfold distance_transform_edt in Er.
  rewrite map_fmap in Er. apply list_elem_of_fmap in Er as (r' & -> & _).
  rewrite map_fmap in Hc. apply list_elem_of_fmap in Hc as (c' & -> & _).
  eauto.
Qed.

Section FirstGuess.
Context {numerics : Numerics}.

(** C4. With at most [min_fg_pts] correspondences, [prepare_first_guess]
    takes the fallback: it returns, every border value is
    [0.0 + max_border * 2], which equals [2 x max_border], and the
    first guess of every query point is its image1-to-image2 coordinate
    transform; no interpolator is consulted. *)
Theorem prepare_first_guess_fallback x1_dst y1_dst n1 x1 y1 n2 x2 y2 img_size kw :
  (Z.of_nat (length x1) <= min_fg_pts kw)%Z ->
  exists x2fg y2fg border,
    prepare_first_guess x1_dst y1_dst n1 x1 y1 n2 x2 y2 img_size kw
      = Ok (x2fg, y2fg, border) /\
    length border = length x1_dst /\
    Forall (fun b => b = fadd f0 (fmul (max_border kw) f2) /\
                     (fisnan (max_border kw) = false ->
                      feq b (fmul (max_border kw) f2) = true)) border /\
    forall i x y, x1_dst !! i = Some x -> y1_dst !! i = Some y ->
      x2fg !! i = Some (geo2pix n2 (pix2geo n1 x y).1 (pix2geo n1 x y).2).1 /\
      y2fg !! i = Some (geo2pix n2 (pix2geo n1 x y).1 (pix2geo n1 x y).2).2.
Proof.
  intros Hfew. unfold prepare_first_guess.
  replace (Z.of_nat (length x1) >? min_fg_pts kw)%Z with false
    by (symmetry; rewrite Z.gtb_ltb; apply Z.ltb_ge; lia).
  destruct (transform_points (pix2geo n1) x1_dst y1_dst) as [lon lat] eqn:E1.
  destruct (transform_points (geo2pix n2) lon lat) as [a b] eqn:E2.
  exists a, b, (zeros_plus (length x1_dst) (fmul (max_border kw) f2)).
  split; [reflexivity|]. split; [apply length_replicate|]. split.
  - apply Forall_replicate. split; [reflexivity|].
    intros Hn. apply feq_fadd_f0, fmul_f2_not_nan, Hn.
  - intros i x y Hx Hy.
    destruct (lookup_transform_points _ _ _ _ _ i x y E1 Hx Hy) as [Hlon Hlat].
    exact (lookup_transform_points _ _ _ _ _ i _ _ E2 Hlon Hlat).
Qed.

Lemma border_distance_not_nan to_pixel x1_dst y1_dst x1 y1 shape1 kw b :
  fisnan (max_border kw) = false ->
  border_distance_with to_pixel x1_dst y1_dst x1 y1 shape1 kw = Ok b ->
  Forall (fun v => fisnan v = false) b.
Proof.
  intros Hmax. unfold border_distance_with, get_distance_to_nearest_keypoint.
  destruct (broadcast2 _ _) as [idx|]; [rewrite ok_bind | discriminate].
  destruct (collect (map _ idx)) as [seeds|]; [rewrite !ok_bind | discriminate].
  destruct (mask_select _ (map to_pixel y1_dst)) as [rows|]; [rewrite ok_bind | discriminate].
  destruct (mask_select _ (map to_pixel x1_dst)) as [cols|]; [rewrite ok_bind | discriminate].
  destruct (collect (zip_with _ rows cols)) as [vals|] eqn:Ev; [rewrite ok_bind | discriminate].
  intros H. eapply mask_assign_Forall; [exact H | |].
  - apply Forall_replicate, fadd_f0_not_nan, Hmax.
  - apply Forall_forall. intros v Hv.
    pose proof (collect_elem _ _ _ Ev Hv) as Hin.
    apply elem_of_zip_with in Hin as (r & c & Hrc & _ & _). symmetry in Hrc.
    apply edt_entries in Hrc as (r' & c' & ->). apply edt_value_not_nan.
Qed.

(** The three assignments of lines 315-317 leave a NaN entry alone
    where the local interpolation of y is a number. *)
Lemma clamp1_nan kw y : fisnan y = false -> clamp1 kw np_nan y = np_nan.
Proof.
  intros Hy. unfold clamp1. rewrite Hy.
  replace (flt np_nan (min_border kw)) with false
    by (destruct (min_border kw) as [|[]| |]; reflexivity).
  replace (fgt np_nan (max_border kw)) with false
    by (unfold fgt; destruct (max_border kw) as [|[]| |]; reflexivity).
  reflexivity.
Qed.

Lemma clamp1_undefined kw b y : fisnan y = true -> clamp1 kw b y = max_border kw.
Proof. intros Hy. unfold clamp1. rewrite Hy. reflexivity. Qed.


End FirstGuess.

(** ** Pixel indices of in-bounds coordinates *)

Lemma digits2_pos_bound m : (Zpos m < 2 ^ Zpos (digits2_pos m))%Z.
Proof.
  induction m as [m IH|m IH|]; cbn [digits2_pos].
  - rewrite Pos2Z.inj_succ, Z.pow_succ_r by lia. lia.
  - rewrite Pos2Z.inj_succ, Z.pow_succ_r by lia. lia.
  - reflexivity.
Qed.

Lemma digits2_pos_lower m : (2 ^ (Zpos (digits2_pos m) - 1) <= Zpos m)%Z.
Proof.
  induction m as [m IH|m IH|]; cbn [digits2_pos].
  - rewrite Pos2Z.inj_succ. replace (Z.succ (Zpos (digits2_pos m)) - 1)%Z
      with (Z.succ (Zpos (digits2_pos m) - 1))%Z by lia.
    rewrite Z.pow_succ_r by lia. lia.
  - rewrite Pos2Z.inj_succ. replace (Z.succ (Zpos (digits2_pos m)) - 1)%Z
      with (Z.succ (Zpos (digits2_pos m) - 1))%Z by lia.
    rewrite Z.pow_succ_r by lia. lia.
  - reflexivity.
Qed.

Lemma digits2_pos_shift p k :
  digits2_pos (Pos.iter xO p k) = (digits2_pos p + k)%positive.
Proof.
  induction k as [|k IH] using Pos.peano_ind.
  - cbn. lia.
  - rewrite Pos.iter_succ. cbn [digits2_pos]. rewrite IH. lia.
Qed.

Lemma shift_value p k : Zpos (Pos.iter xO p k) = (Zpos p * 2 ^ Zpos k)%Z.
Proof.
  induction k as [|k IH] using Pos.peano_ind.
  - cbn. lia.
  - rewrite Pos.iter_succ, Pos2Z.inj_xO, IH, Pos2Z.inj_succ, Z.pow_succ_r by lia. lia.
Qed.

(** Rounding leaves a 53-bit mantissa with an exponent in range alone. *)
Lemma binary_round_aux_canonical s mz ez :
  Zpos (digits2_pos mz) = 53%Z -> (-1074 <= ez <= 971)%Z ->
  binary_round_aux prec emax s (Zpos mz) ez loc_Exact = S754_finite s mz ez.
Proof.
  intros Hd He. unfold binary_round_aux.
  assert (shr_fexp prec emax (Zpos mz) ez loc_Exact
          = ({| shr_m := Zpos mz; shr_r := false; shr_s := false |}, ez)) as E.
  { unfold shr_fexp, fexp, emin, Zdigits2, prec, emax. rewrite Hd.
    replace (Z.max (53 + ez - 53) (3 - 1024 - 53) - ez)%Z with 0%Z by lia. reflexivity. }
  rewrite E. cbn [shr_m loc_of_shr_record round_nearest_even]. rewrite E. cbn [shr_m].
  replace (ez <=? emax - prec)%Z with true; [reflexivity|].
  symmetry. apply Z.leb_le. unfold emax, prec. lia.
Qed.

(** The float64 of a small positive integer, in normal form. *)
Lemma of_Z_small n :
  (1 <= n <= int16_max)%Z ->
  exists m e, of_Z n = S754_finite false m e /\ (e < 0)%Z /\
              (Zpos m = n * 2 ^ (- e))%Z /\ (2 ^ 52 <= Zpos m)%Z.
Proof.
  unfold int16_max. intros Hn. destruct n as [|p|p]; try lia.
  pose proof (digits2_pos_lower p) as Hlo.
  set (d := Zpos (digits2_pos p)) in *.
  assert (d <= 15)%Z as Hd.
  { destruct (Z.le_gt_cases d 15) as [|Hgt]; [assumption|].
    assert (2 ^ 15 <= 2 ^ (d - 1))%Z by (apply Z.pow_le_mono_r; lia). lia. }
  assert (1 <= d)%Z as Hd1 by (subst d; lia).
  unfold of_Z, binary_normalize, binary_round.
  assert (fexp prec emax (Zpos (digits2_pos p) + 0) = d - 53)%Z as Ef.
  { unfold fexp, emin, prec, emax. fold d. lia. }
  rewrite Ef. unfold shl_align.
  destruct (d - 53 - 0)%Z as [|q|q] eqn:Eq; try lia.
  rewrite binary_round_aux_canonical.
  - exists (Pos.iter xO p q), (d - 53)%Z. split; [reflexivity|]. split; [lia|].
    pose proof (digits2_pos_lower (Pos.iter xO p q)) as Hm.
    rewrite digits2_pos_shift in Hm.
    replace (Zpos (digits2_pos p + q) - 1)%Z with 52%Z in Hm by (fold d; lia).
    split; [|exact Hm]. rewrite shift_value. f_equal. f_equal. lia.
  - rewrite digits2_pos_shift. fold d. lia.
  - lia.
Qed.

Lemma float64_digits m e : is_float64 (S754_finite false m e) -> (Zpos (digits2_pos m) <= 53)%Z.
Proof.
  unfold is_float64, valid_binary, bounded, canonical_mantissa, fexp, emin, prec, emax.
  intros H. apply andb_true_iff in H as [H _]. apply Z.eqb_eq in H. lia.
Qed.

(** The 32-bit conversion of a value whose truncation fits 32 bits. *)
Lemma to_int32_fits x z :
  py_int x = Ok z -> (-2147483648 <= z <= 2147483647)%Z -> to_int32 x = z.
Proof.
  intros Hx Hz. unfold to_int32. rewrite Hx.
  replace ((-2147483648 <=? z) && (z <=? 2147483647))%Z with true; [reflexivity|].
  symmetry. apply andb_true_iff. split; apply Z.leb_le; lia.
Qed.

(** A float64 coordinate that passes the bounds check truncates to a
    pixel index of the image, and the cast to int16 keeps it. *)
Lemma in_bounds_index x n :
  is_float64 x -> (Z.of_nat n <= int16_max)%Z ->
  fge x f0 = true -> flt x (of_Z (Z.of_nat n)) = true ->
  exists c, py_int x = Ok c /\ (0 <= c < Z.of_nat n)%Z /\ np_int16 x = c.
Proof.
  intros Hv Hn Hge Hlt. unfold fge in Hge.
  apply fle_rank in Hge as (_ & Hxn & Hge). apply flt_rank in Hlt as (_ & _ & Hlt).
  destruct (Z.eq_dec (Z.of_nat n) 0%Z) as [E0|Hn0].
  { rewrite E0 in Hlt. exfalso. destruct x as [[]|[]| |[] m e]; cbn in *;
      unfold lex_lt in *; cbn in *; try discriminate;
      destruct Hge as [Hge|Hge]; try lia; try discriminate. }
  destruct (of_Z_small (Z.of_nat n)) as (M & E & HM & HE & HMv & HM52); [lia|].
  rewrite HM in Hlt. unfold int16_max in Hn.
  destruct x as [s|[]| |[] m e]; cbn [rank f0] in *; unfold lex_lt in *; cbn [fst snd] in *.
  - exists 0%Z. split; [reflexivity|]. split; [lia|]. destruct s; reflexivity.
  - exfalso. destruct Hge as [Hge|Hge]; [lia | discriminate].
  - exfalso. lia.
  - discriminate.
  - exfalso. destruct Hge as [Hge|Hge]; [lia | discriminate].
  - pose proof (float64_digits m e Hv) as Hd.
    pose proof (digits2_pos_bound m) as Hb.
    assert (Zpos m < 2 ^ 53)%Z as Hm53.
    { eapply Z.lt_le_trans; [exact Hb|]. apply Z.pow_le_mono_r; lia. }
    assert (e < 0)%Z as He by lia.
    destruct e as [|p|p]; try lia.
    set (q := Z.shiftr (Zpos m) (Zpos p)).
    assert (q = Zpos m / 2 ^ Zpos p)%Z as Hq by (apply Z.shiftr_div_pow2; lia).
    assert (0 < 2 ^ Zpos p)%Z as Hpos by (apply Z.pow_pos_nonneg; lia).
    assert (0 <= q)%Z as Hq0 by (rewrite Hq; apply Z.div_pos; lia).
    assert (q < Z.of_nat n)%Z as Hqn.
    { rewrite Hq. apply Z.div_lt_upper_bound; [exact Hpos|].
      destruct Hlt as [Hlt|[_ [Hlt|[Hlt Hlt']]]]; [lia| |].
      - (* smaller exponent *)
        assert (- E + 1 <= Zpos p)%Z as Hp by lia.
        assert (2 ^ (- E + 1) <= 2 ^ Zpos p)%Z as Hpw by (apply Z.pow_le_mono_r; lia).
        rewrite Z.pow_add_r, Z.pow_1_r in Hpw by lia.
        assert (0 < 2 ^ (- E))%Z by (apply Z.pow_pos_nonneg; lia).
        nia.
      - (* equal exponent *)
        assert (Zpos p = - E)%Z as -> by lia. lia. }
    exists q. split; [reflexivity|]. split; [lia|].
    unfold np_int16. rewrite (to_int32_fits _ q) by (reflexivity || lia).
    rewrite Z.mod_small by lia. lia.
Qed.

Lemma scatter_inside {A} gpi : forall (y data : list A) i,
  length y = length gpi -> length data = count_true gpi -> gpi !! i = Some true ->
  scatter gpi y data !! i = data !! task_of_cell gpi i.
Proof.
  unfold task_of_cell.
  induction gpi as [|g gs IH]; intros y data i Hy Hd Hi; [discriminate Hi|].
  destruct y as [|y0 ys]; [discriminate Hy|]. cbn in Hy.
  rewrite count_true_cons in Hd. destruct i as [|i].
  - injection Hi as ->. destruct data as [|d ds]; [discriminate Hd | reflexivity].
  - rewrite lookup_cons in Hi. cbn [take]. rewrite count_true_cons. destruct g.
    + destruct data as [|d ds]; [discriminate Hd|]. cbn in Hd. cbn [scatter].
      rewrite lookup_cons. apply IH; [lia | lia | exact Hi].
    + cbn [scatter]. rewrite lookup_cons. apply IH; [lia | exact Hd | exact Hi].
Qed.

Lemma valid_indices_task_of_cell gpi : forall i,
  gpi !! i = Some true -> valid_indices gpi !! task_of_cell gpi i = Some i.
Proof.
  unfold task_of_cell.
  induction gpi as [|g gs IH]; intros i Hi; [discriminate Hi|].
  rewrite valid_indices_cons. destruct i as [|i].
  - injection Hi as ->. reflexivity.
  - rewrite lookup_cons in Hi. cbn [take]. rewrite count_true_cons.
    destruct g; cbn [app Nat.add]; rewrite ?lookup_cons;
      rewrite map_fmap, list_lookup_fmap, (IH i Hi); reflexivity.
Qed.

Lemma collect_lookup {A} (l : list (result A)) (f : nat -> A) :
  (forall j r, l !! j = Some r -> r = Ok (f j)) ->
  exists vs, collect l = Ok vs /\ length vs = length l /\
             forall j, j < length l -> vs !! j = Some (f j).
Proof.
  revert f. induction l as [|r l IH]; intros f H.
  - exists []. repeat split. intros j Hj. inversion Hj.
  - destruct (IH (fun j => f (S j))) as (vs & Hc & Hl & Hv).
    { intros j r' Hj. apply (H (S j)). exact Hj. }
    exists (f 0 :: vs). cbn [collect]. rewrite (H 0 r eq_refl), ok_bind, Hc, ok_bind.
    split; [reflexivity|]. split; [cbn; lia|].
    intros [|j] Hj; [reflexivity|]. rewrite lookup_cons. apply Hv. cbn in Hj. lia.
Qed.

Lemma collect_seed_index shape seeds :
  Forall (fun p => (p.1 < Z.of_nat shape.1)%Z /\ (p.2 < Z.of_nat shape.2)%Z) seeds ->
  collect (map (seed_index shape) seeds) = Ok seeds.
Proof.
  induction 1 as [|p ps [H1 H2] _ IH]; [reflexivity|].
  cbn [map collect].
  assert (seed_index shape p = Ok p) as ->.
  { unfold seed_index. rewrite (proj2 (Z.ltb_lt _ _) H1), (proj2 (Z.ltb_lt _ _) H2).
    reflexivity. }
  rewrite ok_bind, IH. reflexivity.
Qed.

Lemma edt_lookup shape seeds r c :
  (0 <= r < Z.of_nat shape.1)%Z -> (0 <= c < Z.of_nat shape.2)%Z ->
  py_index2 (distance_transform_edt shape seeds) r c = Ok (edt_value seeds r c).
Proof.
  intros Hr Hc. unfold py_index2, distance_transform_edt.
  rewrite <- (Z2Nat.id r), <- (Z2Nat.id c) by lia.
  rewrite py_index_nat, map_fmap, list_lookup_fmap, lookup_seq_lt by lia.
  cbn [fmap option_fmap option_map]. rewrite ok_bind.
  rewrite py_index_nat, map_fmap, list_lookup_fmap, lookup_seq_lt by lia.
  reflexivity.
Qed.

Lemma in_image_lookup x1_dst y1_dst shape1 i x y :
  x1_dst !! i = Some x -> y1_dst !! i = Some y ->
  vand (vand (vand (vge_s x1_dst f0) (vlt_s x1_dst (of_Z (Z.of_nat shape1.2))))
             (vge_s y1_dst f0))
       (vlt_s y1_dst (of_Z (Z.of_nat shape1.1))) !! i = Some (in_image x y shape1).
Proof.
  intros Hx Hy. unfold vand, vge_s, vlt_s.
  repeat first [ rewrite lookup_zip_with | rewrite map_fmap | rewrite list_lookup_fmap ].
  rewrite Hx, Hy. reflexivity.
Qed.

Section DistanceBorder.
Context {numerics : Numerics}.

(** C9, as the code has it.  Under the distance policy, for float64
    query coordinates and an image1 of at most 32767 rows and columns
    whose correspondence points lie inside it, the border before
    clamping is, at every query point that passes the bounds check, the
    distance-transform value (distance to the nearest correspondence
    point) at the pixel obtained by truncating the coordinates toward
    zero; every other query point gets [0.0 + max_border]. *)
Theorem border_distance_samples_truncated x1_dst y1_dst x1 y1 shape1 kw seeds :
  length y1_dst = length x1_dst ->
  (Z.of_nat shape1.1 <= int16_max)%Z -> (Z.of_nat shape1.2 <= int16_max)%Z ->
  Forall is_float64 x1_dst -> Forall is_float64 y1_dst ->
  broadcast2 (map np_uint16 y1) (map np_uint16 x1) = Ok seeds ->
  Forall (fun p => (p.1 < Z.of_nat shape1.1)%Z /\ (p.2 < Z.of_nat shape1.2)%Z) seeds ->
  exists border,
    border_distance x1_dst y1_dst x1 y1 shape1 kw = Ok border /\
    length border = length x1_dst /\
    forall i x y, x1_dst !! i = Some x -> y1_dst !! i = Some y ->
      if in_image x y shape1
      then exists r c, py_int y = Ok r /\ py_int x = Ok c /\
             (0 <= r < Z.of_nat shape1.1)%Z /\ (0 <= c < Z.of_nat shape1.2)%Z /\
             border !! i = Some (edt_value seeds r c)
      else border !! i = Some (fadd f0 (max_border kw)).
Proof.
  intros Hlen Hrows Hcols Hfx Hfy Hseeds Hin.
  unfold border_distance, border_distance_with, get_distance_to_nearest_keypoint.
  rewrite Hseeds, ok_bind, (collect_seed_index _ _ Hin), !ok_bind.
  set (gpi := vand _ _).
  set (img := distance_transform_edt shape1 seeds).
  assert (length gpi = length x1_dst) as Hg.
  { subst gpi. unfold vand, vge_s, vlt_s. lengths. lia. }
  assert (forall i x y, x1_dst !! i = Some x -> y1_dst !! i = Some y ->
            gpi !! i = Some (in_image x y shape1)) as Hgi
    by (intros; apply in_image_lookup; assumption).
  rewrite !mask_select_ok, !ok_bind by (rewrite length_map; lia).
  (* what each valid point reads from the distance image *)
  assert (forall i x y, x1_dst !! i = Some x -> y1_dst !! i = Some y ->
            in_image x y shape1 = true ->
            exists r c, py_int y = Ok r /\ py_int x = Ok c /\
              (0 <= r < Z.of_nat shape1.1)%Z /\ (0 <= c < Z.of_nat shape1.2)%Z /\
              np_int16 y = r /\ np_int16 x = c) as Hpix.
  { intros i x y Hx Hy Hb. unfold in_image in Hb.
    apply andb_true_iff in Hb as [Hb H4]. apply andb_true_iff in Hb as [Hb H3].
    apply andb_true_iff in Hb as [H1 H2].
    rewrite Forall_lookup in Hfx, Hfy.
    destruct (in_bounds_index x shape1.2 (Hfx i x Hx) Hcols H1 H2) as (c & Hc & Hcr & Hc16).
    destruct (in_bounds_index y shape1.1 (Hfy i y Hy) Hrows H3 H4) as (r & Hr & Hrr & Hr16).
    exists r, c. auto 10. }
  set (rows := select gpi (map np_int16 y1_dst)).
  set (cols := select gpi (map np_int16 x1_dst)).
  set (sample j := match valid_indices gpi !! j with
                   | Some i => edt_value seeds (np_int16 (nth i y1_dst f0))
                                               (np_int16 (nth i x1_dst f0))
                   | None => f0
                   end).
  destruct (collect_lookup (zip_with (py_index2 img) rows cols) sample)
    as (vals & Hvals & Hvlen & Hvat).
  { intros j res Hj. rewrite lookup_zip_with in Hj. subst rows cols.
    rewrite !select_lookup in Hj by (rewrite length_map; lia).
    unfold sample. destruct (valid_indices gpi !! j) as [i|] eqn:Ei; [|discriminate Hj].
    cbn [mbind option_bind] in Hj. rewrite !map_fmap, !list_lookup_fmap in Hj.
    assert (gpi !! i = Some true) as Hti.
    { apply elem_of_valid_indices. eapply list_elem_of_lookup_2. exact Ei. }
    destruct (lookup_lt_is_Some_2 x1_dst i) as [x Hx].
    { apply lookup_lt_Some in Hti. lia. }
    destruct (lookup_lt_is_Some_2 y1_dst i) as [y Hy].
    { apply lookup_lt_Some in Hti. lia. }
    rewrite Hx, Hy in Hj. cbn in Hj. injection Hj as <-.
    rewrite (nth_lookup_Some _ _ _ _ Hx), (nth_lookup_Some _ _ _ _ Hy).
    rewrite (Hgi i x y Hx Hy) in Hti. injection Hti as Hti.
    destruct (Hpix i x y Hx Hy Hti) as (r & c & _ & _ & Hr & Hc & -> & ->).
    apply edt_lookup; assumption. }
  rewrite Hvals, ok_bind.
  assert (length vals = count_true gpi) as Hvc.
  { rewrite Hvlen, length_zip_with. subst rows cols.
    rewrite !length_select by (rewrite length_map; lia). lia. }
  unfold mask_assign.
  destruct (decide (length gpi = length (zeros_plus (length x1_dst) (max_border kw))))
    as [_|N]; [|exfalso; apply N; unfold zeros_plus; rewrite length_replicate; exact Hg].
  destruct (decide (length vals = count_true gpi)) as [_|N]; [|contradiction].
  eexists. split; [reflexivity|]. split.
  { rewrite length_scatter. unfold zeros_plus. apply length_replicate. }
  intros i x y Hx Hy. specialize (Hgi i x y Hx Hy).
  destruct (in_image x y shape1) eqn:Eb.
  - destruct (Hpix i x y Hx Hy Eb) as (r & c & Hr & Hc & Hrr & Hcr & Hr16 & Hc16).
    exists r, c. repeat split; try assumption; try lia.
    rewrite scatter_inside;
      [| unfold zeros_plus; rewrite length_replicate; lia | exact Hvc | exact Hgi].
    rewrite Hvat by (rewrite <- Hvlen, Hvc; apply task_of_cell_lt, Hgi).
    unfold sample. rewrite (valid_indices_task_of_cell gpi i Hgi).
    rewrite (nth_lookup_Some _ _ _ _ Hx), (nth_lookup_Some _ _ _ _ Hy), Hr16, Hc16.
    reflexivity.
  - rewrite scatter_outside by (rewrite Hgi; discriminate).
    apply lookup_zeros_plus. apply lookup_lt_Some in Hx. exact Hx.
Qed.

End DistanceBorder.

(** ** Evaluations on the sample data *)

Example py_int_truncates : py_int (fdiv (of_Z (-7)) f2) = Ok (-3)%Z.
Proof. reflexivity. Qed.

Example py_round_ties_to_even :
  py_round (fdiv (of_Z 5) f2) = Ok 2%Z /\ py_round (fdiv (of_Z 7) f2) = Ok 4%Z
  /\ py_round (fdiv (of_Z (-3)) f2) = Ok (-2)%Z.
Proof. repeat split; reflexivity. Qed.

Example np_ceil_values :
  np_ceil (fdiv (of_Z 7) f2) = of_Z 4 /\ np_ceil (fdiv (of_Z (-7)) f2) = of_Z (-3)
  /\ np_ceil (fdiv (of_Z (-1)) f2) = S754_zero true.
Proof. repeat split; reflexivity. Qed.

(** The casts to 16 bits: wrap-around within the 32-bit range, zero
    beyond it and for NaN. *)
Example np_casts_wrap :
  np_uint16 (of_Z 65537) = 1%Z /\ np_uint16 (of_Z (-1)) = 65535%Z /\
  np_uint16 (fdiv (of_Z 7) f2) = 3%Z /\ np_uint16 (of_Z 2147483647) = 65535%Z /\
  np_uint16 (of_Z 2147483649) = 0%Z /\ np_uint16 (of_Z 2147483668) = 0%Z /\
  np_uint16 np_nan = 0%Z /\
  np_int16 (of_Z 33000) = (-32536)%Z /\ np_int16 (of_Z 2147483649) = 0%Z.
Proof. repeat split; vm_compute; reflexivity. Qed.

Example py_slice_wraps : py_slice (-1) 4 [10; 11; 12; 13; 14; 15]%Z = [] /\
                         py_slice 2 9 [10; 11; 12; 13; 14; 15]%Z = [12; 13; 14; 15]%Z.
Proof. split; reflexivity. Qed.

Lemma backwards_fair n : backwards n ≡ₚ seq 0 n.
Proof. apply reverse_Permutation. Qed.

(** Matching the sample image against itself: both ways of running the
    four tasks give the same grids, and the two edge cells are NaN. *)
Example pattern_matching_sample :
  returned (pattern_matching sample_lon sample_lat sample_nansat sample_x1 sample_y1
              sample_nansat sample_x1 sample_y1 0 3 4 sample_options backwards).2 =
  returned (pattern_matching sample_lon sample_lat sample_nansat sample_x1 sample_y1
              sample_nansat sample_x1 sample_y1 0 3 0 sample_options backwards).2 /\
  (gdata ∘ out_r) <$>
    returned (pattern_matching sample_lon sample_lat sample_nansat sample_x1 sample_y1
                sample_nansat sample_x1 sample_y1 0 3 0 sample_options backwards).2
  = Some [f0; f0; np_nan; f0; f0; np_nan].
Proof. split; vm_compute; reflexivity. Qed.

(** C1. At a query point in the last column of image1 the rotated crop
    is one column short, [rotate_and_match] returns its six NaN, and
    [use_mcc] raises ValueError instead of returning a NaN result;
    called through [pattern_matching] (here with a negative margin,
    which admits the point) the exception ends the whole run. *)
Theorem use_mcc_raises_on_short_template :
  (rotate_and_match sample_image (of_Z 15) (of_Z 8) 5 (slice2 4 13 4 13 sample_image) f0
     sample_options).2 = Ok nan_tuple /\
  use_mcc (of_Z 15) (of_Z 8) (of_Z 8) (of_Z 8) f2 sample_image sample_image 5 f0
    sample_options = ([], Raise ValueError) /\
  (exists gpi, first_guess_and_mask edge_lon edge_lat sample_nansat sample_x1 sample_y1
                 sample_nansat sample_x1 sample_y1 (-4) 5 sample_options
               = Ok (gdata edge_lon, gdata edge_lat, gdata edge_lon, gdata edge_lat,
                     [f2; f2], gpi) /\ gpi = [true; true]) /\
  (pattern_matching edge_lon edge_lat sample_nansat sample_x1 sample_y1
     sample_nansat sample_x1 sample_y1 (-4) 5 0 sample_options backwards).2
    = Raise ValueError.
Proof.
  split; [vm_compute; reflexivity|]. split; [vm_compute; reflexivity|].
  split; [eexists; split; vm_compute; reflexivity | vm_compute; reflexivity].
Qed.

(** C2, on the sample data with five workers completing in descending
    order. *)
Lemma pattern_matching_threads_equivalent_witness :
  returned (pattern_matching sample_lon sample_lat sample_nansat sample_x1 sample_y1
              sample_nansat sample_x1 sample_y1 0 3 5 sample_options backwards).2 =
  returned (pattern_matching sample_lon sample_lat sample_nansat sample_x1 sample_y1
              sample_nansat sample_x1 sample_y1 0 3 0 sample_options backwards).2.
Proof.
  apply pattern_matching_threads_equivalent; [lia | exact backwards_fair].
Defined.

(** C3, near the right edge of the wide image with the default template
    size: the crop for angle 0 is full-size and is matched, the crop for
    angle 3 is one column short. *)
Lemma rotate_and_match_short_template_witness :
  exists log,
    rotate_and_match wide_image (of_Z 31) (of_Z 24) 35 (slice2 5 44 5 44 wide_image) f0
      sample_options_two = (log, Ok nan_tuple) /\
    Forall (fun v => v = PyFloat np_nan) nan_tuple /\
    forall a', EvMatchTemplate a' ∈ log -> a' ∈ [f0].
Proof.
  eapply (rotate_and_match_short_template wide_image (of_Z 31) (of_Z 24) 35
            (slice2 5 44 5 44 wide_image) f0 sample_options_two [f0] (of_Z 3) []).
  - reflexivity.
  - vm_compute. reflexivity.
  - vm_compute. reflexivity.
  - constructor; [|constructor].
    eexists. split; [vm_compute; reflexivity|].
    right. eexists. split; [vm_compute; reflexivity | discriminate].
Defined.

(** C4, with four correspondences against a threshold of five. *)
Lemma prepare_first_guess_fallback_witness :
  exists x2fg y2fg border,
    prepare_first_guess (gdata sample_lon) (gdata sample_lat) sample_nansat
      sample_x1 sample_y1 sample_nansat sample_x1 sample_y1 3 sample_options_few
      = Ok (x2fg, y2fg, border) /\
    length border = length (gdata sample_lon) /\
    Forall (fun b => b = fadd f0 (fmul (max_border sample_options_few) f2) /\
                     (fisnan (max_border sample_options_few) = false ->
                      feq b (fmul (max_border sample_options_few) f2) = true)) border /\
    forall i x y, gdata sample_lon !! i = Some x -> gdata sample_lat !! i = Some y ->
      x2fg !! i = Some (geo2pix sample_nansat (pix2geo sample_nansat x y).1
                                              (pix2geo sample_nansat x y).2).1 /\
      y2fg !! i = Some (geo2pix sample_nansat (pix2geo sample_nansat x y).1
                                              (pix2geo sample_nansat x y).2).2.
Proof.
  apply prepare_first_guess_fallback. vm_compute. discriminate.
Defined.


(** With the bounds out of order the second assignment undoes the
    first: every entry ends at [max_border], below [min_border]. *)
Example prepare_first_guess_bounds_out_of_order :
  exists x2fg y2fg,
    prepare_first_guess (gdata sample_lon) (gdata sample_lat) sample_nansat
      sample_x1 sample_y1 sample_nansat sample_x1 sample_y1 3 sample_options_swapped
    = Ok (x2fg, y2fg, replicate 6 (of_Z 2)) /\
    fle (min_border sample_options_swapped) (of_Z 2) = false.
Proof. eexists _, _. split; vm_compute; reflexivity. Qed.


(** C6. The defect of C1 seen from [pattern_matching].  On the edge grid
    with margin -4 the mask lets both cells through; the crop for cell 0
    is a column short, so [rotate_and_match] returns its six NaN and the
    matching of that cell fails.  The run does not return seven grids
    with that cell NaN in each: in order or on a pool of workers,
    whichever task completes first, it raises ValueError. *)
Theorem pattern_matching_failed_cell_raises :
  (exists x1_dst y1_dst x2fg y2fg border gpi,
     first_guess_and_mask edge_lon edge_lat sample_nansat sample_x1 sample_y1
       sample_nansat sample_x1 sample_y1 (-4) 5 sample_options
     = Ok (x1_dst, y1_dst, x2fg, y2fg, border, gpi) /\ gpi !! 0 = Some true) /\
  (rotate_and_match sample_image (of_Z 15) (of_Z 8) 5 (slice2 4 13 4 13 sample_image) f0
     sample_options).2 = Ok nan_tuple /\
  (use_mcc_mp edge_globals 0).2 = Raise ValueError /\
  (pattern_matching edge_lon edge_lat sample_nansat sample_x1 sample_y1
     sample_nansat sample_x1 sample_y1 (-4) 5 0 sample_options backwards).2
    = Raise ValueError /\
  (pattern_matching edge_lon edge_lat sample_nansat sample_x1 sample_y1
     sample_nansat sample_x1 sample_y1 (-4) 5 2 sample_options backwards).2
    = Raise ValueError /\
  (pattern_matching edge_lon edge_lat sample_nansat sample_x1 sample_y1
     sample_nansat sample_x1 sample_y1 (-4) 5 2 sample_options (seq 0)).2
    = Raise ValueError.
Proof.
  split; [eexists _, _, _, _, _, _; split; vm_compute; reflexivity|].
  repeat split; vm_compute; reflexivity.
Qed.

(** C7, with three candidate angles of equal score: the first wins. *)
Lemma rotate_and_match_first_maximal_witness :
  exists log dx dy a r h res bt,
    rotate_and_match sample_image (of_Z 6) (of_Z 6) 3 (slice2 3 10 3 10 sample_image) f0
      sample_options_angles = (log, Ok [dx; dy; PyFloat a; r; h; PySurface res; bt]) /\
    a = of_Z (-3) /\
    exists k s,
      angles sample_options_angles !! k = Some a /\
      angle_score sample_image (of_Z 6) (of_Z 6) 3 (slice2 3 10 3 10 sample_image) f0
        sample_options_angles a = Ok s /\
      (mcc_norm sample_options_angles = false -> r = PyFloat s) /\
      forall j a' s', angles sample_options_angles !! j = Some a' ->
        angle_score sample_image (of_Z 6) (of_Z 6) 3 (slice2 3 10 3 10 sample_image) f0
          sample_options_angles a' = Ok s' ->
        fgt s' s = false /\ (j < k -> fge s' s = false).
Proof.
  assert (rotate_and_match sample_image (of_Z 6) (of_Z 6) 3 (slice2 3 10 3 10 sample_image) f0
            sample_options_angles = (_, Ok [_; _; PyFloat _; _; _; PySurface _; _])) as Hrun
    by (vm_compute; reflexivity).
  destruct (rotate_and_match_first_maximal _ _ _ _ _ _ _ _ _ _ _ _ _ _ _ Hrun) as [Hbest _].
  eexists _, _, _, _, _, _, _, _. split; [exact Hrun|]. split; [reflexivity | exact Hbest].
Defined.

(** C8, on the sample data. *)
Lemma only_good_points_dispatched_witness :
  exists x1_dst y1_dst x2fg y2fg border gpi globals,
    first_guess_and_mask sample_lon sample_lat sample_nansat sample_x1 sample_y1
      sample_nansat sample_x1 sample_y1 0 3 sample_options
      = Ok (x1_dst, y1_dst, x2fg, y2fg, border, gpi) /\
    gpi = [true; true; false; true; true; false] /\
    _init_pool gpi x1_dst y1_dst x2fg y2fg border (band1 sample_nansat) (band1 sample_nansat)
      3 (get_initial_rotation sample_nansat sample_nansat) sample_options = Ok globals /\
    (forall j, j < count_true gpi ->
       exists i a b c d e,
         valid_indices gpi !! j = Some i /\ gpi !! i = Some true /\
         x1_dst !! i = Some a /\ y1_dst !! i = Some b /\ x2fg !! i = Some c /\
         y2fg !! i = Some d /\ border !! i = Some e /\
         task_args globals j = Ok (a, b, c, d, e)) /\
    (forall j, count_true gpi <= j -> task_args globals j = Raise IndexError).
Proof.
  eexists _, _, _, _, _, _.
  assert (first_guess_and_mask sample_lon sample_lat sample_nansat sample_x1 sample_y1
            sample_nansat sample_x1 sample_y1 0 3 sample_options = Ok _) as Hfg
    by (vm_compute; reflexivity).
  destruct (only_good_points_dispatched _ _ _ _ _ _ _ _ _ _ _ _ _ _ _ _ _ Hfg)
    as (globals & Hinit & _ & Htasks & Hnone & _).
  exists globals. split; [exact Hfg|]. split; [reflexivity|]. auto.
Defined.

(** C9 as worded fails: at x = 1.75 the code samples column 1 of the
    distance image, the rounded location is column 2. *)
Lemma border_distance_not_rounded :
  border_distance [fdiv (of_Z 7) (of_Z 4)] [f0] [f0] [f0] (1, 4) sample_options = Ok [f1] /\
  border_distance_as_specified [fdiv (of_Z 7) (of_Z 4)] [f0] [f0] [f0] (1, 4) sample_options
    = Ok [f2] /\
  f1 <> f2.
Proof. split; [vm_compute; reflexivity|]. split; [vm_compute; reflexivity | discriminate]. Qed.

(** Rounding would also leave the image: at x = 3.75 in a row of four
    pixels the bounds check passes and the rounded column is 4. *)
Example border_distance_rounding_overruns :
  border_distance_as_specified [fdiv (of_Z 15) (of_Z 4)] [f0] [f0] [f0] (1, 4) sample_options
    = Raise IndexError /\
  border_distance [fdiv (of_Z 15) (of_Z 4)] [f0] [f0] [f0] (1, 4) sample_options
    = Ok [of_Z 3].
Proof. split; vm_compute; reflexivity. Qed.

(** Past the int16 range the pixel index wraps: on a row of 40000
    pixels the point x = 33000 passes the bounds check, is cast to
    -32536 and reads column 7464 instead of its own. *)
Example border_distance_wraps_past_int16 :
  in_image (of_Z 33000) f0 (1, Z.to_nat 40000) = true /\
  np_int16 (of_Z 33000) = (-32536)%Z /\
  border_distance [of_Z 33000] [f0] [f0] [f0] (1, Z.to_nat 40000) sample_options
    = Ok [of_Z 7464] /\
  edt_value [(0, 0)%Z] 0 33000 = of_Z 33000.
Proof. repeat split; vm_compute; reflexivity. Qed.

(** C9 amended, on the query points of the sample grid. *)
Lemma border_distance_samples_truncated_witness :
  exists border,
    border_distance (gdata sample_lon) (gdata sample_lat) sample_x1 sample_y1 (16, 16)
      sample_options = Ok border /\
    length border = length (gdata sample_lon) /\
    forall i x y, gdata sample_lon !! i = Some x -> gdata sample_lat !! i = Some y ->
      if in_image x y (16, 16)
      then exists r c, py_int y = Ok r /\ py_int x = Ok c /\
             (0 <= r < Z.of_nat 16)%Z /\ (0 <= c < Z.of_nat 16)%Z /\
             border !! i = Some (edt_value [(3, 2); (4, 12); (11, 7); (9, 3)]%Z r c)
      else border !! i = Some (fadd f0 (max_border sample_options)).
Proof.
  apply (border_distance_samples_truncated (gdata sample_lon) (gdata sample_lat)
           sample_x1 sample_y1 (16, 16) sample_options [(3, 2); (4, 12); (11, 7); (9, 3)]%Z).
  - reflexivity.
  - vm_compute. discriminate.
  - vm_compute. discriminate.
  - repeat constructor.
  - repeat constructor.
  - vm_compute. reflexivity.
  - repeat constructor.
Defined.

(** C10, with a margin that no query point of the sample grid meets. *)
Lemma pattern_matching_nothing_valid_witness :
  pattern_matching sample_lon sample_lat sample_nansat sample_x1 sample_y1
    sample_nansat sample_x1 sample_y1 100 3 5 sample_options backwards
    = ([], Ok (nan_outputs (gshape sample_lon))) /\
  Forall (fun g => gshape g = gshape sample_lon /\ wf_grid g /\
                   Forall (fun v => v = np_nan) (gdata g))
         (grids_of (nan_outputs (gshape sample_lon))).
Proof.
  eapply (pattern_matching_nothing_valid sample_lon sample_lat sample_nansat
            sample_x1 sample_y1 sample_nansat sample_x1 sample_y1 100 3 5 sample_options
            backwards).
  - vm_compute. reflexivity.
  - repeat constructor.
  - lia.
  - exact backwards_fair.
Defined.

(** ** More on the angle search *)

Section AngleSearchOutcome.
Context {numerics : Numerics}.
Variables (img1 : image) (x y : float) (img_size : Z) (image2 : image)
          (alpha0 : float) (kw : options).

Local Abbreviation loop := (angle_loop img1 x y img_size image2 alpha0 kw).
Local Abbreviation score := (angle_score img1 x y img_size image2 alpha0 kw).
Local Abbreviation crop a := (get_rotated_template img1 y x img_size (fsub a alpha0) kw).
Local Abbreviation consistent := (best_consistent img1 x y img_size image2 alpha0 kw).

Lemma angle_score_inv a s :
  score a = Ok s ->
  exists t res k, crop a = Ok t /\
    template_matcher kw image2 (astype_uint8 t) (mtype kw) = Ok res /\
    np_argmax res = Ok k /\ np_max res = Ok s.
Proof.
  unfold angle_score. intros H.
  destruct (crop a) as [t|e]; [|discriminate]. rewrite ok_bind in H.
  destruct (template_matcher _ _ _ _) as [res|e] eqn:Hm; [|discriminate].
  rewrite ok_bind in H.
  destruct (np_argmax res) as [k|e] eqn:Hk; [|discriminate]. rewrite ok_bind in H.
  exists t, res, k. auto.
Qed.

Lemma angle_loop_step a rest st t res k mx :
  crop a = Ok t -> too_small img_size t = false ->
  template_matcher kw image2 (astype_uint8 t) (mtype kw) = Ok res ->
  np_argmax res = Ok k -> np_max res = Ok mx ->
  loop (a :: rest) st =
    (EvMatchTemplate a :: (loop rest (update_best st a t res (np_unravel_index k res) mx)).1,
     (loop rest (update_best st a t res (np_unravel_index k res) mx)).2).
Proof.
  intros Ht Hs Hm Hk Hx. cbn [angle_loop]. rewrite Ht, bind_lift_ok.
  unfold too_small in Hs. rewrite Hs, bind_emit. cbn [fst snd].
  rewrite Hm, bind_lift_ok, Hk, bind_lift_ok, Hx, bind_lift_ok. reflexivity.
Qed.

(** The log of a loop that runs to its end. *)
Lemma angle_loop_log todo : forall st l st',
  loop todo st = (l, Ok (inr st')) -> l = map EvMatchTemplate todo.
Proof.
  induction todo as [|a rest IH]; intros st l st' H.
  - cbn in H. injection H as <- _. reflexivity.
  - pose proof H as H0.
    apply angle_loop_cons_inv in H as (t & res & k & mx & l' & Ht & Hm & Hk & Hsc & Hrest).
    cbn [angle_loop] in H0. rewrite Ht, bind_lift_ok in H0.
    destruct (_ || _) eqn:Hs; [discriminate|].
    apply angle_score_inv in Hsc as (t' & res' & k' & Ht' & Hm' & Hk' & Hx).
    rewrite Ht in Ht'. injection Ht' as <-. rewrite Hm in Hm'. injection Hm' as <-.
    rewrite bind_emit, Hm, bind_lift_ok, Hk, bind_lift_ok, Hx, bind_lift_ok in H0.
    cbn [fst snd] in H0. rewrite Hrest in H0. cbn [fst snd] in H0.
    injection H0 as <-. cbn [map]. f_equal. eapply IH. exact Hrest.
Qed.

(** *** No candidate qualifies *)

Lemma not_above_neg_inf s : fisnan s = true \/ s = neg_inf -> fgt s neg_inf = false.
Proof. intros [H| ->]; [destruct s; try discriminate|]; reflexivity. Qed.

Lemma angle_loop_none todo : forall st,
  Forall (fun a => exists t s, crop a = Ok t /\ too_small img_size t = false /\
             score a = Ok s /\ (fisnan s = true \/ s = neg_inf)) todo ->
  ls_best_r st = neg_inf -> ls_best st = None ->
  exists st', loop todo st = (map EvMatchTemplate todo, Ok (inr st')) /\ ls_best st' = None.
Proof.
  induction todo as [|a rest IH]; intros st Hall Hr Hb.
  - exists st. split; [reflexivity | exact Hb].
  - inversion Hall as [|? ? (t & s & Ht & Hs & Hsc & Hlow) Hrest]; subst.
    apply angle_score_inv in Hsc as (t' & res & k & Ht' & Hm & Hk & Hx).
    rewrite Ht in Ht'. injection Ht' as <-.
    rewrite (angle_loop_step a rest st t res k s Ht Hs Hm Hk Hx).
    apply not_above_neg_inf in Hlow. rewrite <- Hr in Hlow.
    destruct (update_best_keeps st a t res (np_unravel_index k res) s Hlow) as [Hr' Hb'].
    destruct (IH (update_best st a t res (np_unravel_index k res) s) Hrest) as (st' & Hl & Hn).
    + rewrite Hr'. exact Hr.
    + rewrite Hb'. exact Hb.
    + exists st'. rewrite Hl. split; [reflexivity | exact Hn].
Qed.

(** X1. When every candidate angle yields a full-size crop but no
    correlation maximum above minus infinity (each maximum is NaN or
    minus infinity), and in particular when the list of angles is empty,
    the names [best_result] and [best_ij] are never bound:
    [rotate_and_match] calls the matcher for every angle and then raises
    UnboundLocalError at line 168. *)
Theorem rotate_and_match_no_candidate :
  Forall (fun a => exists t s, crop a = Ok t /\ too_small img_size t = false /\
             score a = Ok s /\ (fisnan s = true \/ s = neg_inf)) (angles kw) ->
  rotate_and_match img1 x y img_size image2 alpha0 kw
    = (map EvMatchTemplate (angles kw), Raise UnboundLocalError).
Proof.
  intros Hall. unfold rotate_and_match.
  destruct (angle_loop_none (angles kw)
              {| ls_best_r := neg_inf; ls_best := None; ls_template := None |} Hall)
    as (st' & Hl & Hn); [reflexivity | reflexivity |].
  rewrite Hl. unfold mbind, M_bind. rewrite Hn. cbn. rewrite app_nil_r. reflexivity.
Qed.

(** *** What a successful search returns *)

Lemma argmax_from_lookup l : forall pre bi bv,
  pre !! bi = Some bv ->
  (pre ++ l) !! (argmax_from l (length pre) bi bv).1
    = Some (argmax_from l (length pre) bi bv).2.
Proof.
  induction l as [|v l IH]; intros pre bi bv Hpre.
  - cbn. rewrite app_nil_r. exact Hpre.
  - cbn [argmax_from]. replace (pre ++ v :: l) with ((pre ++ [v]) ++ l)
      by (rewrite <- app_assoc; reflexivity).
    replace (S (length pre)) with (length (pre ++ [v]))
      by (rewrite length_app; cbn; lia).
    destruct (np_better v bv).
    + apply IH. rewrite lookup_app_r by lia. rewrite Nat.sub_diag. reflexivity.
    + apply IH. rewrite lookup_app_l; [exact Hpre|]. eapply lookup_lt_Some. exact Hpre.
Qed.

Lemma np_argmax_max res k mx :
  np_argmax res = Ok k -> np_max res = Ok mx -> concat res !! k = Some mx.
Proof.
  unfold np_argmax, np_max. destruct (concat res) as [|v l]; [discriminate|].
  intros [= <-] [= <-]. exact (argmax_from_lookup l [v] 0 v eq_refl).
Qed.

Lemma argmax_from_nan l : forall i bi, argmax_from l i bi np_nan = (bi, np_nan).
Proof. induction l as [|v l IH]; intros i bi; [reflexivity|]. cbn. apply IH. Qed.

Lemma fle_flt_trans a b c : fle a b = true -> flt b c = true -> flt a c = true.
Proof.
  rewrite fle_rank, !flt_rank. unfold lex_lt.
  intros (? & ? & [?|E]) (? & ? & ?); repeat split; try assumption; [lia|].
  rewrite E. assumption.
Qed.

(** [np.argmax] and [np.max] of an array whose maximum is a number: the
    array holds no NaN, nothing exceeds the maximum, and everything
    before the reported position is smaller. *)
Lemma argmax_from_spec l : forall pre bi bv,
  pre !! bi = Some bv ->
  (forall j v, pre !! j = Some v ->
     fisnan v = false /\ fle v bv = true /\ (j < bi -> flt v bv = true)) ->
  fisnan (argmax_from l (length pre) bi bv).2 = false ->
  forall j v, (pre ++ l) !! j = Some v ->
    fisnan v = false /\ fle v (argmax_from l (length pre) bi bv).2 = true /\
    (j < (argmax_from l (length pre) bi bv).1 ->
     flt v (argmax_from l (length pre) bi bv).2 = true).
Proof.
  induction l as [|w l IH]; intros pre bi bv Hbi Hpre Hnan.
  - cbn. rewrite app_nil_r. exact Hpre.
  - cbn [argmax_from] in *.
    replace (pre ++ w :: l) with ((pre ++ [w]) ++ l) by (rewrite <- app_assoc; reflexivity).
    replace (S (length pre)) with (length (pre ++ [w])) in *
      by (rewrite length_app; cbn; lia).
    assert (fisnan bv = false) as Hbv by (destruct (Hpre bi bv Hbi) as [? _]; assumption).
    destruct (np_better w bv) eqn:Eb.
    + unfold np_better in Eb. rewrite Hbv in Eb. cbn [negb andb] in Eb.
      destruct (fisnan w) eqn:Ew.
      { destruct w; try discriminate Ew. rewrite argmax_from_nan in Hnan. discriminate Hnan. }
      cbn [orb] in Eb. unfold fgt in Eb.
      apply IH; [rewrite lookup_app_r, Nat.sub_diag by lia; reflexivity | | exact Hnan].
      intros j v Hj. destruct (decide (j < length pre)) as [Hlt|Hge].
      * rewrite lookup_app_l in Hj by exact Hlt.
        destruct (Hpre j v Hj) as (Hv & Hle & _).
        pose proof (fle_flt_trans _ _ _ Hle Eb) as Hvw.
        split; [exact Hv|]. split; [apply flt_fle; exact Hvw | intros _; exact Hvw].
      * rewrite lookup_app_r in Hj by lia.
        destruct (j - length pre) as [|n] eqn:En; [|destruct n; discriminate Hj].
        injection Hj as <-. split; [exact Ew|]. split; [apply fle_refl; exact Ew | lia].
    + unfold np_better in Eb. rewrite Hbv in Eb. cbn [negb andb] in Eb.
      apply orb_false_iff in Eb as [Ew Egt]. unfold fgt in Egt.
      apply IH; [rewrite lookup_app_l; [exact Hbi | eapply lookup_lt_Some; exact Hbi]
                | | exact Hnan].
      intros j v Hj. destruct (decide (j < length pre)) as [Hlt|Hge].
      * rewrite lookup_app_l in Hj by exact Hlt. exact (Hpre j v Hj).
      * rewrite lookup_app_r in Hj by lia.
        destruct (j - length pre) as [|n] eqn:En; [|destruct n; discriminate Hj].
        injection Hj as <-. split; [exact Ew|].
        split; [apply fle_total; assumption|].
        intros Hlt. apply lookup_lt_Some in Hbi. lia.
Qed.

Lemma np_argmax_spec res k mx :
  np_argmax res = Ok k -> np_max res = Ok mx -> fisnan mx = false ->
  forall j v, concat res !! j = Some v ->
    fisnan v = false /\ fle v mx = true /\ (j < k -> flt v mx = true).
Proof.
  unfold np_argmax, np_max. destruct (concat res) as [|v0 l]; [discriminate|].
  intros [= <-] [= <-] Hnan.
  assert (fisnan v0 = false) as Hv0.
  { destruct v0; try reflexivity. rewrite argmax_from_nan in Hnan. discriminate Hnan. }
  apply (argmax_from_spec l [v0] 0 v0 eq_refl); [|exact Hnan].
  intros [|j] v Hj; [|discriminate Hj]. injection Hj as <-.
  split; [exact Hv0|]. split; [apply fle_refl; exact Hv0 | lia].
Qed.

Lemma consistent_start :
  consistent [] {| ls_best_r := neg_inf; ls_best := None; ls_template := None |}.
Proof. split; [reflexivity | exact I]. Qed.

Lemma update_best_consistent done st a t res k mx :
  crop a = Ok t ->
  template_matcher kw image2 (astype_uint8 t) (mtype kw) = Ok res ->
  np_argmax res = Ok k -> np_max res = Ok mx ->
  consistent done st ->
  consistent (done ++ [a]) (update_best st a t res (np_unravel_index k res) mx).
Proof.
  intros Ht Hm Hk Hx [Hlast Hbest]. unfold update_best.
  destruct (fgt mx (ls_best_r st)) eqn:Hgt; split; cbn.
  - rewrite last_snoc. cbn. rewrite Ht. reflexivity.
  - split; [apply elem_of_app; right; constructor|].
    apply flt_rank in Hgt as (_ & Hnan & _). eauto 8.
  - rewrite last_snoc. cbn. rewrite Ht. reflexivity.
  - destruct (ls_best st) as [b|]; [|exact I].
    destruct Hbest as (Hin & Hrest). split; [apply elem_of_app; left; exact Hin | exact Hrest].
Qed.

Lemma angle_loop_consistent todo : forall done st l st',
  loop todo st = (l, Ok (inr st')) -> consistent done st -> consistent (done ++ todo) st'.
Proof.
  induction todo as [|a rest IH]; intros done st l st' H Hc.
  - cbn in H. injection H as _ <-. rewrite app_nil_r. exact Hc.
  - apply angle_loop_cons_inv in H as (t & res & k & mx & l' & Ht & Hm & Hk & Hsc & Hrest).
    apply angle_score_inv in Hsc as (t' & res' & k' & Ht' & Hm' & Hk' & Hx).
    rewrite Ht in Ht'. injection Ht' as <-. rewrite Hm in Hm'. injection Hm' as <-.
    replace (done ++ a :: rest) with ((done ++ [a]) ++ rest)
      by (rewrite <- app_assoc; reflexivity).
    eapply IH; [exact Hrest|]. apply update_best_consistent; assumption.
Qed.


End AngleSearchOutcome.

(** ** What each cell of the output grids holds *)

Lemma fill_gpi_inside shape gpi data g i :
  _fill_gpi shape gpi data = Ok g -> length data = count_true gpi ->
  gpi !! i = Some true -> gdata g !! i = data !! task_of_cell gpi i.
Proof.
  unfold _fill_gpi, mask_assign. intros H Hd Hi.
  destruct (decide (length gpi = _)) as [Hg|]; [|discriminate H].
  destruct (decide (length data = count_true gpi)) as [_|]; [|contradiction].
  rewrite ok_bind in H. injection H as <-. cbn [gdata].
  apply scatter_inside; [symmetry; exact Hg | exact Hd | exact Hi].
Qed.

Lemma dispatch_results (task : nat -> M match_result) threads scheduler n log rs :
  (forall n, scheduler n ≡ₚ seq 0 n) ->
  (if (threads =? 0)%Z then run_in_order task (seq 0 n)
   else if (threads <? 0)%Z then lift (Raise ValueError)
   else pool_map task n (scheduler n)) = (log, Ok rs) ->
  length rs = n /\
  forall j, j < n -> exists l r, task j = (l, Ok r) /\ rs !! j = Some r.
Proof.
  intros Hfair H.
  assert (mapM (fun i => returned (task i).2) (seq 0 n) = Some rs) as Hm.
  { rewrite <- run_in_order_returned. destruct (threads =? 0)%Z.
    - rewrite H. reflexivity.
    - destruct (threads <? 0)%Z; [discriminate H|].
      rewrite <- (pool_map_returned task n (scheduler n) (Hfair n)), H. reflexivity. }
  apply mapM_Some in Hm. split.
  - apply Forall2_length in Hm. rewrite length_seq in Hm. symmetry. exact Hm.
  - intros j Hj.
    destruct (Forall2_lookup_l _ _ _ j j Hm) as (r & Hr & Ht).
    { apply lookup_seq. lia. }
    cbn in Ht. destruct (task j) as [l [r'|e]] eqn:E; [|discriminate Ht].
    injection Ht as ->. eauto.
Qed.

Section Cells.
Context {numerics : Numerics}.

(** X15. Whenever [pattern_matching] returns, each of the seven grids
    has the shape of [lon1_dst] and as many cells as that shape, and
    every cell that the mask excludes holds NaN in all seven grids. *)
Theorem pattern_matching_masked_cells lon1_dst lat1_dst n1 x1 y1 n2 x2 y2
    margin img_size threads kw scheduler log out :
  pattern_matching lon1_dst lat1_dst n1 x1 y1 n2 x2 y2 margin img_size threads kw scheduler
    = (log, Ok out) ->
  exists x1_dst y1_dst x2fg y2fg border gpi,
    first_guess_and_mask lon1_dst lat1_dst n1 x1 y1 n2 x2 y2 margin img_size kw
      = Ok (x1_dst, y1_dst, x2fg, y2fg, border, gpi) /\
    Forall (fun g => gshape g = gshape lon1_dst /\ wf_grid g) (grids_of out) /\
    forall i, i < grid_size (gshape lon1_dst) -> gpi !! i <> Some true ->
      Forall (fun g => gdata g !! i = Some np_nan) (grids_of out).
Proof.
  intros Hrun. unfold pattern_matching in Hrun.
  destruct (first_guess_and_mask _ _ _ _ _ _ _ _ _ _ _)
    as [[[[[[x1_dst y1_dst] x2fg] y2fg] border] gpi]|e] eqn:Efg; [|discriminate Hrun].
  rewrite bind_lift_ok in Hrun.
  destruct (_init_pool _ _ _ _ _ _ _ _ _ _ _) as [globals|e] eqn:Einit; [|discriminate Hrun].
  rewrite bind_lift_ok in Hrun.
  apply bind_ok_inv in Hrun as (l1 & results & l2 & Hres & Hk & _).
  exists x1_dst, y1_dst, x2fg, y2fg, border, gpi.
  split; [reflexivity|].
  destruct results as [|r0 results].
  - injection Hk as _ <-.
    destruct (nan_grid_ok (gshape lon1_dst)) as (Hs & Hw & Hn).
    split.
    + unfold nan_outputs, grids_of. cbn. repeat constructor; assumption.
    + intros i Hi _. unfold nan_outputs, grids_of. cbn. repeat constructor; auto.
  - destruct (mask_select gpi x1_dst) as [x1g|e]; [|discriminate Hk].
    rewrite bind_lift_ok in Hk.
    destruct (mask_select gpi y1_dst) as [y1g|e]; [|discriminate Hk].
    rewrite bind_lift_ok, bind_emit in Hk. cbn [fst snd] in Hk.
    destruct (get_drift_vectors _ _ _ _ _ _ _) as [[[[[u v] lon1] lat1] lon2] lat2].
    cbn [lift fst snd] in Hk. injection Hk as _ Hk.
    repeat match type of Hk with
    | (_fill_gpi ?s ?g ?d ≫= _) = Ok _ =>
        let E := fresh "E" in
        destruct (_fill_gpi s g d) eqn:E;
          [rewrite ok_bind in Hk; apply fill_gpi_ok in E as (? & ? & ? & ?)
          | discriminate Hk]
    end.
    injection Hk as <-. unfold grids_of. cbn [out_u out_v out_a out_r out_h out_lon2 out_lat2].
    split.
    + repeat constructor; assumption.
    + intros i Hi Hc. repeat constructor; auto.
Qed.


(** X4. In a run of [pattern_matching] that returns, every cell that
    the mask admitted holds, in each grid, the value computed from the
    result of that cell's own task: angle, correlation and curvature are
    the task's, the position on image2 is the task's matched pixel
    taken through image2's pixel-to-geographic transform, u is the
    projected x of the matched position minus that of the query point,
    and v is the projected y of the query point minus that of the
    matched position. *)
Theorem pattern_matching_cell_results lon1_dst lat1_dst n1 x1 y1 n2 x2 y2
    margin img_size threads kw scheduler log out :
  (forall n, scheduler n ≡ₚ seq 0 n) ->
  pattern_matching lon1_dst lat1_dst n1 x1 y1 n2 x2 y2 margin img_size threads kw scheduler
    = (log, Ok out) ->
  exists x1_dst y1_dst x2fg y2fg border gpi globals,
    first_guess_and_mask lon1_dst lat1_dst n1 x1 y1 n2 x2 y2 margin img_size kw
      = Ok (x1_dst, y1_dst, x2fg, y2fg, border, gpi) /\
    _init_pool gpi x1_dst y1_dst x2fg y2fg border (band1 n1) (band1 n2) img_size
      (get_initial_rotation n1 n2) kw = Ok globals /\
    forall i xd yd,
      gpi !! i = Some true -> x1_dst !! i = Some xd -> y1_dst !! i = Some yd ->
      exists l res,
        use_mcc_mp globals (task_of_cell gpi i) = (l, Ok res) /\
        gdata (out_a out) !! i = Some (res_a res) /\
        gdata (out_r out) !! i = Some (res_r res) /\
        gdata (out_h out) !! i = Some (res_h res) /\
        let p1 := pix2geo n1 xd yd in
        let p2 := pix2geo n2 (res_x2 res) (res_y2 res) in
        gdata (out_lon2 out) !! i = Some p2.1 /\
        gdata (out_lat2 out) !! i = Some p2.2 /\
        gdata (out_u out) !! i
          = Some (fsub (nsr_geo2pix kw p2.1 p2.2).1 (nsr_geo2pix kw p1.1 p1.2).1) /\
        gdata (out_v out) !! i
          = Some (fsub (nsr_geo2pix kw p1.1 p1.2).2 (nsr_geo2pix kw p2.1 p2.2).2).
Proof.
  intros Hfair Hrun. unfold pattern_matching in Hrun.
  destruct (first_guess_and_mask _ _ _ _ _ _ _ _ _ _ _)
    as [[[[[[x1_dst y1_dst] x2fg] y2fg] border] gpi]|e] eqn:Efg; [|discriminate Hrun].
  rewrite bind_lift_ok in Hrun.
  destruct (_init_pool _ _ _ _ _ _ _ _ _ _ _) as [globals|e] eqn:Einit; [|discriminate Hrun].
  rewrite bind_lift_ok in Hrun.
  exists x1_dst, y1_dst, x2fg, y2fg, border, gpi, globals.
  split; [reflexivity|]. split; [exact Einit|].
  intros i xd yd Hi Hxd Hyd.
  apply bind_ok_inv in Hrun as (l1 & results & l2 & Hres & Hk & _).
  destruct (dispatch_results _ _ _ _ _ _ Hfair Hres) as [Hlen Hrs].
  pose proof (task_of_cell_lt gpi i Hi) as Hj.
  destruct (Hrs _ Hj) as (l & res & Htask & Hr).
  exists l, res. split; [exact Htask|].
  destruct (length_first_guess_and_mask _ _ _ _ _ _ _ _ _ _ _ _ _ _ _ _ _ Efg)
    as (Lx & Ly & _).
  destruct results as [|r0 results]; [cbn in Hlen; lia|].
  rewrite (mask_select_ok gpi x1_dst Lx), bind_lift_ok in Hk.
  rewrite (mask_select_ok gpi y1_dst Ly), bind_lift_ok, bind_emit in Hk.
  cbn [fst snd] in Hk.
  set (rs := r0 :: results) in *.
  destruct (get_drift_vectors _ _ _ _ _ _ _) as [[[[[u v] lon1] lat1] lon2] lat2] eqn:Edv.
  cbn [lift fst snd] in Hk. injection Hk as _ Hk.
  unfold get_drift_vectors in Edv.
  destruct (transform_points (pix2geo n1) _ _) as [lo1 la1] eqn:T1.
  destruct (transform_points (pix2geo n2) _ _) as [lo2 la2] eqn:T2.
  destruct (transform_points (nsr_geo2pix kw) lo1 la1) as [px1 py1] eqn:T3.
  destruct (transform_points (nsr_geo2pix kw) lo2 la2) as [px2 py2] eqn:T4.
  injection Edv as <- <- <- <- <- <-.
  assert (select gpi x1_dst !! task_of_cell gpi i = Some xd) as Sx.
  { rewrite select_lookup by (symmetry; exact Lx).
    rewrite (valid_indices_task_of_cell gpi i Hi). exact Hxd. }
  assert (select gpi y1_dst !! task_of_cell gpi i = Some yd) as Sy.
  { rewrite select_lookup by (symmetry; exact Ly).
    rewrite (valid_indices_task_of_cell gpi i Hi). exact Hyd. }
  assert (column res_x2 rs !! task_of_cell gpi i = Some (res_x2 res)) as Cx.
  { unfold column. rewrite map_fmap, list_lookup_fmap, Hr. reflexivity. }
  assert (column res_y2 rs !! task_of_cell gpi i = Some (res_y2 res)) as Cy.
  { unfold column. rewrite map_fmap, list_lookup_fmap, Hr. reflexivity. }
  destruct (lookup_transform_points _ _ _ _ _ _ _ _ T1 Sx Sy) as [A1 B1].
  destruct (lookup_transform_points _ _ _ _ _ _ _ _ T2 Cx Cy) as [A2 B2].
  destruct (lookup_transform_points _ _ _ _ _ _ _ _ T3 A1 B1) as [A3 B3].
  destruct (lookup_transform_points _ _ _ _ _ _ _ _ T4 A2 B2) as [A4 B4].
  assert (length (select gpi x1_dst) = count_true gpi) as Lsx
    by (apply length_select; symmetry; exact Lx).
  assert (length (select gpi y1_dst) = count_true gpi) as Lsy
    by (apply length_select; symmetry; exact Ly).
  assert (length (column res_x2 rs) = count_true gpi) as Lcx
    by (unfold column; rewrite length_map; exact Hlen).
  assert (length (column res_y2 rs) = count_true gpi) as Lcy
    by (unfold column; rewrite length_map; exact Hlen).
  destruct (length_transform_points _ _ _ _ _ T1) as [M1 N1].
  destruct (length_transform_points _ _ _ _ _ T2) as [M2 N2].
  destruct (length_transform_points _ _ _ _ _ T3) as [M3 N3].
  destruct (length_transform_points _ _ _ _ _ T4) as [M4 N4].
  repeat match type of Hk with
  | (_fill_gpi ?s ?g ?d ≫= _) = Ok _ =>
      let E := fresh "F" in
      destruct (_fill_gpi s g d) eqn:E; [rewrite ok_bind in Hk | discriminate Hk]
  end.
  injection Hk as <-. cbn [out_u out_v out_a out_r out_h out_lon2 out_lat2].
  assert (forall A (f : match_result -> A), f r0 :: column f results = f <$> rs) as Hcol
    by reflexivity.
  rewrite !Hcol in *.
  repeat match goal with
  | F : _fill_gpi _ gpi ?d = Ok ?g |- _ =>
      let L := fresh "L" in
      assert (length d = count_true gpi) as L
        by (unfold vsub; lengths; first [exact Hlen | lia]);
      rewrite (fill_gpi_inside _ _ _ _ i F L Hi); clear F
  end.
  unfold vsub. rewrite !list_lookup_fmap, Hr. cbn [fmap option_fmap option_map].
  rewrite !lookup_zip_with, A2, B2, A3, B3, A4, B4. cbn.
  repeat split; reflexivity.
Qed.

End Cells.

(** ** The calls made by a run *)

Lemma run_in_order_flat_log {A} (task : nat -> M A) l : forall log rs,
  run_in_order task l = (log, Ok rs) -> log = concat (map (fun i => (task i).1) l).
Proof.
  induction l as [|i l IH]; intros log rs H.
  - injection H as <- _. reflexivity.
  - cbn [run_in_order] in H.
    apply bind_ok_inv in H as (l1 & a & l2 & Ht & H & ->).
    apply bind_ok_inv in H as (l3 & k & l4 & Hk & H & ->).
    injection H as <- _. rewrite app_nil_r. cbn [map concat].
    rewrite Ht. cbn [fst]. f_equal. eapply IH. exact Hk.
Qed.

Lemma pool_flat_log {A} (task : nat -> M A) sched : forall st,
  plog (foldl (pool_step task) st sched)
    = plog st ++ concat (map (fun i => (task i).1) sched).
Proof.
  induction sched as [|i sched IH]; intros st; cbn [foldl map concat].
  - rewrite app_nil_r. reflexivity.
  - rewrite IH. unfold pool_step.
    destruct (task i) as [l [a|e]]; cbn [plog fst snd]; rewrite <- app_assoc; reflexivity.
Qed.

Lemma pool_map_flat_log {A} (task : nat -> M A) n sched :
  (pool_map task n sched).1 = concat (map (fun i => (task i).1) sched).
Proof.
  unfold pool_map. rewrite <- (app_nil_l (concat _)).
  change (@nil event) with (plog {| slots := (∅ : gmap nat A); failure := None; plog := [] |}).
  rewrite <- pool_flat_log. destruct (failure _); reflexivity.
Qed.

Lemma pool_failure_source {A} (task : nat -> M A) sched : forall st e,
  failure (foldl (pool_step task) st sched) = Some e ->
  failure st = Some e \/ exists i, i ∈ sched /\ (task i).2 = Raise e.
Proof.
  induction sched as [|i sched IH]; intros st e H; cbn [foldl] in H; [auto|].
  apply IH in H as [H|(j & Hj & H)].
  - unfold pool_step in H. destruct (task i) as [l [a|e']] eqn:E; cbn [failure snd] in H.
    + auto.
    + destruct (failure st) as [e0|]; [auto|]. injection H as ->.
      right. exists i. rewrite E. split; [left | reflexivity].
  - right. exists j. split; [right; exact Hj | exact H].
Qed.

(** The first task to raise ends the list comprehension. *)
Lemma run_in_order_raises {A} (task : nat -> M A) l j :
  j ∈ l -> is_ok (task j).2 = false ->
  exists pre i post e,
    l = pre ++ i :: post /\ Forall (fun k => is_ok (task k).2 = true) pre /\
    (task i).2 = Raise e /\ (run_in_order task l).2 = Raise e.
Proof.
  induction l as [|i l IH]; intros Hin Hj; [inversion Hin|].
  destruct (task i) as [li [a|e]] eqn:E.
  - assert (j ∈ l) as Hin'.
    { apply elem_of_cons in Hin as [->|Hin]; [rewrite E in Hj; discriminate Hj | exact Hin]. }
    destruct (IH Hin' Hj) as (pre & i' & post & e & -> & Hpre & Hi' & Hrun).
    exists (i :: pre), i', post, e. split; [reflexivity|].
    split; [constructor; [rewrite E; reflexivity | exact Hpre]|].
    split; [exact Hi'|].
    cbn [run_in_order]. rewrite E. unfold mbind at 1, M_bind at 1.
    destruct (run_in_order task (pre ++ i' :: post)) as [lk [k|e']];
      cbn [snd] in Hrun; [discriminate Hrun|]. injection Hrun as ->. reflexivity.
  - exists [], i, l, e. split; [reflexivity|]. split; [constructor|].
    rewrite E. split; [reflexivity|]. cbn [run_in_order]. rewrite E. reflexivity.
Qed.

Lemma concat_map_Permutation {A B} (f : A -> list B) l l' :
  l ≡ₚ l' -> concat (map f l) ≡ₚ concat (map f l').
Proof.
  induction 1 as [|a l l' _ IH|a b l|l l' l'' _ IH1 _ IH2]; cbn [map concat].
  - reflexivity.
  - rewrite IH. reflexivity.
  - rewrite !app_assoc. apply Permutation_app_tail, Permutation_app_comm.
  - etransitivity; eassumption.
Qed.

Lemma matcher_calls_task kw j : matcher_calls (task_log kw j) = length (angles kw).
Proof.
  unfold matcher_calls, task_log. rewrite filter_app, length_app.
  replace (length (filter _ (if decide (j `mod` 100 = 0) then [EvPrint j] else []))) with 0
    by (destruct (decide _); reflexivity).
  rewrite Nat.add_0_r. induction (angles kw) as [|a l IHl]; [reflexivity|].
  cbn [map]. rewrite filter_cons_True by reflexivity. cbn [length]. rewrite IHl. reflexivity.
Qed.

Lemma matcher_calls_tasks kw order :
  matcher_calls (concat (map (task_log kw) order)) = length order * length (angles kw).
Proof.
  induction order as [|j order IH]; [reflexivity|].
  cbn [map concat length]. unfold matcher_calls in *.
  rewrite filter_app, length_app, IH.
  pose proof (matcher_calls_task kw j) as H. unfold matcher_calls in H. rewrite H.
  reflexivity.
Qed.

Section Calls.
Context {numerics : Numerics}.

Lemma angle_loop_events img1 x y img_size image2 alpha0 kw todo : forall st ev,
  ev ∈ (angle_loop img1 x y img_size image2 alpha0 kw todo st).1 ->
  exists a, ev = EvMatchTemplate a.
Proof.
  induction todo as [|a rest IH]; intros st ev H; cbn [angle_loop] in H.
  - inversion H.
  - apply bind_log in H as [H|(t & _ & H)]; [inversion H|].
    destruct (_ || _); [inversion H|].
    apply bind_log in H as [H|(u & _ & H)].
    { apply list_elem_of_singleton in H. eauto. }
    apply bind_log in H as [H|(res & _ & H)]; [inversion H|].
    apply bind_log in H as [H|(k & _ & H)]; [inversion H|].
    apply bind_log in H as [H|(mx & _ & H)]; [inversion H|].
    eapply IH. exact H.
Qed.

Lemma rotate_and_match_events img1 x y img_size image2 alpha0 kw ev :
  ev ∈ (rotate_and_match img1 x y img_size image2 alpha0 kw).1 ->
  exists a, ev = EvMatchTemplate a.
Proof.
  unfold rotate_and_match. intros H.
  apply bind_log in H as [H|(out & _ & H)]; [eapply angle_loop_events; exact H|].
  destruct out; inversion H.
Qed.

Lemma use_mcc_events x1p y1p x2p y2p border img1 img2 img_size alpha0 kw ev :
  ev ∈ (use_mcc x1p y1p x2p y2p border img1 img2 img_size alpha0 kw).1 ->
  exists a, ev = EvMatchTemplate a.
Proof.
  unfold use_mcc. intros H.
  do 7 (apply bind_log in H as [H|(? & _ & H)]; [inversion H|]).
  apply bind_log in H as [H|(t & _ & H)]; [eapply rotate_and_match_events; exact H|].
  do 7 (destruct t as [|? t]; [inversion H|]). destruct t; inversion H.
Qed.

Lemma use_mcc_mp_events globals j ev :
  ev ∈ (use_mcc_mp globals j).1 -> (exists a, ev = EvMatchTemplate a) \/ ev = EvPrint j.
Proof.
  unfold use_mcc_mp. intros H.
  apply bind_log in H as [H|([[[[x1p y1p] x2p] y2p] border] & _ & H)]; [inversion H|].
  destruct globals as [sh|]; [|inversion H].
  apply bind_log in H as [H|(res & _ & H)]; [left; eapply use_mcc_events; exact H|].
  apply bind_log in H as [H|(u & _ & H)]; [|inversion H].
  destruct (decide _); [|inversion H]. apply list_elem_of_singleton in H. auto.
Qed.

(** The log of a task that returns. *)
Lemma rotate_and_match_log img1 x y img_size image2 alpha0 kw log t :
  rotate_and_match img1 x y img_size image2 alpha0 kw = (log, Ok t) ->
  t <> nan_tuple -> log = map EvMatchTemplate (angles kw).
Proof.
  unfold rotate_and_match. intros H Hne.
  apply bind_ok_inv in H as (l1 & out & l2 & Hloop & Hout & ->).
  destruct out as [early|st].
  - injection Hout as _ <-. apply angle_loop_inl in Hloop. contradiction.
  - apply lift_ok_inv in Hout as [_ ->]. rewrite app_nil_r.
    eapply angle_loop_log. exact Hloop.
Qed.

Lemma use_mcc_log x1p y1p x2p y2p border img1 img2 img_size alpha0 kw log res :
  use_mcc x1p y1p x2p y2p border img1 img2 img_size alpha0 kw = (log, Ok res) ->
  log = map EvMatchTemplate (angles kw).
Proof.
  unfold use_mcc. intros H.
  do 7 (apply bind_ok_inv in H as (? & ? & ? & [_ ->]%lift_ok_inv & H & ->)).
  apply bind_ok_inv in H as (l1 & t & l2 & Hrm & H & ->). cbn [app].
  assert (l2 = [] /\ t <> nan_tuple) as [-> Hne].
  { do 7 (destruct t as [|? t]; [discriminate H|]). destruct t; [|discriminate H].
    apply lift_ok_inv in H as [_ ->]. split; [reflexivity | discriminate]. }
  rewrite app_nil_r. eapply rotate_and_match_log; eassumption.
Qed.

Lemma use_mcc_mp_log sh j log res :
  use_mcc_mp (Some sh) j = (log, Ok res) -> log = task_log (sh_kwargs sh) j.
Proof.
  unfold use_mcc_mp. intros H.
  apply bind_ok_inv in H
    as (? & [[[[x1p y1p] x2p] y2p] border] & ? & [_ ->]%lift_ok_inv & H & ->).
  apply bind_ok_inv in H as (l1 & r & l2 & Hu & H & ->).
  apply use_mcc_log in Hu as ->. cbn [app]. unfold task_log. f_equal.
  destruct (decide _); cbn in H; injection H as <- _; reflexivity.
Qed.

(** X5. In a run of [pattern_matching] that returns, the matcher is
    called once per candidate angle for every admitted point and for no
    other, a progress line is printed for every hundredth task, and the
    drift conversion is called once, with all the admitted points, unless
    there is none.  With [threads = 0] the calls are made in this
    order, task by task, the conversion last. *)
Theorem pattern_matching_calls lon1_dst lat1_dst n1 x1 y1 n2 x2 y2
    margin img_size threads kw scheduler log out x1_dst y1_dst x2fg y2fg border gpi :
  (forall n, scheduler n ≡ₚ seq 0 n) ->
  pattern_matching lon1_dst lat1_dst n1 x1 y1 n2 x2 y2 margin img_size threads kw scheduler
    = (log, Ok out) ->
  first_guess_and_mask lon1_dst lat1_dst n1 x1 y1 n2 x2 y2 margin img_size kw
    = Ok (x1_dst, y1_dst, x2fg, y2fg, border, gpi) ->
  let n := count_true gpi in
  let conversion := if decide (n = 0) then [] else [EvDriftVectors n] in
  (threads = 0%Z -> log = concat (map (task_log kw) (seq 0 n)) ++ conversion) /\
  log ≡ₚ concat (map (task_log kw) (seq 0 n)) ++ conversion /\
  matcher_calls log = n * length (angles kw).
Proof.
  intros Hfair Hrun Efg n conversion. unfold pattern_matching in Hrun.
  rewrite Efg, bind_lift_ok in Hrun.
  destruct (length_first_guess_and_mask _ _ _ _ _ _ _ _ _ _ _ _ _ _ _ _ _ Efg)
    as (Lx & Ly & Lx2 & Ly2 & Lb).
  rewrite (init_pool_ok gpi x1_dst y1_dst x2fg y2fg border _ _ _ _ _ Lx Ly Lx2 Ly2 Lb),
    bind_lift_ok in Hrun.
  set (sh := {| sh_x1 := select gpi x1_dst; sh_kwargs := kw |}) in Hrun.
  apply bind_ok_inv in Hrun as (l1 & results & l2 & Hres & Hk & ->).
  destruct (dispatch_results _ _ _ _ _ _ Hfair Hres) as [Hlen Hrs]. fold n in Hlen, Hrs.
  assert (forall order, order ≡ₚ seq 0 n ->
            concat (map (fun i => (use_mcc_mp (Some sh) i).1) order)
              = concat (map (task_log kw) order)) as Hlogs.
  { intros order Hperm. f_equal. apply map_ext_in. intros j Hj.
    apply list_elem_of_In in Hj. rewrite Hperm in Hj. apply elem_of_seq in Hj.
    destruct (Hrs j) as (l & r & Ht & _); [lia|]. rewrite Ht.
    apply use_mcc_mp_log in Ht. exact Ht. }
  assert (l1 = concat (map (task_log kw)
                         (if (threads =? 0)%Z then seq 0 n else scheduler n))) as ->.
  { destruct (threads =? 0)%Z.
    - rewrite (run_in_order_flat_log _ _ _ _ Hres). apply Hlogs. reflexivity.
    - destruct (threads <? 0)%Z; [discriminate Hres|].
      pose proof (pool_map_flat_log (use_mcc_mp (Some sh)) n (scheduler n)) as Hl.
      fold n in Hres. rewrite Hres in Hl. cbn [fst] in Hl. rewrite Hl.
      apply Hlogs. apply Hfair. }
  assert (l2 = conversion) as ->.
  { unfold conversion. destruct results as [|r0 results].
    - injection Hk as <- _. destruct (decide (n = 0)); [reflexivity | cbn in Hlen; lia].
    - rewrite (mask_select_ok gpi x1_dst Lx), bind_lift_ok in Hk.
      rewrite (mask_select_ok gpi y1_dst Ly), bind_lift_ok, bind_emit in Hk.
      cbn [fst snd] in Hk.
      destruct (get_drift_vectors _ _ _ _ _ _ _) as [[[[[u v] lon1] lat1] lon2] lat2].
      cbn [lift fst snd] in Hk. injection Hk as <- _.
      rewrite length_select by (symmetry; exact Lx).
      destruct (decide (n = 0)); [cbn in Hlen; lia | reflexivity]. }
  split; [intros ->; reflexivity|].
  assert ((if (threads =? 0)%Z then seq 0 n else scheduler n) ≡ₚ seq 0 n) as Hperm
    by (destruct (threads =? 0)%Z; [reflexivity | apply Hfair]).
  split.
  - apply Permutation_app_tail, concat_map_Permutation, Hperm.
  - pose proof (matcher_calls_tasks kw (if (threads =? 0)%Z then seq 0 n else scheduler n))
      as Hcalls.
    unfold matcher_calls in *. rewrite filter_app, length_app, Hcalls.
    replace (length (filter _ conversion)) with 0
      by (unfold conversion; destruct (decide (n = 0)); reflexivity).
    rewrite Nat.add_0_r.
    apply Permutation_length in Hperm. rewrite length_seq in Hperm. rewrite Hperm.
    reflexivity.
Qed.

(** X6. When the task of some admitted point raises, [pattern_matching]
    raises as well, with the exception of one of its tasks, and the
    drift conversion is never called: no grid is returned for any point.
    With [threads = 0] the exception is that of the first failing task
    in index order. *)
Theorem pattern_matching_task_raises lon1_dst lat1_dst n1 x1 y1 n2 x2 y2
    margin img_size threads kw scheduler x1_dst y1_dst x2fg y2fg border gpi globals j :
  (forall n, scheduler n ≡ₚ seq 0 n) ->
  (0 <= threads)%Z ->
  first_guess_and_mask lon1_dst lat1_dst n1 x1 y1 n2 x2 y2 margin img_size kw
    = Ok (x1_dst, y1_dst, x2fg, y2fg, border, gpi) ->
  _init_pool gpi x1_dst y1_dst x2fg y2fg border (band1 n1) (band1 n2) img_size
    (get_initial_rotation n1 n2) kw = Ok globals ->
  j < count_true gpi ->
  is_ok (use_mcc_mp globals j).2 = false ->
  exists e j',
    j' < count_true gpi /\ (use_mcc_mp globals j').2 = Raise e /\
    (pattern_matching lon1_dst lat1_dst n1 x1 y1 n2 x2 y2
       margin img_size threads kw scheduler).2 = Raise e /\
    (threads = 0%Z -> forall k, k < j' -> is_ok (use_mcc_mp globals k).2 = true) /\
    forall m, EvDriftVectors m ∉
      (pattern_matching lon1_dst lat1_dst n1 x1 y1 n2 x2 y2
         margin img_size threads kw scheduler).1.
Proof.
  intros Hfair Hthreads Efg Einit Hj Hfail. unfold pattern_matching.
  rewrite Efg, bind_lift_ok, Einit, bind_lift_ok.
  set (n := count_true gpi) in *. set (task := use_mcc_mp globals) in *.
  set (dispatch := if (threads =? 0)%Z then run_in_order task (seq 0 n)
                   else if (threads <? 0)%Z then lift (Raise ValueError)
                   else pool_map task n (scheduler n)).
  assert (exists e j', j' < n /\ (task j').2 = Raise e /\ dispatch.2 = Raise e /\
            (threads = 0%Z -> forall k, k < j' -> is_ok (task k).2 = true))
    as (e & j' & Hj' & Hraise & Hd & Hfirst).
  { unfold dispatch. destruct (threads =? 0)%Z eqn:E0.
    - destruct (run_in_order_raises task (seq 0 n) j) as (pre & i & post & e & Hl & Hpre & Hi & Hr);
        [apply elem_of_seq; lia | exact Hfail |].
      assert (forall k, k < length pre -> pre !! k = Some k) as Hprek.
      { intros k Hk. rewrite <- (lookup_app_l pre (i :: post)) by exact Hk.
        rewrite <- Hl. apply lookup_seq. apply (f_equal length) in Hl.
        rewrite length_seq, length_app in Hl. cbn in Hl. lia. }
      assert (i = length pre /\ length pre < n) as [-> Hlt].
      { assert (seq 0 n !! length pre = Some i) as Hs
          by (rewrite Hl, lookup_app_r, Nat.sub_diag by lia; reflexivity).
        apply lookup_seq in Hs. cbn in Hs. lia. }
      exists e, (length pre). repeat split; try assumption.
      intros _ k Hk. rewrite Forall_forall in Hpre. apply Hpre.
      eapply list_elem_of_lookup_2. apply Hprek. exact Hk.
    - replace (threads <? 0)%Z with false by (symmetry; apply Z.ltb_ge; lia).
      unfold pool_map.
      set (st := foldl (pool_step task) {| slots := ∅; failure := None; plog := [] |}
                   (scheduler n)).
      destruct (failure st) as [e|] eqn:Ef.
      + destruct (pool_failure_source task (scheduler n) _ e Ef) as [H|(i & Hi & Hr)];
          [discriminate H|].
        rewrite (Hfair n) in Hi. apply elem_of_seq in Hi.
        exists e, i. repeat split; [lia | exact Hr |].
        intros ->. discriminate E0.
      + apply pool_failure in Ef as [_ Hall]. rewrite Forall_forall in Hall.
        destruct (Hall j) as [a Ha]; [rewrite (Hfair n); apply elem_of_seq; lia|].
        destruct (task j).2; [discriminate Hfail | discriminate Ha]. }
  exists e, j'. split; [exact Hj'|]. split; [exact Hraise|].
  fold dispatch. destruct dispatch as [ld [rs|e']] eqn:Ed; cbn [snd] in Hd; [discriminate Hd|].
  injection Hd as ->. split; [reflexivity|]. split; [exact Hfirst|].
  intros m Hm. cbn [mbind M_bind fst] in Hm.
  assert (m_in : EvDriftVectors m ∈ dispatch.1) by (rewrite Ed; exact Hm).
  apply (dispatch_log task threads scheduler n _ Hfair) in m_in as (i & _ & Hev).
  apply use_mcc_mp_events in Hev as [[a Ha]|Hp]; discriminate.
Qed.

End Calls.

(** ** Undefined first guess *)

Lemma py_round_raises x e : py_round x = Raise e -> e = ValueError \/ e = OverflowError.
Proof.
  destruct x as [s|s| |s m ex]; cbn; try discriminate; try (intros [= <-]; auto).
  destruct (split_mag m ex). discriminate.
Qed.

Lemma py_int_raises x e : py_int x = Raise e -> e = ValueError \/ e = OverflowError.
Proof. destruct x; cbn; try discriminate; intros [= <-]; auto. Qed.

Lemma py_round_finite x z : py_round x = Ok z -> np_isfinite x = true.
Proof. destruct x; cbn; try discriminate; reflexivity. Qed.

Lemma py_int_finite x z : py_int x = Ok z -> np_isfinite x = true.
Proof. destruct x; cbn; try discriminate; reflexivity. Qed.

Lemma fsub_not_finite a b : np_isfinite b = false -> np_isfinite (fsub a b) = false.
Proof.
  destruct b as [s|s| |s m e]; try discriminate; intros _;
    destruct a as [s'|s'| |s' m' e']; try reflexivity; destruct s', s; reflexivity.
Qed.

Section UndefinedGuess.
Context {numerics : Numerics}.

(** X3. [use_mcc] called with a first guess or a border that is NaN or
    infinite raises ValueError (NaN) or OverflowError (infinity) from
    the conversions of lines 201-205, before any template is cut or
    matched. *)
Theorem use_mcc_undefined_guess x1p y1p x2p y2p border img1 img2 img_size alpha0 kw :
  np_isfinite x2p = false \/ np_isfinite y2p = false \/ np_isfinite border = false ->
  exists e, (e = ValueError \/ e = OverflowError) /\
    use_mcc x1p y1p x2p y2p border img1 img2 img_size alpha0 kw = ([], Raise e).
Proof.
  intros Hbad. unfold use_mcc.
  destruct (py_round x2p) as [x2i|e] eqn:E1;
    [rewrite bind_lift_ok | exists e; split; [eapply py_round_raises; eassumption | reflexivity]].
  destruct (py_round y2p) as [y2i|e] eqn:E2;
    [rewrite bind_lift_ok | exists e; split; [eapply py_round_raises; eassumption | reflexivity]].
  destruct (py_int (fdiv (of_Z img_size) f2)) as [hws|e] eqn:E3;
    [rewrite bind_lift_ok | exists e; split; [eapply py_int_raises; eassumption | reflexivity]].
  destruct (py_int (fsub (of_Z (y2i - hws)) border)) as [r0|e] eqn:E4;
    [|exists e; split; [eapply py_int_raises; eassumption | reflexivity]].
  exfalso. apply py_round_finite in E1, E2. apply py_int_finite in E4.
  destruct Hbad as [H|[H|H]]; [congruence | congruence |].
  rewrite (fsub_not_finite _ _ H) in E4. discriminate E4.
Qed.

End UndefinedGuess.

(** ** The distance image *)

Lemma nearest_sq_seed seeds r c : (r, c) ∈ seeds -> nearest_sq seeds r c = 0%Z.
Proof.
  assert (sq_dist r c (r, c) = 0%Z) as Hz by (unfold sq_dist; cbn; lia).
  unfold nearest_sq. destruct seeds as [|p ps]; [intros H; inversion H|].
  intros H. apply elem_of_cons in H as [<-|H].
  - rewrite Hz. induction ps as [|q ps IH]; [reflexivity|].
    cbn [foldr]. rewrite IH. pose proof (sq_dist_nonneg r c q). lia.
  - pose proof (sq_dist_nonneg r c p) as Hp. revert Hp. generalize (sq_dist r c p).
    induction ps as [|q ps IH]; intros z Hzpos; [inversion H|].
    cbn [foldr]. apply elem_of_cons in H as [<-|H].
    + rewrite Hz.
      assert (0 <= foldr (fun q acc => Z.min (sq_dist r c q) acc) z ps)%Z; [|lia].
      clear IH. induction ps as [|q' ps IH']; cbn [foldr]; [exact Hzpos|].
      pose proof (sq_dist_nonneg r c q'). lia.
    + rewrite (IH H z Hzpos). pose proof (sq_dist_nonneg r c q). lia.
Qed.

Lemma edt_value_seed seeds r c : (r, c) ∈ seeds -> edt_value seeds r c = f0.
Proof. intros H. unfold edt_value. rewrite (nearest_sq_seed _ _ _ H). reflexivity. Qed.

Lemma signed_false_nonneg x : signed_as false x -> fle f0 x = true.
Proof. destruct x as [s|s| |s m e]; cbn; intros H; try contradiction; subst; reflexivity. Qed.

Lemma fsqrt_signed x : signed_as false x -> signed_as false (fsqrt x).
Proof.
  destruct x as [s|s| |s m e]; cbn; intros H; try contradiction; subst; try reflexivity.
  unfold fsqrt, SFsqrt. destruct (SFsqrt_core_binary prec emax (Zpos m) e) as [[mz ez] lz] eqn:E.
  apply binary_round_aux_signed.
  unfold SFsqrt_core_binary in E.
  destruct (Z.sqrtrem _) as [q r] eqn:Es. injection E as <- _ _.
  pose proof (Z.sqrtrem_sqrt
    match (e - 2 * Z.min (fexp prec emax (Z.div2 (Zdigits2 (Zpos m) + e + 1))) (Z.div2 e))%Z with
    | Zpos _ => Z.shiftl (Zpos m)
                  (e - 2 * Z.min (fexp prec emax (Z.div2 (Zdigits2 (Zpos m) + e + 1))) (Z.div2 e))
    | 0%Z => Zpos m
    | Zneg _ => 0%Z
    end) as Hs.
  rewrite Es in Hs. cbn [fst] in Hs. rewrite Hs. apply Z.sqrt_nonneg.
Qed.

Lemma edt_value_nonneg seeds r c : fle f0 (edt_value seeds r c) = true.
Proof.
  apply signed_false_nonneg, fsqrt_signed, of_Z_nonneg, nearest_sq_nonneg.
Qed.

Lemma zip_lookup_both {A B} (xs : list A) (ys : list B) k x y :
  xs !! k = Some x -> ys !! k = Some y -> zip xs ys !! k = Some (x, y).
Proof. intros Hx Hy. rewrite lookup_zip_with, Hx, Hy. reflexivity. Qed.

Lemma collect_raises {A} (l : list (result A)) e :
  Forall (fun r => is_ok r = true \/ r = Raise e) l -> Exists (fun r => r = Raise e) l ->
  collect l = Raise e.
Proof.
  induction l as [|r l IH]; intros Hall Hex; [inversion Hex|].
  apply Forall_cons in Hall as [Hr Hall]. cbn [collect].
  destruct r as [a|e'].
  - rewrite ok_bind. apply Exists_cons in Hex as [Hex|Hex]; [discriminate Hex|].
    rewrite (IH Hall Hex). reflexivity.
  - destruct Hr as [Hr| [= ->]]; [discriminate Hr | reflexivity].
Qed.

Section DistanceImage.
Context {numerics : Numerics}.

(** X7. For as many x as y coordinates of keypoints, all falling on
    pixels of the image, [get_distance_to_nearest_keypoint] returns an
    array of the requested shape whose entries are never NaN and never
    negative, and which is zero at the pixel of every keypoint. *)
Theorem get_distance_to_nearest_keypoint_values x1 y1 shape :
  length x1 = length y1 ->
  (forall k x y, x1 !! k = Some x -> y1 !! k = Some y ->
     (np_uint16 y < Z.of_nat shape.1)%Z /\ (np_uint16 x < Z.of_nat shape.2)%Z) ->
  exists dist,
    get_distance_to_nearest_keypoint x1 y1 shape = Ok dist /\
    length dist = shape.1 /\ Forall (fun row => length row = shape.2) dist /\
    Forall (Forall (fun v => fle f0 v = true)) dist /\
    forall k x y, x1 !! k = Some x -> y1 !! k = Some y ->
      py_index2 dist (np_uint16 y) (np_uint16 x) = Ok f0.
Proof.
  intros Hlen Hin. unfold get_distance_to_nearest_keypoint, broadcast2.
  destruct (decide _) as [_|N]; [|exfalso; apply N; rewrite !length_map; lia].
  rewrite ok_bind.
  set (seeds := zip (map np_uint16 y1) (map np_uint16 x1)).
  assert (forall k x y, x1 !! k = Some x -> y1 !! k = Some y ->
            seeds !! k = Some (np_uint16 y, np_uint16 x)) as Hseed.
  { intros k x y Hx Hy. apply zip_lookup_both; rewrite map_fmap, list_lookup_fmap.
    - rewrite Hy. reflexivity.
    - rewrite Hx. reflexivity. }
  rewrite collect_seed_index, ok_bind.
  2: { apply Forall_lookup. intros k [r c] Hk.
       unfold seeds in Hk. rewrite lookup_zip_with in Hk.
       rewrite !map_fmap, !list_lookup_fmap in Hk.
       destruct (y1 !! k) as [y|] eqn:Hy; [|discriminate Hk].
       destruct (x1 !! k) as [x|] eqn:Hx; [|discriminate Hk].
       injection Hk as <- <-. exact (Hin k x y Hx Hy). }
  eexists. split; [reflexivity|]. unfold distance_transform_edt.
  split; [rewrite length_map, length_seq; reflexivity|].
  split; [|split].
  - apply Forall_forall. intros row Hrow. rewrite map_fmap in Hrow.
    apply list_elem_of_fmap in Hrow as (r & -> & _). rewrite length_map, length_seq.
    reflexivity.
  - apply Forall_forall. intros row Hrow. rewrite map_fmap in Hrow.
    apply list_elem_of_fmap in Hrow as (r & -> & _).
    apply Forall_forall. intros v Hv. rewrite map_fmap in Hv.
    apply list_elem_of_fmap in Hv as (c & -> & _). apply edt_value_nonneg.
  - intros k x y Hx Hy. destruct (Hin k x y Hx Hy) as [Hr Hc].
    change (map _ (seq 0 shape.1)) with (distance_transform_edt shape seeds).
    rewrite edt_lookup.
    + f_equal. apply edt_value_seed. eapply list_elem_of_lookup_2. eapply Hseed; eassumption.
    + split; [|exact Hr]. unfold np_uint16. apply Z.mod_pos_bound. lia.
    + split; [|exact Hc]. unfold np_uint16. apply Z.mod_pos_bound. lia.
Qed.

(** X8. For as many x as y coordinates, a keypoint that does not fall on
    a pixel of the image makes the seeding of line 106 raise IndexError:
    no distance image is returned. *)
Theorem get_distance_to_nearest_keypoint_outside x1 y1 shape k x y :
  length x1 = length y1 ->
  x1 !! k = Some x -> y1 !! k = Some y ->
  (Z.of_nat shape.1 <= np_uint16 y)%Z \/ (Z.of_nat shape.2 <= np_uint16 x)%Z ->
  get_distance_to_nearest_keypoint x1 y1 shape = Raise IndexError.
Proof.
  intros Hlen Hx Hy Hout. unfold get_distance_to_nearest_keypoint, broadcast2.
  destruct (decide _) as [_|N]; [|exfalso; apply N; rewrite !length_map; lia].
  rewrite ok_bind, collect_raises with (e := IndexError); [reflexivity | |].
  - apply Forall_forall. intros r Hr. rewrite map_fmap in Hr.
    apply list_elem_of_fmap in Hr as (p & -> & _). unfold seed_index.
    destruct (_ && _); auto.
  - apply Exists_exists. exists (seed_index shape (np_uint16 y, np_uint16 x)). split.
    + rewrite map_fmap. apply list_elem_of_fmap. eexists. split; [reflexivity|].
      eapply list_elem_of_lookup_2. apply zip_lookup_both; rewrite map_fmap, list_lookup_fmap.
      * rewrite Hy. reflexivity.
      * rewrite Hx. reflexivity.
    + unfold seed_index. cbn [fst snd].
      destruct Hout as [H|H].
      * replace (np_uint16 y <? Z.of_nat shape.1)%Z with false
          by (symmetry; apply Z.ltb_ge; exact H). reflexivity.
      * replace (np_uint16 x <? Z.of_nat shape.2)%Z with false
          by (symmetry; apply Z.ltb_ge; exact H). rewrite andb_false_r. reflexivity.
Qed.

End DistanceImage.

(** ** The first guess where both interpolations are used *)

Lemma mask_copy_lookup (a b : vec) i x y :
  a !! i = Some x -> b !! i = Some y ->
  mask_copy (visnan a) a b !! i = Some (if fisnan x then y else x).
Proof.
  intros Ha Hb. unfold mask_copy, visnan.
  rewrite lookup_zip_with, map_fmap, list_lookup_fmap, Ha. cbn.
  rewrite lookup_zip_with, Ha, Hb. reflexivity.
Qed.

Section FirstGuessFill.
Context {numerics : Numerics}.

(** X9. With more correspondences than [min_fg_pts], what
    [prepare_first_guess] returns has one entry per query point; the
    first guess at a query point is the locally interpolated position
    and, coordinate by coordinate, the polynomial one where the local
    interpolation is NaN; and wherever the local interpolation of y is
    NaN the border is [max_border], whatever the border policy. *)
Theorem prepare_first_guess_nan_fill x1_dst y1_dst n1 x1 y1 n2 x2 y2 img_size kw
    x2fg y2fg border :
  length y1_dst = length x1_dst ->
  (Z.of_nat (length x1) > min_fg_pts kw)%Z ->
  prepare_first_guess x1_dst y1_dst n1 x1 y1 n2 x2 y2 img_size kw
    = Ok (x2fg, y2fg, border) ->
  exists poly near,
    x2y2_interpolation_poly x1 y1 x2 y2 = Ok poly /\
    x2y2_interpolation_near x1 y1 x2 y2 = Ok near /\
    length x2fg = length x1_dst /\ length y2fg = length x1_dst /\
    length border = length x1_dst /\
    forall i x y, x1_dst !! i = Some x -> y1_dst !! i = Some y ->
      x2fg !! i = Some (if fisnan (near x y).1 then (poly x y).1 else (near x y).1) /\
      y2fg !! i = Some (if fisnan (near x y).2 then (poly x y).2 else (near x y).2) /\
      (fisnan (near x y).2 = true -> border !! i = Some (max_border kw)).
Proof.
  intros Hlen Hn H.
  destruct (length_prepare_first_guess _ _ _ _ _ _ _ _ _ _ _ _ _ Hlen H) as (L1 & L2 & L3).
  unfold prepare_first_guess in H.
  replace (Z.of_nat (length x1) >? min_fg_pts kw)%Z with true in H
    by (symmetry; rewrite Z.gtb_ltb; apply Z.ltb_lt; lia).
  destruct (x2y2_interpolation_poly x1 y1 x2 y2) as [poly|e] eqn:Ep; [|discriminate H].
  rewrite ok_bind in H.
  destruct (transform_points poly x1_dst y1_dst) as [x2p2 y2p2] eqn:Tp.
  destruct (x2y2_interpolation_near x1 y1 x2 y2) as [near|e] eqn:En; [|discriminate H].
  rewrite ok_bind in H.
  destruct (transform_points near x1_dst y1_dst) as [x2n y2n] eqn:Tn.
  destruct (if old_border kw then _ else _) as [b0|e] eqn:Eb; [|discriminate H].
  rewrite ok_bind in H. injection H as <- <- <-.
  exists poly, near.
  split; [reflexivity|]. split; [reflexivity|]. split; [exact L1|].
  split; [exact L2|]. split; [exact L3|].
  intros i x y Hx Hy.
  destruct (lookup_transform_points _ _ _ _ _ _ _ _ Tp Hx Hy) as [A1 B1].
  destruct (lookup_transform_points _ _ _ _ _ _ _ _ Tn Hx Hy) as [A2 B2].
  split; [apply mask_copy_lookup; assumption|].
  split; [apply mask_copy_lookup; assumption|].
  intros Hnan.
  assert (length b0 = length x1_dst) as Hb0.
  { destruct (old_border kw);
      [eapply length_border_distance; exact Eb
      | eapply length_border_error; [exact Hlen | exact Eb]]. }
  destruct (lookup_lt_is_Some_2 b0 i) as [b Hb].
  { rewrite Hb0. eapply lookup_lt_Some. exact Hx. }
  rewrite (clamp_border_lookup _ _ _ _ _ _ Hb B2). unfold clamp1. rewrite Hnan. reflexivity.
Qed.

End FirstGuessFill.

(** ** The distance border after clamping *)

Lemma feq_rank x y :
  feq x y = true <-> fisnan x = false /\ fisnan y = false /\ rank x = rank y.
Proof.
  unfold feq, SFeqb. rewrite SFcompare_rank.
  destruct (fisnan x), (fisnan y); cbn [orb]; try (split; [discriminate | intros (? & ? & ?); discriminate]).
  destruct (rank x) as [[a b] c], (rank y) as [[a' b'] c']. cbn [fst snd].
  split.
  - intros H. repeat split.
    destruct (Z.compare_spec a a'); try discriminate H.
    destruct (Z.compare_spec b b'); try discriminate H.
    destruct (Z.compare_spec c c'); try discriminate H. subst. reflexivity.
  - intros (_ & _ & [= -> -> ->]). rewrite !Z.compare_refl. reflexivity.
Qed.

Lemma flt_feq_l a b c : feq a b = true -> flt a c = flt b c.
Proof.
  intros H. apply feq_rank in H as (Ha & Hb & Hr).
  apply eq_true_iff_eq. rewrite !flt_rank, Hr. tauto.
Qed.

Lemma flt_feq_r a b c : feq a b = true -> flt c a = flt c b.
Proof.
  intros H. apply feq_rank in H as (Ha & Hb & Hr).
  apply eq_true_iff_eq. rewrite !flt_rank, Hr. tauto.
Qed.

Lemma fle_not_flt x y : fle x y = true -> flt y x = false.
Proof.
  intros H. apply fle_rank in H as (_ & _ & H).
  apply not_true_is_false. intros H'. apply flt_rank in H' as (_ & _ & H').
  unfold lex_lt in *. destruct H as [H|H]; [|rewrite H in H']; lia.
Qed.

Lemma collect_seed_index_inv shape idx seeds :
  collect (map (seed_index shape) idx) = Ok seeds ->
  seeds = idx /\
  Forall (fun p => (p.1 < Z.of_nat shape.1)%Z /\ (p.2 < Z.of_nat shape.2)%Z) idx.
Proof.
  revert seeds. induction idx as [|p idx IH]; intros seeds H.
  - injection H as <-. split; [reflexivity | constructor].
  - cbn [map collect] in H.
    destruct (seed_index shape p) as [q|e] eqn:E; [|discriminate H]. rewrite ok_bind in H.
    destruct (collect _) as [k|e]; [|discriminate H]. rewrite ok_bind in H.
    injection H as <-. destruct (IH k eq_refl) as [-> Hall].
    unfold seed_index in E. destruct (_ && _) eqn:E'; [|discriminate E].
    injection E as <-. split; [reflexivity|]. constructor; [|exact Hall].
    apply andb_true_iff in E' as [E1 E2]. split; apply Z.ltb_lt; assumption.
Qed.

Section ClampedDistance.
Context {numerics : Numerics}.

Lemma border_distance_entries x1_dst y1_dst x1 y1 shape1 kw seeds :
  length y1_dst = length x1_dst ->
  (Z.of_nat shape1.1 <= int16_max)%Z -> (Z.of_nat shape1.2 <= int16_max)%Z ->
  Forall is_float64 x1_dst -> Forall is_float64 y1_dst ->
  broadcast2 (map np_uint16 y1) (map np_uint16 x1) = Ok seeds ->
  Forall (fun p => (p.1 < Z.of_nat shape1.1)%Z /\ (p.2 < Z.of_nat shape1.2)%Z) seeds ->
  exists border,
    border_distance x1_dst y1_dst x1 y1 shape1 kw = Ok border /\
    length border = length x1_dst /\
    forall i x y, x1_dst !! i = Some x -> y1_dst !! i = Some y ->
      if in_image x y shape1
      then exists r c, py_int y = Ok r /\ py_int x = Ok c /\
             (0 <= r < Z.of_nat shape1.1)%Z /\ (0 <= c < Z.of_nat shape1.2)%Z /\
             border !! i = Some (edt_value seeds r c)
      else border !! i = Some (fadd f0 (max_border kw)).
Proof.
  intros Hlen Hrows Hcols Hfx Hfy Hseeds Hin.
  unfold border_distance, border_distance_with, get_distance_to_nearest_keypoint.
  rewrite Hseeds, ok_bind, (collect_seed_index _ _ Hin), !ok_bind.
  set (gpi := vand _ _).
  set (img := distance_transform_edt shape1 seeds).
  assert (length gpi = length x1_dst) as Hg.
  { subst gpi. unfold vand, vge_s, vlt_s. lengths. lia. }
  assert (forall i x y, x1_dst !! i = Some x -> y1_dst !! i = Some y ->
            gpi !! i = Some (in_image x y shape1)) as Hgi
    by (intros; apply in_image_lookup; assumption).
  rewrite !mask_select_ok, !ok_bind by (rewrite length_map; lia).
  (* what each valid point reads from the distance image *)
  assert (forall i x y, x1_dst !! i = Some x -> y1_dst !! i = Some y ->
            in_image x y shape1 = true ->
            exists r c, py_int y = Ok r /\ py_int x = Ok c /\
              (0 <= r < Z.of_nat shape1.1)%Z /\ (0 <= c < Z.of_nat shape1.2)%Z /\
              np_int16 y = r /\ np_int16 x = c) as Hpix.
  { intros i x y Hx Hy Hb. unfold in_image in Hb.
    apply andb_true_iff in Hb as [Hb H4]. apply andb_true_iff in Hb as [Hb H3].
    apply andb_true_iff in Hb as [H1 H2].
    rewrite Forall_lookup in Hfx, Hfy.
    destruct (in_bounds_index x shape1.2 (Hfx i x Hx) Hcols H1 H2) as (c & Hc & Hcr & Hc16).
    destruct (in_bounds_index y shape1.1 (Hfy i y Hy) Hrows H3 H4) as (r & Hr & Hrr & Hr16).
    exists r, c. auto 10. }
  set (rows := select gpi (map np_int16 y1_dst)).
  set (cols := select gpi (map np_int16 x1_dst)).
  set (sample j := match valid_indices gpi !! j with
                   | Some i => edt_value seeds (np_int16 (nth i y1_dst f0))
                                               (np_int16 (nth i x1_dst f0))
                   | None => f0
                   end).
  destruct (collect_lookup (zip_with (py_index2 img) rows cols) sample)
    as (vals & Hvals & Hvlen & Hvat).
  { intros j res Hj. rewrite lookup_zip_with in Hj. subst rows cols.
    rewrite !select_lookup in Hj by (rewrite length_map; lia).
    unfold sample. destruct (valid_indices gpi !! j) as [i|] eqn:Ei; [|discriminate Hj].
    cbn [mbind option_bind] in Hj. rewrite !map_fmap, !list_lookup_fmap in Hj.
    assert (gpi !! i = Some true) as Hti.
    { apply elem_of_valid_indices. eapply list_elem_of_lookup_2. exact Ei. }
    destruct (lookup_lt_is_Some_2 x1_dst i) as [x Hx].
    { apply lookup_lt_Some in Hti. lia. }
    destruct (lookup_lt_is_Some_2 y1_dst i) as [y Hy].
    { apply lookup_lt_Some in Hti. lia. }
    rewrite Hx, Hy in Hj. cbn in Hj. injection Hj as <-.
    rewrite (nth_lookup_Some _ _ _ _ Hx), (nth_lookup_Some _ _ _ _ Hy).
    rewrite (Hgi i x y Hx Hy) in Hti. injection Hti as Hti.
    destruct (Hpix i x y Hx Hy Hti) as (r & c & _ & _ & Hr & Hc & -> & ->).
    apply edt_lookup; assumption. }
  rewrite Hvals, ok_bind.
  assert (length vals = count_true gpi) as Hvc.
  { rewrite Hvlen, length_zip_with. subst rows cols.
    rewrite !length_select by (rewrite length_map; lia). lia. }
  unfold mask_assign.
  destruct (decide (length gpi = length (zeros_plus (length x1_dst) (max_border kw))))
    as [_|N]; [|exfalso; apply N; unfold zeros_plus; rewrite length_replicate; exact Hg].
  destruct (decide (length vals = count_true gpi)) as [_|N]; [|contradiction].
  eexists. split; [reflexivity|]. split.
  { rewrite length_scatter. unfold zeros_plus. apply length_replicate. }
  intros i x y Hx Hy. specialize (Hgi i x y Hx Hy).
  destruct (in_image x y shape1) eqn:Eb.
  - destruct (Hpix i x y Hx Hy Eb) as (r & c & Hr & Hc & Hrr & Hcr & Hr16 & Hc16).
    exists r, c. repeat split; try assumption; try lia.
    rewrite scatter_inside;
      [| unfold zeros_plus; rewrite length_replicate; lia | exact Hvc | exact Hgi].
    rewrite Hvat by (rewrite <- Hvlen, Hvc; apply task_of_cell_lt, Hgi).
    unfold sample. rewrite (valid_indices_task_of_cell gpi i Hgi).
    rewrite (nth_lookup_Some _ _ _ _ Hx), (nth_lookup_Some _ _ _ _ Hy), Hr16, Hc16.
    reflexivity.
  - rewrite scatter_outside by (rewrite Hgi; discriminate).
    apply lookup_zeros_plus. apply lookup_lt_Some in Hx. exact Hx.
Qed.


(** X10. Under the distance policy, with float64 query coordinates, an
    image1 of at most 32767 rows and columns and
    [0 < min_border <= max_border]: at a query point where the local
    interpolation of y is defined, the border returned by
    [prepare_first_guess] is [max_border] (as a number) if the point
    fails the bounds check of lines 301-302, and [min_border] if it lies
    on the pixel of a correspondence point. *)
Theorem prepare_first_guess_distance_border x1_dst y1_dst n1 x1 y1 n2 x2 y2 img_size kw
    x2fg y2fg border near :
  length y1_dst = length x1_dst -> length x1 = length y1 ->
  (Z.of_nat (length x1) > min_fg_pts kw)%Z ->
  old_border kw = true ->
  (Z.of_nat (nshape n1).1 <= int16_max)%Z -> (Z.of_nat (nshape n1).2 <= int16_max)%Z ->
  Forall is_float64 x1_dst -> Forall is_float64 y1_dst ->
  flt f0 (min_border kw) = true -> fle (min_border kw) (max_border kw) = true ->
  x2y2_interpolation_near x1 y1 x2 y2 = Ok near ->
  prepare_first_guess x1_dst y1_dst n1 x1 y1 n2 x2 y2 img_size kw
    = Ok (x2fg, y2fg, border) ->
  forall i x y, x1_dst !! i = Some x -> y1_dst !! i = Some y ->
    fisnan (near x y).2 = false ->
    exists b, border !! i = Some b /\
      (in_image x y (nshape n1) = false -> feq b (max_border kw) = true) /\
      (in_image x y (nshape n1) = true ->
       forall k xk yk, x1 !! k = Some xk -> y1 !! k = Some yk ->
         np_uint16 yk = np_int16 y -> np_uint16 xk = np_int16 x ->
         b = min_border kw).
Proof.
  intros Hlen Hkp Hn Hold Hrows Hcols Hfx Hfy Hmin Hmm Enear H i x y Hx Hy Hy2.
  unfold prepare_first_guess in H.
  replace (Z.of_nat (length x1) >? min_fg_pts kw)%Z with true in H
    by (symmetry; rewrite Z.gtb_ltb; apply Z.ltb_lt; lia).
  destruct (x2y2_interpolation_poly x1 y1 x2 y2) as [poly|e] eqn:Ep; [|discriminate H].
  rewrite ok_bind in H.
  destruct (transform_points poly x1_dst y1_dst) as [x2p2 y2p2] eqn:Tp.
  rewrite Enear, ok_bind in H.
  destruct (transform_points near x1_dst y1_dst) as [x2n y2n] eqn:Tn.
  rewrite Hold in H.
  destruct (border_distance x1_dst y1_dst x1 y1 (nshape n1) kw) as [b0|e] eqn:Eb;
    [|discriminate H].
  rewrite ok_bind in H. injection H as <- <- <-.
  (* the seeds of a distance image that was returned *)
  pose proof Eb as Eb'. unfold border_distance, border_distance_with in Eb'.
  destruct (get_distance_to_nearest_keypoint x1 y1 (nshape n1)) as [img|e] eqn:Eimg;
    [|discriminate Eb']. clear Eb'.
  unfold get_distance_to_nearest_keypoint in Eimg.
  destruct (broadcast2 _ _) as [idx|e] eqn:Eidx; [|discriminate Eimg].
  rewrite ok_bind in Eimg.
  destruct (collect _) as [seeds|e] eqn:Ecol; [|discriminate Eimg].
  apply collect_seed_index_inv in Ecol as [-> Hin]. clear Eimg.
  destruct (border_distance_entries x1_dst y1_dst x1 y1 (nshape n1) kw idx
              Hlen Hrows Hcols Hfx Hfy Eidx Hin) as (b0' & Eb' & Hb0len & Hb0).
  rewrite Eb in Eb'. injection Eb' as <-.
  destruct (lookup_transform_points _ _ _ _ _ _ _ _ Tn Hx Hy) as [_ B2].
  specialize (Hb0 i x y Hx Hy).
  pose proof (fle_not_nan _ _ Hmm) as [_ Hmaxn].
  pose proof (fle_not_flt _ _ Hmm) as Hnlt.
  destruct (in_image x y (nshape n1)) eqn:Ein.
  - destruct Hb0 as (r & c & Hpr & Hpc & Hr & Hc & Hb).
    eexists. split; [apply (clamp_border_lookup _ _ _ _ _ _ Hb B2)|].
    split; [discriminate|]. intros _ k xk yk Hxk Hyk Hrk Hck.
    assert (edt_value idx r c = f0) as ->.
    { apply edt_value_seed.
      unfold in_image in Ein.
      apply andb_true_iff in Ein as [Ein H4]. apply andb_true_iff in Ein as [Ein H3].
      apply andb_true_iff in Ein as [H1 H2].
      rewrite Forall_lookup in Hfx, Hfy.
      destruct (in_bounds_index x _ (Hfx i x Hx) Hcols H1 H2) as (c' & Hc' & _ & Hc16).
      destruct (in_bounds_index y _ (Hfy i y Hy) Hrows H3 H4) as (r' & Hr' & _ & Hr16).
      rewrite Hpc in Hc'. injection Hc' as <-. rewrite Hpr in Hr'. injection Hr' as <-.
      rewrite Hr16 in Hrk. rewrite Hc16 in Hck. subst r c.
      unfold broadcast2 in Eidx.
      destruct (decide _) as [_|N]; [|exfalso; apply N; rewrite !length_map; lia].
      injection Eidx as <-. eapply list_elem_of_lookup_2.
      apply zip_lookup_both; rewrite map_fmap, list_lookup_fmap.
      - rewrite Hyk. reflexivity.
      - rewrite Hxk. reflexivity. }
    unfold clamp1. rewrite Hmin. unfold fgt. rewrite Hnlt, Hy2. reflexivity.
  - eexists. split; [apply (clamp_border_lookup _ _ _ _ _ _ Hb0 B2)|].
    split; [|discriminate]. intros _.
    pose proof (feq_fadd_f0 _ Hmaxn) as Hfeq.
    unfold clamp1, fgt.
    rewrite (flt_feq_l _ _ _ Hfeq), Hnlt, (flt_feq_r _ _ _ Hfeq), flt_irrefl, Hy2.
    exact Hfeq.
Qed.

End ClampedDistance.

(** ** Results in normal form

    What the additions and subtractions of SpecFloat return is a float64
    in canonical form. *)

Local Open Scope Z_scope.

Lemma Zdigits2_bounds m :
  (0 < m)%Z -> (2 ^ (Zdigits2 m - 1) <= m < 2 ^ Zdigits2 m)%Z.
Proof.
  destruct m as [|p|p]; try lia. intros _. cbn [Zdigits2].
  split; [apply digits2_pos_lower | apply digits2_pos_bound].
Qed.

Lemma Zdigits2_pos m : (0 < m)%Z -> (0 < Zdigits2 m)%Z.
Proof. destruct m; cbn; lia. Qed.

Lemma Zdigits2_unique m d :
  (2 ^ (d - 1) <= m < 2 ^ d)%Z -> (0 < m)%Z -> Zdigits2 m = d.
Proof.
  intros [Hlo Hhi] Hm. pose proof (Zdigits2_bounds m Hm) as [Hlo' Hhi'].
  pose proof (Zdigits2_pos m Hm) as Hd.
  assert (0 < d)%Z as Hd'.
  { destruct (Z.lt_ge_cases 0 d) as [|Hle]; [assumption|].
    assert (2 ^ d <= 2 ^ 0)%Z by (apply Z.pow_le_mono_r; lia). cbn in *. lia. }
  destruct (Z.lt_trichotomy (Zdigits2 m) d) as [Hlt|[Heq|Hgt]]; [|exact Heq|].
  - assert (2 ^ Zdigits2 m <= 2 ^ (d - 1))%Z by (apply Z.pow_le_mono_r; lia). lia.
  - assert (2 ^ d <= 2 ^ (Zdigits2 m - 1))%Z by (apply Z.pow_le_mono_r; lia). lia.
Qed.

Lemma Zdigits2_shift m n :
  (0 < m)%Z -> (0 <= n < Zdigits2 m)%Z ->
  (0 < m / 2 ^ n)%Z /\ Zdigits2 (m / 2 ^ n) = (Zdigits2 m - n)%Z.
Proof.
  intros Hm Hn. pose proof (Zdigits2_bounds m Hm) as [Hlo Hhi].
  set (d := Zdigits2 m) in *.
  assert (0 < 2 ^ n)%Z as Hp by (apply Z.pow_pos_nonneg; lia).
  assert (2 ^ (d - 1) = 2 ^ (d - n - 1) * 2 ^ n)%Z as E1
    by (rewrite <- Z.pow_add_r by lia; f_equal; lia).
  assert (2 ^ d = 2 ^ (d - n) * 2 ^ n)%Z as E2
    by (rewrite <- Z.pow_add_r by lia; f_equal; lia).
  assert (2 ^ (d - n - 1) <= m / 2 ^ n)%Z as Hlo'.
  { apply Z.div_le_lower_bound; [exact Hp|]. rewrite Z.mul_comm, <- E1. exact Hlo. }
  assert (m / 2 ^ n < 2 ^ (d - n))%Z as Hhi'.
  { apply Z.div_lt_upper_bound; [exact Hp|]. rewrite Z.mul_comm, <- E2. exact Hhi. }
  assert (0 < 2 ^ (d - n - 1))%Z by (apply Z.pow_pos_nonneg; lia).
  split; [lia|]. apply Zdigits2_unique; [|lia].
  replace (d - n - 1)%Z with (d - n - 1)%Z in Hlo' by lia. split; assumption.
Qed.

Lemma Zdigits2_shift_out m n :
  (0 < m)%Z -> (Zdigits2 m <= n)%Z -> (m / 2 ^ n = 0)%Z.
Proof.
  intros Hm Hn. pose proof (Zdigits2_bounds m Hm) as [_ Hhi].
  pose proof (Zdigits2_pos m Hm).
  apply Z.div_small. split; [lia|].
  assert (2 ^ Zdigits2 m <= 2 ^ n)%Z by (apply Z.pow_le_mono_r; lia). lia.
Qed.

Lemma Zdigits2_succ m :
  (0 <= m)%Z -> Zdigits2 (m + 1) = Zdigits2 m \/ Zdigits2 (m + 1) = (Zdigits2 m + 1)%Z.
Proof.
  intros Hm. destruct (Z.eq_dec m 0) as [->|Hne]; [right; reflexivity|].
  assert (0 < m)%Z as Hpos by lia.
  pose proof (Zdigits2_bounds m Hpos) as [Hlo Hhi].
  pose proof (Zdigits2_pos m Hpos) as Hd.
  destruct (Z.eq_dec (m + 1) (2 ^ Zdigits2 m)) as [E|N].
  - right. apply Zdigits2_unique; [|lia].
    replace (Zdigits2 m + 1 - 1)%Z with (Zdigits2 m) by lia.
    rewrite Z.pow_add_r, Z.pow_1_r by lia. lia.
  - left. apply Zdigits2_unique; lia.
Qed.

Lemma shr_1_half mrs : (0 <= shr_m mrs)%Z -> shr_m (shr_1 mrs) = (shr_m mrs / 2)%Z.
Proof.
  destruct mrs as [m r s]. cbn [shr_m]. intros Hm.
  destruct m as [|[p|p|]|p]; cbn [shr_1 shr_m].
  - reflexivity.
  - apply Z.div_unique with (r := 1%Z); lia.
  - apply Z.div_unique with (r := 0%Z); lia.
  - reflexivity.
  - lia.
Qed.

Lemma shr_iter_half p : forall mrs,
  (0 <= shr_m mrs)%Z ->
  shr_m (SpecFloat.iter_pos shr_1 p mrs) = (shr_m mrs / 2 ^ Zpos p)%Z.
Proof.
  induction p as [p IH|p IH|]; intros mrs Hm; cbn [SpecFloat.iter_pos].
  - rewrite IH, IH, shr_1_half by
      (try apply (iter_pos_invariant (fun r => 0 <= shr_m r)%Z);
       auto using shr_1_nonneg).
    rewrite !Z.div_div by (try apply Z.pow_pos_nonneg; lia).
    f_equal. rewrite Pos2Z.inj_xI, <- Z.pow_add_r, <- (Z.pow_1_r 2) at 1 by lia.
    rewrite <- Z.pow_add_r by lia. f_equal. lia.
  - rewrite IH, IH by
      (try apply (iter_pos_invariant (fun r => 0 <= shr_m r)%Z);
       auto using shr_1_nonneg).
    rewrite !Z.div_div by (try apply Z.pow_pos_nonneg; lia).
    f_equal. rewrite Pos2Z.inj_xO, <- Z.pow_add_r by lia. f_equal. lia.
  - rewrite shr_1_half by exact Hm. reflexivity.
Qed.

(** The mantissa and the exponent after the shift of [shr_fexp]. *)
Lemma shr_fexp_value m e l :
  (0 <= m)%Z ->
  let n := Z.max 0 (fexp prec emax (Zdigits2 m + e) - e) in
  shr_m (shr_fexp prec emax m e l).1 = (m / 2 ^ n)%Z /\
  (shr_fexp prec emax m e l).2 = (e + n)%Z.
Proof.
  intros Hm n. unfold shr_fexp, shr. subst n.
  assert (shr_m (shr_record_of_loc m l) = m) as E0 by (destruct l as [|[]]; reflexivity).
  destruct (fexp prec emax (Zdigits2 m + e) - e)%Z as [|p|p] eqn:En; cbn [fst snd].
  - rewrite E0. cbn. rewrite Z.div_1_r. split; [reflexivity | lia].
  - rewrite shr_iter_half by (rewrite E0; exact Hm). rewrite E0.
    replace (Z.max 0 (Zpos p)) with (Zpos p) by lia. split; reflexivity.
  - rewrite E0. replace (Z.max 0 (Zneg p)) with 0%Z by lia.
    cbn. rewrite Z.div_1_r. split; [reflexivity | lia].
Qed.

Lemma round_nearest_even_cases m l :
  round_nearest_even m l = m \/ round_nearest_even m l = (m + 1)%Z.
Proof. unfold round_nearest_even. destruct l as [|[]]; try destruct (Z.even m); auto. Qed.

Lemma fexp_eq k : fexp prec emax k = Z.max (k - 53) (-1074).
Proof. reflexivity. Qed.

Ltac fexp_max :=
  repeat match goal with
  | H : context [fexp prec emax ?k] |- _ => rewrite (fexp_eq k) in H
  | |- context [fexp prec emax ?k] => rewrite (fexp_eq k)
  end.

(** Rounding a mantissa that is not shorter than the format asks for. *)
Lemma binary_round_aux_valid s m e l :
  (0 < m)%Z -> (e <= fexp prec emax (Zdigits2 m + e))%Z ->
  valid_binary prec emax (binary_round_aux prec emax s m e l) = true.
Proof.
  intros Hm He. unfold binary_round_aux.
  destruct (shr_fexp_value m e l ltac:(lia)) as [V1 V2].
  destruct (shr_fexp prec emax m e l) as [mrs1 e1]. cbn [fst snd] in V1, V2.
  set (D := (Zdigits2 m + e)%Z) in *.
  replace (Z.max 0 (fexp prec emax D - e)) with (fexp prec emax D - e)%Z in V1, V2 by lia.
  set (n := (fexp prec emax D - e)%Z) in *.
  assert (e1 = fexp prec emax D) as He1 by lia.
  set (m1 := shr_m mrs1) in *.
  pose proof (Zdigits2_pos m Hm) as Hd.
  assert (0 <= m1)%Z as Hm1.
  { rewrite V1. apply Z.div_pos; [lia | apply Z.pow_pos_nonneg; lia]. }
  assert ((0 < m1 /\ Zdigits2 m1 + e1 = D) \/ (m1 = 0 /\ e1 = -1074))%Z as Hcase.
  { destruct (Z.lt_ge_cases n (Zdigits2 m)) as [Hlt|Hge].
    - left. destruct (Zdigits2_shift m n Hm ltac:(lia)) as [Hp Hdig].
      rewrite <- V1 in Hp, Hdig. split; [exact Hp|]. rewrite Hdig. lia.
    - right. split; [rewrite V1; apply Zdigits2_shift_out; assumption|].
      fexp_max. lia. }
  set (m2 := round_nearest_even m1 (loc_of_shr_record mrs1)).
  assert (m2 = m1 \/ m2 = m1 + 1) as Hm2e by apply round_nearest_even_cases.
  assert (0 <= m2)%Z as Hm2 by lia.
  assert (m2 = 0 \/ (0 < m2 /\ e1 <= fexp prec emax (Zdigits2 m2 + e1) <= e1 + 1))%Z as Hm2c.
  { destruct (Z.eq_dec m2 0) as [|Hne]; [left; assumption | right]. split; [lia|].
    destruct Hm2e as [E|E].
    - destruct Hcase as [[Hp Hdig]|[Hz _]]; [|lia].
      rewrite E, Hdig, <- He1. lia.
    - destruct Hcase as [[Hp Hdig]|[Hz Hmin]].
      + rewrite E. destruct (Zdigits2_succ m1 Hm1) as [->| ->].
        * rewrite Hdig, <- He1. lia.
        * replace (Zdigits2 m1 + 1 + e1)%Z with (D + 1)%Z by lia.
          fexp_max. lia.
      + rewrite E, Hz, Hmin. vm_compute. split; discriminate. }
  destruct (shr_fexp_value m2 e1 loc_Exact Hm2) as [W1 W2].
  destruct (shr_fexp prec emax m2 e1 loc_Exact) as [mrs2 e2]. cbn [fst snd] in W1, W2.
  destruct Hm2c as [Hz|[Hp Hf]].
  - rewrite Hz in W1. rewrite Z.div_0_l in W1
      by (apply Z.pow_nonzero; lia). rewrite W1. reflexivity.
  - set (n2 := (fexp prec emax (Zdigits2 m2 + e1) - e1)%Z) in *.
    replace (Z.max 0 n2) with n2 in W1, W2 by lia.
    pose proof (Zdigits2_pos m2 Hp) as Hd2.
    assert (n2 < Zdigits2 m2)%Z as Hn2.
    { unfold n2 in *. fexp_max. lia. }
    destruct (Zdigits2_shift m2 n2 Hp ltac:(lia)) as [Hp3 Hdig3].
    rewrite <- W1 in Hp3, Hdig3.
    destruct (shr_m mrs2) as [|m3|m3] eqn:E3; try lia.
    destruct (e2 <=? emax - prec)%Z eqn:Ele; [|reflexivity].
    cbn [valid_binary]. unfold bounded, canonical_mantissa. rewrite Ele, andb_true_r.
    apply Z.eqb_eq. cbn [Zdigits2] in Hdig3. rewrite Hdig3, W2.
    unfold n2 in *. fexp_max. lia.
Qed.

Lemma binary_round_valid s m e :
  valid_binary prec emax (binary_round prec emax s m e) = true.
Proof.
  unfold binary_round.
  destruct (shl_align m e (fexp prec emax (Zpos (digits2_pos m) + e))) as [mz ez] eqn:E.
  apply binary_round_aux_valid; [lia|].
  unfold shl_align in E.
  destruct (fexp prec emax (Zpos (digits2_pos m) + e) - e)%Z as [|d|d] eqn:Ed;
    injection E as <- <-; cbn [Zdigits2]; try lia.
  rewrite digits2_pos_shift, Pos2Z.inj_add.
  replace (Zpos (digits2_pos m) + Zpos d + fexp prec emax (Zpos (digits2_pos m) + e))%Z
    with (Zpos (digits2_pos m) + e)%Z by lia.
  lia.
Qed.

Lemma binary_normalize_valid m e s :
  valid_binary prec emax (binary_normalize prec emax m e s) = true.
Proof. destruct m; cbn [binary_normalize]; [reflexivity | |]; apply binary_round_valid. Qed.

Lemma fadd_valid x y : is_float64 x -> is_float64 y -> is_float64 (fadd x y).
Proof.
  unfold is_float64, fadd. intros Hx Hy.
  destruct x as [sx|sx| |sx mx ex], y as [sy|sy| |sy my ey]; cbn [SFadd];
    try assumption; try reflexivity;
    try (destruct sx, sy; reflexivity).
  apply binary_normalize_valid.
Qed.

Local Close Scope Z_scope.

(** ** Scaling to uint8 *)

Lemma fsub_finite_args a b : nonzero_finite (fsub a b) = true ->
  np_isfinite a = true /\ np_isfinite b = true.
Proof.
  destruct a as [sa|sa| |sa ma ea], b as [sb|sb| |sb mb eb]; cbn;
    try discriminate; auto; destruct sa, sb; discriminate.
Qed.

Lemma binary_normalize_not_nan m e s : fisnan (binary_normalize prec emax m e s) = false.
Proof.
  destruct m as [|p|p]; cbn [binary_normalize]; [reflexivity | |];
    unfold binary_round; destruct (shl_align _ _ _) as [mz ez];
    eapply signed_as_not_nan, binary_round_aux_signed; lia.
Qed.

Lemma fsub_finite_not_nan a b :
  np_isfinite a = true -> np_isfinite b = true -> fisnan (fsub a b) = false.
Proof.
  destruct a as [sa|sa| |sa ma ea], b as [sb|sb| |sb mb eb]; cbn; try discriminate;
    intros _ _; try reflexivity.
  - destruct sa, sb; reflexivity.
  - apply binary_normalize_not_nan.
Qed.

Lemma fmul_f254_not_nan y : fisnan y = false -> fisnan (fmul f254 y) = false.
Proof.
  destruct y as [s|s| |s m e]; cbn; auto. intros _.
  unfold fmul, f254, SFmul. eapply signed_as_not_nan, binary_round_aux_signed. lia.
Qed.

Lemma fdiv_not_nan n d :
  fisnan n = false -> nonzero_finite d = true -> fisnan (fdiv n d) = false.
Proof.
  destruct d as [sd|sd| |sd md ed]; try discriminate. intros Hn _.
  destruct n as [sn|sn| |sn mn en]; try discriminate; try reflexivity.
  unfold fdiv, SFdiv.
  destruct (SFdiv_core_binary prec emax (Zpos mn) en (Zpos md) ed) as [[mz ez] lz] eqn:E.
  eapply signed_as_not_nan, binary_round_aux_signed.
  unfold SFdiv_core_binary in E.
  set (m' := match (en - ed - _)%Z with Zpos _ => _ | Z0 => _ | Zneg _ => _ end) in E.
  assert (0 <= m')%Z as Hm'.
  { subst m'. destruct (en - ed - _)%Z; try lia. apply Z.shiftl_nonneg. lia. }
  pose proof (Z.div_pos m' (Zpos md) Hm' ltac:(lia)) as Hq.
  unfold Z.div in Hq. destruct (Z.div_eucl m' (Zpos md)) as [q r].
  injection E as <- _ _. exact Hq.
Qed.

Lemma fadd_f1_not_nan q : fisnan q = false -> fisnan (fadd f1 q) = false.
Proof.
  destruct q as [s|s| |s m e]; cbn; auto. intros _. apply binary_normalize_not_nan.
Qed.

Lemma fadd_f1_valid q : is_float64 (fadd f1 q).
Proof.
  destruct q as [s|s| |s m e]; try reflexivity.
  unfold is_float64, fadd, f1, SFadd. apply binary_normalize_valid.
Qed.

Lemma scale_pixel_not_nan lo hi x :
  nonzero_finite (fsub hi lo) = true -> np_isfinite x = true ->
  fisnan (scale_pixel lo hi x) = false.
Proof.
  intros Hd Hx. destruct (fsub_finite_args _ _ Hd) as [_ Hlo].
  unfold scale_pixel.
  apply fadd_f1_not_nan, fdiv_not_nan; [|exact Hd].
  apply fmul_f254_not_nan, fsub_finite_not_nan; assumption.
Qed.

(** A float64 between 1 and 255 truncates to an integer between 1 and 255. *)
Lemma py_int_1_255 z :
  is_float64 z -> fle f1 z = true -> fle z f255 = true ->
  exists v, py_int z = Ok v /\ (1 <= v <= 255)%Z.
Proof.
  intros Hv H1 H2.
  apply fle_rank in H1 as (_ & _ & H1). apply fle_rank in H2 as (_ & _ & H2).
  destruct z as [s|s| |s m e]; cbn [rank] in H1, H2.
  - exfalso. unfold lex_lt, f1 in H1. cbn in H1. destruct H1 as [H1|H1]; [lia | discriminate].
  - exfalso. destruct s; unfold lex_lt, f1, f255 in *; cbn in *;
      [destruct H1 as [H1|H1]; [lia | discriminate]
      |destruct H2 as [H2|H2]; [lia | discriminate]].
  - exfalso. unfold lex_lt, f1 in H1. cbn in H1. destruct H1 as [H1|H1]; [lia | discriminate].
  - destruct s.
    { exfalso. unfold lex_lt, f1 in H1. cbn in H1. destruct H1 as [H1|H1]; [lia | discriminate]. }
    unfold is_float64, valid_binary, bounded, canonical_mantissa in Hv.
    apply andb_true_iff in Hv as [Hc _]. apply Z.eqb_eq in Hc. rewrite fexp_eq in Hc.
    assert ((-52 <= e <= -45) /\ (e = -52 -> 4503599627370496 <= Zpos m) /\
            (e = -45 -> Zpos m <= 8972014882652160))%Z as (He & Hlo & Hhi).
    { unfold lex_lt, f1, f255 in H1, H2. cbn in H1, H2.
      destruct H1 as [H1|H1]; [|injection H1 as <- <-];
        destruct H2 as [H2|H2]; try (injection H2 as -> ->); lia. }
    pose proof (digits2_pos_lower m) as Dlo. pose proof (digits2_pos_bound m) as Dhi.
    replace (Zpos (digits2_pos m)) with 53%Z in Dlo, Dhi by lia.
    change (2 ^ (53 - 1))%Z with 4503599627370496%Z in Dlo.
    change (2 ^ 53)%Z with 9007199254740992%Z in Dhi.
    assert (e = -45 \/ e = -46 \/ e = -47 \/ e = -48 \/ e = -49 \/
            e = -50 \/ e = -51 \/ e = -52)%Z as Hp by lia.
    destruct Hp as [E | [E | [E | [E | [E | [E | [E | E]]]]]]]; subst e;
      cbn [py_int cond_Zopp split_mag fst]; (eexists; split; [reflexivity|]);
      rewrite Z.shiftr_div_pow2 by lia;
      match goal with |- context [(2 ^ ?k)%Z] =>
        let v := eval vm_compute in (2 ^ k)%Z in change (2 ^ k)%Z with v end;
      (split; [apply Z.div_le_lower_bound; lia|]);
      match goal with |- (?q <= 255)%Z =>
        assert (q < 256)%Z; [apply Z.div_lt_upper_bound; lia | lia] end.
Qed.

Lemma np_uint8_1_255 z :
  is_float64 z -> fle f1 z = true -> fle z f255 = true -> (1 <= np_uint8 z <= 255)%Z.
Proof.
  intros Hv H1 H2. destruct (py_int_1_255 z Hv H1 H2) as (v & Hz & Hb).
  unfold np_uint8. rewrite (to_int32_fits _ v Hz), Z.mod_small; lia.
Qed.

Lemma pixel_to_uint8_finite lo hi x :
  nonzero_finite (fsub hi lo) = true -> np_isfinite x = true ->
  (1 <= pixel_to_uint8 lo hi x <= 255)%Z.
Proof.
  intros Hd Hx. unfold pixel_to_uint8. rewrite Hx. cbn [negb].
  pose proof (scale_pixel_not_nan lo hi x Hd Hx) as Hs.
  assert (is_float64 (scale_pixel lo hi x)) as Hv by apply fadd_f1_valid.
  set (s := scale_pixel lo hi x) in *.
  set (s1 := if flt s f1 then f1 else s).
  assert (is_float64 s1 /\ fle f1 s1 = true) as [Hv1 Hl1].
  { subst s1. destruct (flt s f1) eqn:E; [split; reflexivity|].
    split; [exact Hv | apply fle_total; [reflexivity | exact Hs | exact E]]. }
  set (s2 := if fgt s1 f255 then f255 else s1).
  assert (is_float64 s2 /\ fle f1 s2 = true /\ fle s2 f255 = true) as (Hv2 & Hl2 & Hu2).
  { subst s2. unfold fgt. destruct (flt f255 s1) eqn:E; [repeat split; reflexivity|].
    repeat split; [exact Hv1 | exact Hl1 |].
    apply fle_total; [|reflexivity | exact E]. apply fle_not_nan in Hl1. tauto. }
  apply np_uint8_1_255; assumption.
Qed.

Lemma pixel_to_uint8_invalid lo hi x : np_isfinite x = false -> pixel_to_uint8 lo hi x = 0%Z.
Proof. intros Hx. unfold pixel_to_uint8. rewrite Hx. reflexivity. Qed.

Lemma mask_fill_maps {A B} (p : A -> bool) (f : A -> B) (l : list A) v :
  mask_fill (map p l) (map f l) v = map (fun x => if p x then v else f x) l.
Proof.
  unfold mask_fill. induction l as [|x l IH]; [reflexivity|].
  cbn [map zip_with]. rewrite IH. reflexivity.
Qed.

Lemma mask_fill2_maps {A B} (p : A -> bool) (f : A -> B) (m : list (list A)) v :
  mask_fill2 (map (map p) m) (map (map f) m) v
    = map (map (fun x => if p x then v else f x)) m.
Proof.
  unfold mask_fill2. induction m as [|row m IH]; [reflexivity|].
  cbn [map zip_with]. rewrite IH, mask_fill_maps. reflexivity.
Qed.

Lemma mask_fill2_map {A} (p : A -> bool) (m : list (list A)) v :
  mask_fill2 (map (map p) m) m v = map (map (fun x => if p x then v else x)) m.
Proof.
  unfold mask_fill2. induction m as [|row m IH]; [reflexivity|].
  cbn [map zip_with]. rewrite IH, mask_fill_map. reflexivity.
Qed.

Lemma map_map2 {A B C} (f : A -> B) (g : B -> C) (m : list (list A)) :
  map (map g) (map (map f) m) = map (map (fun x => g (f x))) m.
Proof.
  induction m as [|row m IH]; [reflexivity|]. cbn [map]. rewrite IH, List.map_map. reflexivity.
Qed.

Lemma get_uint8_image_pixels pct img vmin vmax lo hi :
  scale_bounds pct img vmin vmax = Ok (lo, hi) ->
  get_uint8_image pct img vmin vmax = Ok (map (map (pixel_to_uint8 lo hi)) img).
Proof.
  unfold scale_bounds, get_uint8_image. intros ->. rewrite ok_bind.
  rewrite !mask_fill2_map, !map_map2, mask_fill2_maps, map_map2. reflexivity.
Qed.

(** X11. Given bounds whose difference is a finite number other than
    zero, [get_uint8_image] returns an array of the shape of the image
    in which every finite pixel has a value from 1 to 255 and every
    NaN or infinite pixel has the value 0. *)
Theorem get_uint8_image_range pct img vmin vmax lo hi :
  scale_bounds pct img vmin vmax = Ok (lo, hi) ->
  nonzero_finite (fsub hi lo) = true ->
  exists out,
    get_uint8_image pct img vmin vmax = Ok out /\
    length out = length img /\
    forall r row, img !! r = Some row ->
      exists orow, out !! r = Some orow /\ length orow = length row /\
        forall c x, row !! c = Some x ->
          exists v, orow !! c = Some v /\
            (if np_isfinite x then (1 <= v <= 255)%Z else v = 0%Z).
Proof.
  intros Hb Hd. eexists. split; [apply get_uint8_image_pixels; exact Hb|].
  split; [apply length_map|]. intros r row Hr.
  exists (map (pixel_to_uint8 lo hi) row).
  split; [rewrite map_fmap, list_lookup_fmap, Hr; reflexivity|].
  split; [apply length_map|]. intros c x Hx.
  exists (pixel_to_uint8 lo hi x).
  split; [rewrite map_fmap, list_lookup_fmap, Hx; reflexivity|].
  destruct (np_isfinite x) eqn:E.
  - apply pixel_to_uint8_finite; assumption.
  - apply pixel_to_uint8_invalid. exact E.
Qed.

(** ** Filling a grid and reading it back *)

Lemma select_scatter {A} gpi : forall (y data : list A),
  length y = length gpi -> length data = count_true gpi ->
  select gpi (scatter gpi y data) = data.
Proof.
  induction gpi as [|g gs IH]; intros y data Hy Hd.
  - destruct data; [|discriminate Hd]. destruct y; reflexivity.
  - destruct y as [|y0 ys]; [discriminate Hy|]. injection Hy as Hy.
    rewrite count_true_cons in Hd. destruct g.
    + destruct data as [|d ds]; [discriminate Hd|]. cbn [scatter select].
      rewrite IH; [reflexivity | exact Hy | cbn in Hd; lia].
    + cbn [scatter select]. apply IH; [exact Hy | exact Hd].
Qed.

(** X12. [_fill_gpi] followed by selection with the same mask gives the
    data back: with a mask of as many entries as the shape has cells
    and one value per true entry, the grid returned has the requested
    shape, holds the values, in order, at the true entries of the mask,
    and NaN everywhere else. *)
Theorem fill_gpi_round_trip shape gpi data :
  length gpi = grid_size shape -> length data = count_true gpi ->
  exists g,
    _fill_gpi shape gpi data = Ok g /\ gshape g = shape /\ wf_grid g /\
    mask_select gpi (gdata g) = Ok data /\
    forall i, gpi !! i = Some false -> gdata g !! i = Some np_nan.
Proof.
  intros Hg Hd. unfold _fill_gpi, mask_assign.
  assert (length (zeros_plus (grid_size shape) np_nan) = length gpi) as Hz
    by (unfold zeros_plus; rewrite length_replicate; lia).
  destruct (decide (length gpi = _)) as [_|N]; [|exfalso; apply N; lia].
  destruct (decide (length data = count_true gpi)) as [_|N]; [|contradiction].
  rewrite ok_bind. eexists. split; [reflexivity|]. cbn [gshape gdata].
  split; [reflexivity|]. split; [|split].
  - unfold wf_grid. cbn [gdata gshape]. rewrite length_scatter. lia.
  - unfold mask_select. rewrite length_scatter.
    destruct (decide (length gpi = _)) as [_|N]; [|exfalso; apply N; lia].
    rewrite select_scatter by assumption. reflexivity.
  - intros i Hi. rewrite scatter_outside by (rewrite Hi; discriminate).
    apply lookup_zeros_plus. apply lookup_lt_Some in Hi. lia.
Qed.

(** ** Displacement in pixels of the first image *)

Lemma np_subtract_same_length a b : length a = length b -> np_subtract a b = Ok (vsub a b).
Proof. intros H. unfold np_subtract. destruct (decide _); [reflexivity | contradiction]. Qed.

Lemma transform_points_round_trip (f g : float -> float -> float * float) : forall xs ys,
  length xs = length ys ->
  (forall i x y, xs !! i = Some x -> ys !! i = Some y -> g (f x y).1 (f x y).2 = (x, y)) ->
  transform_points g (transform_points f xs ys).1 (transform_points f xs ys).2 = (xs, ys).
Proof.
  unfold transform_points. cbn [fst snd].
  induction xs as [|x xs IH]; intros [|y ys] Hlen Hrt; try discriminate; [reflexivity|].
  cbn [zip_with map fst snd]. injection Hlen as Hlen.
  specialize (IH ys Hlen (fun i => Hrt (S i))). cbn [fst snd] in IH.
  injection IH as IH1 IH2. rewrite IH1, IH2, (Hrt 0 x y eq_refl eq_refl). reflexivity.
Qed.

(** X13. For points of one and the same image whose pixel-to-geographic
    transform is undone by its geographic-to-pixel transform,
    [get_displacement_pix] is the difference of the pixel coordinates,
    [x2 - x1] and [y2 - y1]. *)
Theorem get_displacement_pix_same_image n x1 y1 x2 y2 :
  length x1 = length x2 -> length y1 = length x2 -> length y2 = length x2 ->
  (forall i x y, x2 !! i = Some x -> y2 !! i = Some y ->
     geo2pix n (pix2geo n x y).1 (pix2geo n x y).2 = (x, y)) ->
  get_displacement_pix n x1 y1 n x2 y2 = Ok (vsub x2 x1, vsub y2 y1).
Proof.
  intros H1 H2 H3 Hrt. unfold get_displacement_pix.
  pose proof (transform_points_round_trip (pix2geo n) (geo2pix n) x2 y2
                ltac:(lia) Hrt) as E.
  destruct (transform_points (pix2geo n) x2 y2) as [lon2 lat2]. cbn [fst snd] in E.
  rewrite E, !np_subtract_same_length by lia. reflexivity.
Qed.

(** ** What the mask lets through *)

Lemma fsub_low_l x y :
  x = neg_inf \/ x = np_nan -> fsub x y = neg_inf \/ fsub x y = np_nan.
Proof. intros [-> | ->]; destruct y as [s|[]| |s m e]; cbn; auto. Qed.

Lemma fsub_low_r x y :
  y = S754_infinity false \/ y = np_nan -> fsub x y = neg_inf \/ fsub x y = np_nan.
Proof. intros [-> | ->]; destruct x as [s|[]| |s m e]; cbn; auto. Qed.

Lemma fadd_high_l x y :
  x = S754_infinity false \/ x = np_nan ->
  fadd x y = S754_infinity false \/ fadd x y = np_nan.
Proof. intros [-> | ->]; destruct y as [s|[]| |s m e]; cbn; auto. Qed.

Lemma fgt_low x : x = neg_inf \/ x = np_nan -> fgt x f0 = false.
Proof. intros [-> | ->]; reflexivity. Qed.

Lemma flt_high x n : x = S754_infinity false \/ x = np_nan -> flt x n = false.
Proof. intros [-> | ->]; destruct n as [s|[]| |s m e]; reflexivity. Qed.

Lemma not_low_high_finite x :
  ~ (x = neg_inf \/ x = np_nan) -> ~ (x = S754_infinity false \/ x = np_nan) ->
  np_isfinite x = true.
Proof.
  intros H1 H2. destruct x as [s|[]| |s m e]; try reflexivity; exfalso; auto.
Qed.

Section MaskedPoints.
Context {numerics : Numerics}.

Lemma point_ok_finite a b c d e n1 n2 margin img_size :
  point_ok a b c d e n1 n2 margin img_size = true ->
  np_isfinite a = true /\ np_isfinite b = true /\
  np_isfinite c = true /\ np_isfinite d = true /\
  fisnan e = false /\ e <> S754_infinity false.
Proof.
  unfold point_ok. intros H.
  repeat match type of H with
         | (_ && _) = true => let H' := fresh "T" in apply andb_true_iff in H as [H H']
         end.
  assert (forall v pad n,
            fgt (fsub (fsub (fsub v pad) (fdiv (of_Z img_size) f2)) (of_Z margin)) f0 = true ->
            flt (fadd (fadd (fadd v pad) (fdiv (of_Z img_size) f2)) (of_Z margin)) n = true ->
            np_isfinite v = true /\ ~ (pad = S754_infinity false \/ pad = np_nan)) as Hwin.
  { intros v pad n Hlo Hhi. split.
    - apply not_low_high_finite; intros Hv.
      + rewrite fgt_low in Hlo; [discriminate Hlo|].
        do 2 apply fsub_low_l. apply fsub_low_l. exact Hv.
      + rewrite flt_high in Hhi; [discriminate Hhi|].
        do 2 apply fadd_high_l. apply fadd_high_l. exact Hv.
    - intros Hp. rewrite fgt_low in Hlo; [discriminate Hlo|].
      do 2 apply fsub_low_l. apply fsub_low_r. exact Hp. }
  assert (forall v h n,
            fgt (fsub (fsub v h) (of_Z margin)) f0 = true ->
            flt (fadd (fadd v h) (of_Z margin)) n = true ->
            np_isfinite v = true) as Htpl.
  { intros v h n Hlo Hhi. apply not_low_high_finite; intros Hv.
    - rewrite fgt_low in Hlo; [discriminate Hlo|].
      apply fsub_low_l, fsub_low_l. exact Hv.
    - rewrite flt_high in Hhi; [discriminate Hhi|].
      apply fadd_high_l, fadd_high_l. exact Hv. }
  destruct (Hwin _ _ _ H T4) as [Hc He].
  destruct (Hwin _ _ _ T5 T3) as [Hd _].
  pose proof (Htpl _ _ _ T2 T0) as Ha.
  pose proof (Htpl _ _ _ T1 T) as Hb.
  repeat split; try assumption.
  - destruct e; try reflexivity. exfalso. apply He. right. reflexivity.
  - intros ->. apply He. left. reflexivity.
Qed.

(** X14. Every point that the mask of [pattern_matching] lets through has
    finite coordinates on image1, a finite first guess on image2, and a
    border that is neither NaN nor plus infinity: a point whose first
    guess could not be interpolated is never handed to the matcher. *)
Theorem dispatched_points_are_finite lon1_dst lat1_dst n1 x1 y1 n2 x2 y2
    margin img_size kw x1_dst y1_dst x2fg y2fg border gpi i :
  first_guess_and_mask lon1_dst lat1_dst n1 x1 y1 n2 x2 y2 margin img_size kw
    = Ok (x1_dst, y1_dst, x2fg, y2fg, border, gpi) ->
  gpi !! i = Some true ->
  exists a b c d e,
    x1_dst !! i = Some a /\ y1_dst !! i = Some b /\ x2fg !! i = Some c /\
    y2fg !! i = Some d /\ border !! i = Some e /\
    np_isfinite a = true /\ np_isfinite b = true /\
    np_isfinite c = true /\ np_isfinite d = true /\
    fisnan e = false /\ e <> S754_infinity false.
Proof.
  intros Efg Hi.
  destruct (length_first_guess_and_mask _ _ _ _ _ _ _ _ _ _ _ _ _ _ _ _ _ Efg)
    as (L1 & L2 & L3 & L4 & L5).
  pose proof (lookup_lt_Some _ _ _ Hi) as Hlt.
  destruct (lookup_lt_is_Some_2 x1_dst i ltac:(lia)) as [a Ha].
  destruct (lookup_lt_is_Some_2 y1_dst i ltac:(lia)) as [b Hb].
  destruct (lookup_lt_is_Some_2 x2fg i ltac:(lia)) as [c Hc].
  destruct (lookup_lt_is_Some_2 y2fg i ltac:(lia)) as [d Hd].
  destruct (lookup_lt_is_Some_2 border i ltac:(lia)) as [e He].
  exists a, b, c, d, e. do 5 (split; [assumption|]).
  unfold first_guess_and_mask in Efg.
  destruct (transform_points _ _ _) as [xd yd].
  destruct (prepare_first_guess _ _ _ _ _ _ _ _ _ _) as [[[xf yf] bd]|err]; [|discriminate Efg].
  rewrite ok_bind in Efg. injection Efg as <- <- <- <- <- <-.
  rewrite (good_points_lookup _ _ _ _ _ _ _ _ _ _ _ _ _ _ _ Ha Hb Hc Hd He) in Hi.
  injection Hi as Hi. eapply point_ok_finite. exact Hi.
Qed.

End MaskedPoints.

(** ** The further properties on the sample data *)

(** X1, with a matcher that returns NaN for both candidate angles. *)
Lemma rotate_and_match_no_candidate_witness :
  rotate_and_match sample_image (of_Z 8) (of_Z 8) 3 (slice2 5 12 5 12 sample_image) f0
    sample_options_nan
  = ([EvMatchTemplate f0; EvMatchTemplate (of_Z 3)], Raise UnboundLocalError).
Proof.
  apply (rotate_and_match_no_candidate sample_image (of_Z 8) (of_Z 8) 3
           (slice2 5 12 5 12 sample_image) f0 sample_options_nan).
  repeat constructor;
    (eexists _, _; split; [vm_compute; reflexivity|]; split; [vm_compute; reflexivity|];
     split; [vm_compute; reflexivity | left; reflexivity]).
Defined.


(** X3, with a first guess whose x is NaN. *)
Lemma use_mcc_undefined_guess_witness :
  exists e, (e = ValueError \/ e = OverflowError) /\
    use_mcc (of_Z 8) (of_Z 8) np_nan (of_Z 8) f2 sample_image sample_image 3 f0
      sample_options = ([], Raise e).
Proof. apply use_mcc_undefined_guess. left. reflexivity. Defined.

(** X4, on the sample data run sequentially. *)
Lemma pattern_matching_cell_results_witness :
  exists log out x1_dst y1_dst x2fg y2fg border gpi globals,
    pattern_matching sample_lon sample_lat sample_nansat sample_x1 sample_y1
      sample_nansat sample_x1 sample_y1 0 3 0 sample_options backwards = (log, Ok out) /\
    first_guess_and_mask sample_lon sample_lat sample_nansat sample_x1 sample_y1
      sample_nansat sample_x1 sample_y1 0 3 sample_options
      = Ok (x1_dst, y1_dst, x2fg, y2fg, border, gpi) /\
    _init_pool gpi x1_dst y1_dst x2fg y2fg border (band1 sample_nansat) (band1 sample_nansat)
      3 (get_initial_rotation sample_nansat sample_nansat) sample_options = Ok globals /\
    forall i xd yd,
      gpi !! i = Some true -> x1_dst !! i = Some xd -> y1_dst !! i = Some yd ->
      exists l res,
        use_mcc_mp globals (task_of_cell gpi i) = (l, Ok res) /\
        gdata (out_a out) !! i = Some (res_a res) /\
        gdata (out_r out) !! i = Some (res_r res) /\
        gdata (out_h out) !! i = Some (res_h res) /\
        let p1 := pix2geo sample_nansat xd yd in
        let p2 := pix2geo sample_nansat (res_x2 res) (res_y2 res) in
        gdata (out_lon2 out) !! i = Some p2.1 /\
        gdata (out_lat2 out) !! i = Some p2.2 /\
        gdata (out_u out) !! i
          = Some (fsub (nsr_geo2pix sample_options p2.1 p2.2).1
                       (nsr_geo2pix sample_options p1.1 p1.2).1) /\
        gdata (out_v out) !! i
          = Some (fsub (nsr_geo2pix sample_options p1.1 p1.2).2
                       (nsr_geo2pix sample_options p2.1 p2.2).2).
Proof.
  eexists _, _.
  pose proof (pattern_matching_cell_results sample_lon sample_lat sample_nansat
                sample_x1 sample_y1 sample_nansat sample_x1 sample_y1 0 3 0
                sample_options backwards) as H.
  edestruct H as (x1_dst & y1_dst & x2fg & y2fg & border & gpi & globals & H1 & H2 & H3);
    [exact backwards_fair | vm_compute; reflexivity |].
  exists x1_dst, y1_dst, x2fg, y2fg, border, gpi, globals.
  split; [vm_compute; reflexivity|]. auto.
Defined.

(** X5, on the sample data run sequentially: four tasks of one angle. *)
Lemma pattern_matching_calls_witness :
  exists log out,
    pattern_matching sample_lon sample_lat sample_nansat sample_x1 sample_y1
      sample_nansat sample_x1 sample_y1 0 3 0 sample_options backwards = (log, Ok out) /\
    let n := count_true [true; true; false; true; true; false] in
    let conversion := if decide (n = 0) then [] else [EvDriftVectors n] in
    (0%Z = 0%Z -> log = concat (map (task_log sample_options) (seq 0 n)) ++ conversion) /\
    log ≡ₚ concat (map (task_log sample_options) (seq 0 n)) ++ conversion /\
    matcher_calls log = n * length (angles sample_options).
Proof.
  eexists _, _. split; [vm_compute; reflexivity|].
  eapply (pattern_matching_calls sample_lon sample_lat sample_nansat sample_x1 sample_y1
            sample_nansat sample_x1 sample_y1 0 3 0 sample_options backwards);
    [exact backwards_fair | vm_compute; reflexivity | vm_compute; reflexivity].
Defined.

(** X6, on the edge grid: the first task is the point in the last column. *)
Lemma pattern_matching_task_raises_witness :
  exists e j',
    j' < count_true [true; true] /\ (use_mcc_mp edge_globals j').2 = Raise e /\
    (pattern_matching edge_lon edge_lat sample_nansat sample_x1 sample_y1
       sample_nansat sample_x1 sample_y1 (-4) 5 0 sample_options backwards).2 = Raise e /\
    (0%Z = 0%Z -> forall k, k < j' -> is_ok (use_mcc_mp edge_globals k).2 = true) /\
    forall m, EvDriftVectors m ∉
      (pattern_matching edge_lon edge_lat sample_nansat sample_x1 sample_y1
         sample_nansat sample_x1 sample_y1 (-4) 5 0 sample_options backwards).1.
Proof.
  apply (pattern_matching_task_raises edge_lon edge_lat sample_nansat sample_x1 sample_y1
           sample_nansat sample_x1 sample_y1 (-4) 5 0 sample_options backwards
           (gdata edge_lon) (gdata edge_lat) (gdata edge_lon) (gdata edge_lat) [f2; f2]
           [true; true] edge_globals 0).
  - exact backwards_fair.
  - lia.
  - vm_compute. reflexivity.
  - reflexivity.
  - vm_compute. lia.
  - vm_compute. reflexivity.
Defined.

(** X7, with the four keypoints of the sample data. *)
Lemma get_distance_to_nearest_keypoint_values_witness :
  exists dist,
    get_distance_to_nearest_keypoint sample_x1 sample_y1 (16, 16) = Ok dist /\
    length dist = 16 /\ Forall (fun row => length row = 16) dist /\
    Forall (Forall (fun v => fle f0 v = true)) dist /\
    forall k x y, sample_x1 !! k = Some x -> sample_y1 !! k = Some y ->
      py_index2 dist (np_uint16 y) (np_uint16 x) = Ok f0.
Proof.
  apply (get_distance_to_nearest_keypoint_values sample_x1 sample_y1 (16, 16));
    [reflexivity|].
  intros k x y Hx Hy.
  do 4 (destruct k as [|k];
        [injection Hx as <-; injection Hy as <-; vm_compute; split; reflexivity|]).
  discriminate Hx.
Defined.

(** X8, with a keypoint in column 20 of an image of 16 columns. *)
Lemma get_distance_to_nearest_keypoint_outside_witness :
  get_distance_to_nearest_keypoint [of_Z 20] [of_Z 3] (16, 16) = Raise IndexError.
Proof.
  apply (get_distance_to_nearest_keypoint_outside [of_Z 20] [of_Z 3] (16, 16) 0
           (of_Z 20) (of_Z 3)); [reflexivity | reflexivity | reflexivity |].
  right. vm_compute. discriminate.
Defined.

(** X9, on the sample data. *)
Lemma prepare_first_guess_nan_fill_witness :
  exists x2fg y2fg border poly near,
    prepare_first_guess (gdata sample_lon) (gdata sample_lat) sample_nansat
      sample_x1 sample_y1 sample_nansat sample_x1 sample_y1 3 sample_options
      = Ok (x2fg, y2fg, border) /\
    x2y2_interpolation_poly sample_x1 sample_y1 sample_x1 sample_y1 = Ok poly /\
    x2y2_interpolation_near sample_x1 sample_y1 sample_x1 sample_y1 = Ok near /\
    length x2fg = length (gdata sample_lon) /\ length y2fg = length (gdata sample_lon) /\
    length border = length (gdata sample_lon) /\
    forall i x y, gdata sample_lon !! i = Some x -> gdata sample_lat !! i = Some y ->
      x2fg !! i = Some (if fisnan (near x y).1 then (poly x y).1 else (near x y).1) /\
      y2fg !! i = Some (if fisnan (near x y).2 then (poly x y).2 else (near x y).2) /\
      (fisnan (near x y).2 = true -> border !! i = Some (max_border sample_options)).
Proof.
  eexists _, _, _.
  assert (prepare_first_guess (gdata sample_lon) (gdata sample_lat) sample_nansat
            sample_x1 sample_y1 sample_nansat sample_x1 sample_y1 3 sample_options
          = Ok (_, _, _)) as Hrun by (vm_compute; reflexivity).
  edestruct (prepare_first_guess_nan_fill (gdata sample_lon) (gdata sample_lat)
               sample_nansat sample_x1 sample_y1 sample_nansat sample_x1 sample_y1 3
               sample_options) as (poly & near & H);
    [reflexivity | vm_compute; reflexivity | exact Hrun |].
  exists poly, near. split; [exact Hrun | exact H].
Defined.

(** X10, at three query points: the first lies on the pixel of the first
    correspondence and gets [min_border], the second lies outside the
    image and gets [max_border]. *)
Lemma prepare_first_guess_distance_border_witness :
  exists x2fg y2fg border,
    prepare_first_guess probe_x probe_y sample_nansat
      sample_x1 sample_y1 sample_nansat sample_x1 sample_y1 3 sample_options
      = Ok (x2fg, y2fg, border) /\
    (forall i x y, probe_x !! i = Some x -> probe_y !! i = Some y ->
       fisnan (x, y).2 = false ->
       exists b, border !! i = Some b /\
         (in_image x y (nshape sample_nansat) = false ->
          feq b (max_border sample_options) = true) /\
         (in_image x y (nshape sample_nansat) = true ->
          forall k xk yk, sample_x1 !! k = Some xk -> sample_y1 !! k = Some yk ->
            np_uint16 yk = np_int16 y -> np_uint16 xk = np_int16 x ->
            b = min_border sample_options)) /\
    border !! 0 = Some (min_border sample_options) /\
    exists b, border !! 1 = Some b /\ feq b (max_border sample_options) = true.
Proof.
  eexists _, _, _.
  assert (prepare_first_guess probe_x probe_y sample_nansat
            sample_x1 sample_y1 sample_nansat sample_x1 sample_y1 3 sample_options
          = Ok (_, _, _)) as Hrun by (vm_compute; reflexivity).
  split; [exact Hrun|].
  pose proof (prepare_first_guess_distance_border probe_x probe_y
                sample_nansat sample_x1 sample_y1 sample_nansat sample_x1 sample_y1 3
                sample_options _ _ _ (fun x y => (x, y))
                eq_refl eq_refl eq_refl eq_refl
                ltac:(vm_compute; discriminate) ltac:(vm_compute; discriminate)
                ltac:(repeat constructor) ltac:(repeat constructor)
                eq_refl eq_refl eq_refl Hrun) as H.
  split; [exact H|]. split.
  - destruct (H 0 (of_Z 2) (of_Z 3) eq_refl eq_refl eq_refl) as (b & Hb & _ & Hon).
    rewrite Hb. f_equal.
    apply (Hon eq_refl 0 (of_Z 2) (of_Z 3)); reflexivity.
  - destruct (H 1 (of_Z 20) (of_Z 3) eq_refl eq_refl eq_refl) as (b & Hb & Hout & _).
    exists b. split; [exact Hb | exact (Hout eq_refl)].
Defined.

(** X11, on a band of eight pixels with the bounds -30 and -5. *)
Lemma get_uint8_image_range_witness :
  exists out,
    get_uint8_image sample_percentiles sample_band (Some (of_Z (-30))) (Some (of_Z (-5)))
      = Ok out /\
    length out = length sample_band /\
    forall r row, sample_band !! r = Some row ->
      exists orow, out !! r = Some orow /\ length orow = length row /\
        forall c x, row !! c = Some x ->
          exists v, orow !! c = Some v /\
            (if np_isfinite x then (1 <= v <= 255)%Z else v = 0%Z).
Proof.
  apply (get_uint8_image_range sample_percentiles sample_band
           (Some (of_Z (-30))) (Some (of_Z (-5))) (of_Z (-30)) (of_Z (-5)));
    [reflexivity | vm_compute; reflexivity].
Defined.

(** X12, on a grid of two by two cells. *)
Lemma fill_gpi_round_trip_witness :
  exists g,
    _fill_gpi (2, 2) [true; false; true; false] [f1; f2] = Ok g /\
    gshape g = (2, 2) /\ wf_grid g /\
    mask_select [true; false; true; false] (gdata g) = Ok [f1; f2] /\
    forall i, [true; false; true; false] !! i = Some false -> gdata g !! i = Some np_nan.
Proof. apply fill_gpi_round_trip; reflexivity. Defined.

(** X13, on the sample image, whose transforms are the identity. *)
Lemma get_displacement_pix_same_image_witness :
  get_displacement_pix sample_nansat sample_x1 sample_y1 sample_nansat sample_y1 sample_x1
  = Ok (vsub sample_y1 sample_x1, vsub sample_x1 sample_y1).
Proof.
  apply get_displacement_pix_same_image; try reflexivity.
Defined.

(** X14, on the sample data: the first grid point is let through. *)
Lemma dispatched_points_are_finite_witness :
  exists x1_dst y1_dst x2fg y2fg border gpi,
    first_guess_and_mask sample_lon sample_lat sample_nansat sample_x1 sample_y1
      sample_nansat sample_x1 sample_y1 0 3 sample_options
      = Ok (x1_dst, y1_dst, x2fg, y2fg, border, gpi) /\
    gpi !! 0 = Some true /\
    exists a b c d e,
      x1_dst !! 0 = Some a /\ y1_dst !! 0 = Some b /\ x2fg !! 0 = Some c /\
      y2fg !! 0 = Some d /\ border !! 0 = Some e /\
      np_isfinite a = true /\ np_isfinite b = true /\
      np_isfinite c = true /\ np_isfinite d = true /\
      fisnan e = false /\ e <> S754_infinity false.
Proof.
  eexists _, _, _, _, _, _.
  assert (first_guess_and_mask sample_lon sample_lat sample_nansat sample_x1 sample_y1
            sample_nansat sample_x1 sample_y1 0 3 sample_options = Ok _) as Hfg
    by (vm_compute; reflexivity).
  split; [exact Hfg|]. split; [reflexivity|].
  eapply dispatched_points_are_finite; [exact Hfg | reflexivity].
Defined.

(** X15, on the sample data run sequentially: the two edge cells are
    masked out. *)
Lemma pattern_matching_masked_cells_witness :
  exists log out x1_dst y1_dst x2fg y2fg border gpi,
    pattern_matching sample_lon sample_lat sample_nansat sample_x1 sample_y1
      sample_nansat sample_x1 sample_y1 0 3 0 sample_options backwards = (log, Ok out) /\
    first_guess_and_mask sample_lon sample_lat sample_nansat sample_x1 sample_y1
      sample_nansat sample_x1 sample_y1 0 3 sample_options
      = Ok (x1_dst, y1_dst, x2fg, y2fg, border, gpi) /\
    gpi = [true; true; false; true; true; false] /\
    Forall (fun g => gshape g = gshape sample_lon /\ wf_grid g) (grids_of out) /\
    forall i, i < grid_size (gshape sample_lon) -> gpi !! i <> Some true ->
      Forall (fun g => gdata g !! i = Some np_nan) (grids_of out).
Proof.
  eexists _, _.
  pose proof (pattern_matching_masked_cells sample_lon sample_lat sample_nansat
                sample_x1 sample_y1 sample_nansat sample_x1 sample_y1 0 3 0
                sample_options backwards) as H.
  edestruct H as (x1_dst & y1_dst & x2fg & y2fg & border & gpi & H1 & H2 & H3);
    [vm_compute; reflexivity |].
  exists x1_dst, y1_dst, x2fg, y2fg, border, gpi.
  split; [vm_compute; reflexivity|]. split; [exact H1|].
  assert (first_guess_and_mask sample_lon sample_lat sample_nansat sample_x1 sample_y1
            sample_nansat sample_x1 sample_y1 0 3 sample_options
          = Ok (gdata sample_lon, gdata sample_lat, gdata sample_lon, gdata sample_lat,
                [of_Z 2; of_Z 2; of_Z 2; of_Z 2; of_Z 2; of_Z 2],
                [true; true; false; true; true; false])) as Hfg
    by (vm_compute; reflexivity).
  rewrite Hfg in H1. injection H1 as <- <- <- <- <- <-. auto.
Defined.

